(** * claude-mcp-scheduler: the scheduler and its tool connection

    A shallow embedding of [scheduler.ts] (class [Scheduler]) and
    [mcp-client.ts] (class [MCPClient]).

    - Synchronous methods ([start], [scheduleTask], [stop],
      [getActiveTasks], [isTaskActive]) are functions on an explicit
      [World]; a thrown exception is the result [Throw].
    - [async] methods ([connect], [disconnect], [discoverTools],
      [executeSchedule], [saveOutput]) are programs of a small monad
      [Prog] whose [Await] nodes are the promises of external
      operations.  The same program is given two readings: [run] answers
      every awaited operation from an environment (one method in
      isolation), and [step] is the event loop, where a firing is
      suspended at an [Await] and resumed when the promise settles.
    - node-cron, the MCP SDK client, the file system, the clock and the
      prompt executor are collaborators: what they answer is an input.
      So is the server process [connect] spawns: the ['error'] and
      [stderr] events it emits are events of the loop, which runs the
      listeners [connect] has attached to it.
      [Map] objects are finite maps ([gmap]); the order in which a [Map]
      is iterated is not modelled. *)

From Stdlib Require Import Ascii ZArith Lia.
From stdpp Require Import base option list gmap strings fin_maps.


(** ** Errors ([types/errors.ts]) *)

Inductive ErrorClass : Type :=
| SchedulerErrorC   (* code SCHEDULER_ERROR *)
| MCPErrorC         (* code MCP_ERROR *)
| APIErrorC         (* code API_ERROR *)
| ForeignErrorC.    (* anything thrown by a dependency *)

(** [err_message] is what the source reads with
    [error instanceof Error ? error.message : String(error)]. *)
Record JsError : Type := MkError { err_class : ErrorClass; err_message : string }.

Definition SchedulerError (msg : string) : JsError := MkError SchedulerErrorC msg.
Definition MCPError (msg : string) : JsError := MkError MCPErrorC msg.

Inductive Result (A : Type) : Type :=
| Ok (a : A)
| Throw (e : JsError).
Arguments Ok {A} a.
Arguments Throw {A} e.

(** ** Data ([types/config.ts], [types/mcp.ts]) *)

Record Schedule : Type := MkSchedule {
  name : string;
  cron : string;
  enabled : bool;
  prompt : string;
  outputPath : option string
}.

Record MCPTool : Type := MkTool {
  tool_name : string;
  tool_description : string;
  tool_inputSchema : string
}.

(** A tool as listed by the server: the description may be absent. *)
Record ListedTool : Type := MkListed {
  lt_name : string;
  lt_description : option string;
  lt_inputSchema : string
}.

(** ** Logging *)

Inductive Level : Type := Debug | Info | Warn | Error.

Inductive LogValue : Type :=
| LStr (s : string)
| LNum (z : Z)
| LBool (b : bool)
| LStrs (l : list string)
| LNull.

Record LogEntry : Type := MkLog {
  log_level : Level;
  log_message : string;
  log_fields : list (string * LogValue)
}.

(** ** The world *)

(** The object [cron.schedule] returns; the callback it holds is
    [() => { void this.executeSchedule(schedule) }], so the trigger is
    recorded with the schedule its callback closes over. *)
Record Trigger : Type := MkTrigger {
  tr_schedule : Schedule;
  tr_expression : string;
  tr_timezone : string;
  tr_running : bool
}.

(** [interface ScheduledTask]: [task] is a reference to a trigger, its
    position in [triggers]. *)
Record ScheduledTask : Type := MkTask {
  schedule : Schedule;
  task : nat
}.

Record MCPFilesystemConfig : Type := MkFsConfig {
  command : string;
  args : list string;
  allowedDirectories : list string
}.

(** The fields of [MCPClient]; [client], [transport] and [serverProcess]
    are references (positions in [clients], [transports], [processes]). *)
Record MCPClient : Type := MkMCP {
  config : MCPFilesystemConfig;
  client : option nat;
  transport : option nat;
  serverProcess : option nat;
  tools : gmap string MCPTool;
  isConnected : bool
}.

(** What the scheduler and the client ask of their collaborators.  The
    answer to an external call arrives later, as the settlement of the
    promise the call returns. *)
Inductive ExtCall : Type :=
| ClientConnect (c t : nat)           (* client.connect(transport) *)
| ClientListTools (c : nat)           (* client.listTools() *)
| ClientClose (c : nat)               (* client.close() *)
| TransportClose (t : nat)            (* transport.close() *)
| ExecutePrompt (prompt : string)     (* claudeHandler.executePrompt(prompt, mcpClient) *)
| Mkdir (dir : string)                (* mkdir(dir, { recursive: true }) *)
| WriteFile (path content : string).  (* writeFile(path, content, 'utf-8') *)

(** The ghost trace: entries into [MCPClient.connect] and the external
    calls, in the order they are made. *)
Inductive Call : Type :=
| CallConnect
| CallExt (op : ExtCall).

(** External objects: [true] while open (client, transport) or alive
    (server process). *)
Record World : Type := MkWorld {
  tasks : gmap string ScheduledTask;      (* Scheduler.tasks *)
  triggers : list Trigger;                (* node-cron's tasks, by reference *)
  mcp : MCPClient;                        (* the shared MCPClient *)
  processes : list bool;                  (* spawned server processes *)
  transports : list bool;                 (* StdioClientTransport objects *)
  clients : list bool;                    (* SDK Client objects *)
  files : list (string * string);         (* writeFile calls that succeeded *)
  dirs : list string;                     (* mkdir calls that succeeded *)
  log : list LogEntry;                    (* oldest first *)
  calls : list Call;                      (* ghost: the calls made, oldest first *)
  clock : Z;                              (* the time, ms since the epoch *)
  drift : list Z;                         (* how far the clock moves after each reading *)
  env_TZ : option string                  (* process.env.TZ *)
}.

Definition set_tasks (x : gmap string ScheduledTask) (w : World) : World :=
  MkWorld x (triggers w) (mcp w) (processes w) (transports w) (clients w) (files w) (dirs w) (log w) (calls w) (clock w) (drift w) (env_TZ w).
Definition set_triggers (x : list Trigger) (w : World) : World :=
  MkWorld (tasks w) x (mcp w) (processes w) (transports w) (clients w) (files w) (dirs w) (log w) (calls w) (clock w) (drift w) (env_TZ w).
Definition set_mcp (x : MCPClient) (w : World) : World :=
  MkWorld (tasks w) (triggers w) x (processes w) (transports w) (clients w) (files w) (dirs w) (log w) (calls w) (clock w) (drift w) (env_TZ w).
Definition set_processes (x : list bool) (w : World) : World :=
  MkWorld (tasks w) (triggers w) (mcp w) x (transports w) (clients w) (files w) (dirs w) (log w) (calls w) (clock w) (drift w) (env_TZ w).
Definition set_transports (x : list bool) (w : World) : World :=
  MkWorld (tasks w) (triggers w) (mcp w) (processes w) x (clients w) (files w) (dirs w) (log w) (calls w) (clock w) (drift w) (env_TZ w).
Definition set_clients (x : list bool) (w : World) : World :=
  MkWorld (tasks w) (triggers w) (mcp w) (processes w) (transports w) x (files w) (dirs w) (log w) (calls w) (clock w) (drift w) (env_TZ w).
Definition set_files (x : list (string * string)) (w : World) : World :=
  MkWorld (tasks w) (triggers w) (mcp w) (processes w) (transports w) (clients w) x (dirs w) (log w) (calls w) (clock w) (drift w) (env_TZ w).
Definition set_dirs (x : list string) (w : World) : World :=
  MkWorld (tasks w) (triggers w) (mcp w) (processes w) (transports w) (clients w) (files w) x (log w) (calls w) (clock w) (drift w) (env_TZ w).
Definition set_log (x : list LogEntry) (w : World) : World :=
  MkWorld (tasks w) (triggers w) (mcp w) (processes w) (transports w) (clients w) (files w) (dirs w) x (calls w) (clock w) (drift w) (env_TZ w).
Definition set_calls (x : list Call) (w : World) : World :=
  MkWorld (tasks w) (triggers w) (mcp w) (processes w) (transports w) (clients w) (files w) (dirs w) (log w) x (clock w) (drift w) (env_TZ w).
Definition set_clock (x : Z) (w : World) : World :=
  MkWorld (tasks w) (triggers w) (mcp w) (processes w) (transports w) (clients w) (files w) (dirs w) (log w) (calls w) x (drift w) (env_TZ w).
Definition set_drift (x : list Z) (w : World) : World :=
  MkWorld (tasks w) (triggers w) (mcp w) (processes w) (transports w) (clients w) (files w) (dirs w) (log w) (calls w) (clock w) x (env_TZ w).
Definition set_env_TZ (x : option string) (w : World) : World :=
  MkWorld (tasks w) (triggers w) (mcp w) (processes w) (transports w) (clients w) (files w) (dirs w) (log w) (calls w) (clock w) (drift w) x.

Definition logger (lv : Level) (msg : string) (fields : list (string * LogValue))
    (w : World) : World :=
  set_log (log w ++ [MkLog lv msg fields]) w.

(** A fresh [MCPClient] and a fresh [Scheduler] at time [t]. *)
Definition mcp0 (cfg : MCPFilesystemConfig) : MCPClient :=
  MkMCP cfg None None None ∅ false.
Definition world0 (cfg : MCPFilesystemConfig) (t : Z) (tz : option string) : World :=
  MkWorld ∅ [] (mcp0 cfg) [] [] [] [] [] [] [] t [] tz.

(** ** JavaScript strings *)

(** [strip_prefix p s]: what follows [p] when [s] starts with [p]. *)
Fixpoint strip_prefix (p s : string) : option string :=
  match p with
  | "" => Some s
  | String a p' =>
      match s with
      | String b s' => if bool_decide (a = b) then strip_prefix p' s' else None
      | "" => None
      end
  end.

(** The first occurrence of [pat] in [s]: the text before it and the
    text after it. *)
Fixpoint find_first (pat s : string) : option (string * string) :=
  match strip_prefix pat s with
  | Some rest => Some ("", rest)
  | None =>
      match s with
      | "" => None
      | String c s' =>
          match find_first pat s' with
          | Some (b, a) => Some (String c b, a)
          | None => None
          end
      end
  end.

(** ECMAScript's GetSubstitution for a match without capture groups:
    in the replacement text [$$] stands for [$], [$&] for the match,
    [$`] for the text before it and [$'] for the text after it; every
    other character, and a [$] followed by something else, is literal. *)
Fixpoint GetSubstitution (matched before after replacement : string) : string :=
  match replacement with
  | "" => ""
  | String c tl =>
      if bool_decide (c = "$"%char) then
        match tl with
        | "" => "$"
        | String d tl' =>
            if bool_decide (d = "$"%char) then
              "$" +:+ GetSubstitution matched before after tl'
            else if bool_decide (d = "&"%char) then
              matched +:+ GetSubstitution matched before after tl'
            else if bool_decide (d = "`"%char) then
              before +:+ GetSubstitution matched before after tl'
            else if bool_decide (d = "'"%char) then
              after +:+ GetSubstitution matched before after tl'
            else String c (GetSubstitution matched before after tl)
        end
      else String c (GetSubstitution matched before after tl)
  end.

(** [s.replace(pat, replacement)] with a string pattern: the first
    occurrence only. *)
Definition String_replace (s pat replacement : string) : string :=
  match find_first pat s with
  | None => s
  | Some (before, after) =>
      before +:+ GetSubstitution pat before after replacement +:+ after
  end.

(** [s.replace(/[:.]/g, '-')]. *)
Fixpoint replace_colon_dot (s : string) : string :=
  match s with
  | "" => ""
  | String c s' =>
      String (if bool_decide (c = ":"%char) || bool_decide (c = "."%char)
              then "-"%char else c)
             (replace_colon_dot s')
  end.

(** [s.split(sep)[0]] for a one-character separator. *)
Fixpoint split_head (sep : ascii) (s : string) : string :=
  match s with
  | "" => ""
  | String c s' => if bool_decide (c = sep) then "" else String c (split_head sep s')
  end.

(** [Boolean(s)]. *)
Definition Boolean_string (s : option string) : bool :=
  match s with
  | Some s => negb (bool_decide (s = ""))
  | None => false
  end.

(** ** Counting occurrences and characters *)

Definition starts_with (pat s : string) : bool :=
  match strip_prefix pat s with Some _ => true | None => false end.

(** The number of positions of [s] at which [pat] occurs. *)
Fixpoint occurrences (pat s : string) : nat :=
  (if starts_with pat s then 1 else 0)
  + match s with
    | "" => 0
    | String _ s' => occurrences pat s'
    end.

Fixpoint all_chars (P : ascii -> bool) (s : string) : bool :=
  match s with
  | "" => true
  | String c s' => P c && all_chars P s'
  end.

(** The character [c] does not occur in [s]. *)
Definition no_char (c : ascii) (s : string) : Prop :=
  all_chars (fun x => negb (bool_decide (x = c))) s = true.

Definition is_digit (c : ascii) : bool :=
  bool_decide (c ∈ ["0"; "1"; "2"; "3"; "4"; "5"; "6"; "7"; "8"; "9"]%char).

(** The placeholders of an output path. *)
Definition placeholders : list string := ["{name}"; "{timestamp}"; "{date}"].

(** ** [Date.prototype.toISOString] *)

Definition digit (n : Z) : ascii :=
  ascii_of_nat (48 + Z.to_nat (n `mod` 10)).

(** The last [width] decimal digits of [n]. *)
Fixpoint pad (width : nat) (n : Z) : string :=
  match width with
  | O => ""
  | S w => pad w (n `div` 10) +:+ String (digit n) ""
  end.

(** Day number (days since 1970-01-01) to year, month, day of the
    proleptic Gregorian calendar. *)
Definition civil_from_days (days : Z) : Z * Z * Z :=
  let z := (days + 719468)%Z in
  let era := (z `div` 146097)%Z in
  let doe := (z `mod` 146097)%Z in
  let yoe := ((doe - doe `div` 1460 + doe `div` 36524 - doe `div` 146096) `div` 365)%Z in
  let doy := (doe - (365 * yoe + yoe `div` 4 - yoe `div` 100))%Z in
  let mp := ((5 * doy + 2) `div` 153)%Z in
  let d := (doy - (153 * mp + 2) `div` 5 + 1)%Z in
  let m := (if bool_decide (mp < 10)%Z then mp + 3 else mp - 9)%Z in
  let y := (yoe + era * 400 + (if bool_decide (m ≤ 2)%Z then 1 else 0))%Z in
  (y, m, d).

Definition year_string (y : Z) : string :=
  if bool_decide (0 ≤ y ≤ 9999)%Z then pad 4 y
  else (if bool_decide (y < 0)%Z then "-" else "+") +:+ pad 6 (Z.abs y).

Definition date_string (t : Z) : string :=
  let '(y, m, d) := civil_from_days (t `div` 86400000) in
  year_string y +:+ "-" +:+ pad 2 m +:+ "-" +:+ pad 2 d.

Definition time_string (t : Z) : string :=
  let ms := (t `mod` 86400000)%Z in
  pad 2 (ms `div` 3600000) +:+ ":" +:+ pad 2 ((ms `div` 60000) `mod` 60) +:+ ":"
  +:+ pad 2 ((ms `div` 1000) `mod` 60) +:+ "." +:+ pad 3 (ms `mod` 1000).

(** [new Date(t).toISOString()]. *)
Definition toISOString (t : Z) : string :=
  date_string t +:+ "T" +:+ time_string t +:+ "Z".

(** ** Asynchronous methods: the monad [Prog] *)

(** What the promise of an external call is fulfilled with. *)
Definition Answer (op : ExtCall) : Type :=
  match op with
  | ClientListTools _ => option (list ListedTool)   (* response.tools *)
  | ExecutePrompt _ => string
  | _ => unit
  end.

(** An [async] body: it returns, throws, reads or writes the world
    without interruption ([Sync]), or awaits the promise of an external
    call ([Await]); the continuation of [Await] receives the settlement,
    and that is where other firings may run in between.  Awaiting
    another [async] method of these classes is sequencing ([bind]): the
    turn of the job queue such an [await] takes is not a point where a
    timer or the settlement of an external call is served. *)
Inductive Prog (A : Type) : Type :=
| Ret (a : A)
| Raise (e : JsError)
| Sync {X : Type} (f : World -> X * World) (k : X -> Prog A)
| Await (op : ExtCall) (k : Result (Answer op) -> Prog A).
Arguments Ret {A} a.
Arguments Raise {A} e.
Arguments Sync {A X} f k.
Arguments Await {A} op k.

Fixpoint bind {A B} (p : Prog A) (f : A -> Prog B) : Prog B :=
  match p with
  | Ret a => f a
  | Raise e => Raise e
  | Sync g k => Sync g (fun x => bind (k x) f)
  | Await op k => Await op (fun r => bind (k r) f)
  end.

#[global] Instance Prog_ret : MRet Prog := fun A a => Ret a.
#[global] Instance Prog_bind : MBind Prog := fun A B f p => bind p f.

(** [try { p } catch (error) { h error }]. *)
Fixpoint try_catch {A} (p : Prog A) (h : JsError -> Prog A) : Prog A :=
  match p with
  | Ret a => Ret a
  | Raise e => h e
  | Sync g k => Sync g (fun x => try_catch (k x) h)
  | Await op k => Await op (fun r => try_catch (k r) h)
  end.

(** [await call]: a rejection is thrown at the [await]. *)
Definition await (op : ExtCall) : Prog (Answer op) :=
  Await op (fun r => match r with Ok v => Ret v | Throw e => Raise e end).

Definition get {X} (f : World -> X) : Prog X := Sync (fun w => (f w, w)) Ret.
Definition modify (f : World -> World) : Prog unit := Sync (fun w => (tt, f w)) Ret.

(** [Date.now()] and [new Date()]: the time now; the clock then moves
    on by the next entry of [drift]. *)
Definition clock_moves (w : World) : World :=
  match drift w with
  | [] => w
  | d :: ds => set_clock (clock w + d)%Z (set_drift ds w)
  end.
Definition read_clock (w : World) : Z * World := (clock w, clock_moves w).
Definition Date_now : Prog Z := Sync read_clock Ret.

(** ** [MCPClient] *)

Definition set_client (c : option nat) (w : World) : World :=
  let m := mcp w in
  set_mcp (MkMCP (config m) c (transport m) (serverProcess m) (tools m) (isConnected m)) w.
Definition set_transport (t : option nat) (w : World) : World :=
  let m := mcp w in
  set_mcp (MkMCP (config m) (client m) t (serverProcess m) (tools m) (isConnected m)) w.
Definition set_serverProcess (p : option nat) (w : World) : World :=
  let m := mcp w in
  set_mcp (MkMCP (config m) (client m) (transport m) p (tools m) (isConnected m)) w.
Definition set_tools (t : gmap string MCPTool) (w : World) : World :=
  let m := mcp w in
  set_mcp (MkMCP (config m) (client m) (transport m) (serverProcess m) t (isConnected m)) w.
Definition set_isConnected (b : bool) (w : World) : World :=
  let m := mcp w in
  set_mcp (MkMCP (config m) (client m) (transport m) (serverProcess m) (tools m) b) w.

(** [spawn(command, args, ...)], [new StdioClientTransport(...)] and
    [new Client(...)]: a new external object; the result refers to it. *)
Definition spawn (w : World) : nat * World :=
  (length (processes w), set_processes (processes w ++ [true]) w).
Definition new_transport (w : World) : nat * World :=
  (length (transports w), set_transports (transports w ++ [true]) w).
Definition new_client (w : World) : nat * World :=
  (length (clients w), set_clients (clients w ++ [true]) w).

(** [serverProcess.kill()]. *)
Definition kill (p : nat) (w : World) : World :=
  set_processes (<[p := false]> (processes w)) w.

Definition isReady (w : World) : bool :=
  isConnected (mcp w) && bool_decide (client (mcp w) ≠ None).

Definition disconnect : Prog unit :=
  modify (logger Info "Disconnecting MCP client" []);;
  c ← get (fun w => client (mcp w));
  match c with
  | Some c =>
      try_catch (await (ClientClose c))
        (fun error =>
           modify (logger Error "Error closing MCP client"
                     [("error", LStr (err_message error))]))
  | None => Ret tt
  end;;
  t ← get (fun w => transport (mcp w));
  match t with
  | Some t =>
      try_catch (await (TransportClose t))
        (fun error =>
           modify (logger Error "Error closing transport"
                     [("error", LStr (err_message error))]))
  | None => Ret tt
  end;;
  p ← get (fun w => serverProcess (mcp w));
  match p with
  | Some p => modify (kill p);; modify (set_serverProcess None)
  | None => Ret tt
  end;;
  modify (set_client None);;
  modify (set_transport None);;
  modify (set_tools ∅);;
  modify (set_isConnected false).

Fixpoint discoverTools_loop (listed : list ListedTool) : Prog unit :=
  match listed with
  | [] => Ret tt
  | tool :: rest =>
      modify (fun w =>
        set_tools (<[lt_name tool :=
                      MkTool (lt_name tool) (default "" (lt_description tool))
                             (lt_inputSchema tool)]> (tools (mcp w))) w);;
      modify (logger Debug "Discovered tool" [("toolName", LStr (lt_name tool))]);;
      discoverTools_loop rest
  end.

Definition discoverTools : Prog unit :=
  c ← get (fun w => client (mcp w));
  match c with
  | None => Raise (MCPError "Client not connected")
  | Some c =>
      try_catch
        (response ← await (ClientListTools c);
         match response with
         | Some listed => discoverTools_loop listed
         | None => Ret tt
         end)
        (fun error => Raise (MCPError "Failed to discover tools"))
  end.

(** The two listeners [connect] attaches to the server process it has
    just spawned, [serverProcess.on('error', ...)] and
    [serverProcess.stderr?.on('data', ...)].  They are synchronous
    callbacks that close over nothing but the logger.  [connect] is the
    only place where a process is spawned, and it attaches them in the
    same uninterrupted stretch, so every process of [processes] carries
    both: they are not stored, and the event loop runs them when the
    process emits the event ([EvServerError], [EvServerStderr]).  The
    first one throws, and it runs outside [connect]: no [try] is around
    it. *)
Definition on_serverProcess_error (message : string) (w : World) : Result unit * World :=
  (Throw (MCPError "Failed to start MCP server"),
   logger Error "MCP server process error" [("error", LStr message)] w).

Definition on_stderr_data (data : string) (w : World) : Result unit * World :=
  (Ok tt, logger Debug "MCP server stderr" [("data", LStr data)] w).

(** [connect]; its first step records the call in the ghost trace.
    [spawn] reports a command that cannot be started (ENOENT, EACCES and
    the like) through the ['error'] event of the process it returns, not
    by throwing; the two listeners are the ones above. *)
Definition connect : Prog unit :=
  modify (fun w => set_calls (calls w ++ [CallConnect]) w);;
  connected ← get (fun w => isConnected (mcp w));
  if connected : bool then
    modify (logger Debug "MCP client already connected" [])
  else
    try_catch
      (cfg ← get (fun w => config (mcp w));
       modify (logger Info "Starting MCP server"
                 [("command", LStr (command cfg)); ("args", LStrs (args cfg))]);;
       p ← Sync spawn Ret;
       modify (set_serverProcess (Some p));;
       t ← Sync new_transport Ret;
       modify (set_transport (Some t));;
       c ← Sync new_client Ret;
       modify (set_client (Some c));;
       await (ClientConnect c t);;
       modify (set_isConnected true);;
       discoverTools;;
       n ← get (fun w => size (tools (mcp w)));
       modify (logger Info "MCP client connected successfully"
                 [("toolsCount", LNum (Z.of_nat n))]))
      (fun error =>
         disconnect;;
         Raise (MCPError "Failed to connect to MCP server")).

(** ** [Scheduler]: the synchronous methods *)

Definition has {V} (m : gmap string V) (k : string) : bool :=
  match m !! k with Some _ => true | None => false end.

Section Scheduler.

(** [cron.validate] of node-cron, and [path.resolve] (one argument, so
    relative to the working directory) and [path.dirname] of Node. *)
Variable validate : string -> bool.
Variable path_resolve : string -> string.
Variable path_dirname : string -> string.

(** [cron.schedule(expr, callback, { scheduled: true, timezone })]: a new
    trigger, started at once; the result is the reference to it. *)
Definition cron_schedule (s : Schedule) (w : World) : nat * World :=
  (length (triggers w),
   set_triggers (triggers w ++
     [MkTrigger s (cron s) (default "UTC" (env_TZ w)) true]) w).

(** [task.stop()]. *)
Definition stopped (t : Trigger) : Trigger :=
  MkTrigger (tr_schedule t) (tr_expression t) (tr_timezone t) false.

Definition trigger_stop (h : nat) (w : World) : World :=
  match triggers w !! h with
  | Some t => set_triggers (<[h := stopped t]> (triggers w)) w
  | None => w
  end.

(** [getNextRunTime]: always [null]. *)
Definition getNextRunTime (_cronExpression : string) : option Z := None.

Definition log_nextRun (o : option Z) : LogValue :=
  match o with Some z => LNum z | None => LNull end.

Definition scheduleTask (s : Schedule) (w : World) : Result unit * World :=
  if has (tasks w) (name s) then
    (Throw (SchedulerError ("Schedule '" +:+ name s +:+ "' is already scheduled")), w)
  else if negb (validate (cron s)) then
    (Throw (SchedulerError ("Invalid cron expression for schedule '" +:+ name s
                            +:+ "': " +:+ cron s)), w)
  else
    let '(h, w1) := cron_schedule s w in
    let w2 := set_tasks (<[name s := MkTask s h]> (tasks w1)) w1 in
    (Ok tt,
     logger Info "Task scheduled"
       [("name", LStr (name s)); ("cron", LStr (cron s));
        ("nextRun", log_nextRun (getNextRunTime (cron s)))] w2).

(** The [for ... of] loop of [start]: an exception leaves the loop. *)
Fixpoint start_loop (schedules : list Schedule) (w : World) : Result unit * World :=
  match schedules with
  | [] => (Ok tt, w)
  | s :: rest =>
      if enabled s then
        match scheduleTask s w with
        | (Ok _, w1) => start_loop rest w1
        | (Throw e, w1) => (Throw e, w1)
        end
      else
        start_loop rest
          (logger Debug "Skipping disabled schedule" [("name", LStr (name s))] w)
  end.

Definition start (schedules : list Schedule) (w : World) : Result unit * World :=
  let w0 := logger Info "Starting scheduler"
              [("schedulesCount", LNum (Z.of_nat (length schedules)))] w in
  match start_loop schedules w0 with
  | (Ok _, w1) =>
      (Ok tt,
       logger Info "Scheduler started"
         [("activeTasksCount", LNum (Z.of_nat (size (tasks w1))));
          ("totalSchedules", LNum (Z.of_nat (length schedules)))] w1)
  | (Throw e, w1) => (Throw e, w1)
  end.

(** The loop of [stop()]: every registered trigger is stopped. *)
Definition stop_all_loop (entries : list (string * ScheduledTask)) (w : World) : World :=
  foldl (fun w e =>
           logger Debug "Stopping task" [("name", LStr e.1)]
             (trigger_stop (task e.2) w))
        w entries.

Definition stop (scheduleName : option string) (w : World) : World :=
  match scheduleName with
  | Some n =>
      match tasks w !! n with
      | Some t =>
          let w1 := trigger_stop (task t) w in
          let w2 := set_tasks (delete n (tasks w1)) w1 in
          logger Info "Task stopped" [("name", LStr n)] w2
      | None => logger Warn "Task not found" [("name", LStr n)] w
      end
  | None =>
      let w1 := stop_all_loop (map_to_list (tasks w)) w in
      let w2 := set_tasks ∅ w1 in
      logger Info "All tasks stopped" [] w2
  end.

Record ActiveTaskInfo : Type := MkInfo {
  info_name : string;
  info_cron : string;
  info_nextRun : option Z
}.

(** [getActiveTasks]: one entry per registered task (as a list, in the
    order of [map_to_list]). *)
Definition getActiveTasks (w : World) : list ActiveTaskInfo :=
  map (fun e : string * ScheduledTask =>
         MkInfo (name (schedule e.2)) (cron (schedule e.2))
                (getNextRunTime (cron (schedule e.2))))
      (map_to_list (tasks w)).

Definition isTaskActive (scheduleName : string) (w : World) : bool :=
  has (tasks w) scheduleName.

(** The value of [timestamp] in [saveOutput], for the time [t]. *)
Definition timestamp (t : Z) : string := replace_colon_dot (toISOString t).

(** The value of [filename] in [saveOutput]; [t1] and [t2] are the two
    readings [new Date()] of the clock. *)
Definition filename (outputPath scheduleName : string) (t1 t2 : Z) : string :=
  String_replace
    (String_replace
       (String_replace outputPath "{name}" scheduleName)
       "{timestamp}" (timestamp t1))
    "{date}" (split_head "T" (toISOString t2)).

Definition saveOutput (scheduleName outputPath content : string) : Prog unit :=
  try_catch
    (t1 ← Date_now;
     t2 ← Date_now;
     let fullPath := path_resolve (filename outputPath scheduleName t1 t2) in
     let dir := path_dirname fullPath in
     await (Mkdir dir);;
     await (WriteFile fullPath content);;
     modify (logger Debug "Output saved"
               [("schedule", LStr scheduleName); ("path", LStr fullPath);
                ("size", LNum (Z.of_nat (String.length content)))]))
    (fun error =>
       modify (logger Error "Failed to save output"
                 [("schedule", LStr scheduleName); ("path", LStr outputPath);
                  ("error", LStr (err_message error))]);;
       Raise (SchedulerError ("Failed to save output: " +:+ err_message error))).

Definition executeSchedule (s : Schedule) : Prog unit :=
  startTime ← Date_now;
  modify (logger Info "Executing scheduled task" [("name", LStr (name s))]);;
  try_catch
    (ready ← get isReady;
     (if negb ready then
        modify (logger Warn "MCP client not ready, attempting to reconnect" []);;
        connect
      else Ret tt);;
     result ← await (ExecutePrompt (prompt s));
     match outputPath s with
     | Some p => saveOutput (name s) p result
     | None => Ret tt
     end;;
     now ← Date_now;
     modify (logger Info "Scheduled task completed"
               [("name", LStr (name s)); ("duration", LNum (now - startTime));
                ("outputSaved", LBool (Boolean_string (outputPath s)))]))
    (fun error =>
       now ← Date_now;
       modify (logger Error "Failed to execute scheduled task"
                 [("name", LStr (name s)); ("error", LStr (err_message error));
                  ("duration", LNum (now - startTime))])).

End Scheduler.

(** ** Running an asynchronous method *)

(** What the world looks like once the promise of [op] has settled with
    [r]: a closed client or transport, a created directory, a written
    file. *)
Definition effect (op : ExtCall) (r : Result (Answer op)) (w : World) : World :=
  match r with
  | Throw _ => w
  | Ok _ =>
      match op with
      | ClientClose c => set_clients (<[c := false]> (clients w)) w
      | TransportClose t => set_transports (<[t := false]> (transports w)) w
      | Mkdir d => set_dirs (dirs w ++ [d]) w
      | WriteFile p c => set_files (files w ++ [(p, c)]) w
      | _ => w
      end
  end.

Definition issue (op : ExtCall) (w : World) : World :=
  set_calls (calls w ++ [CallExt op]) w.

(** *** One method in isolation

    [run env p w] runs [p] to its end; every external call is answered
    by [env] as soon as it is made. *)
Definition Env : Type := forall op : ExtCall, Result (Answer op).

Fixpoint run {A} (env : Env) (p : Prog A) (w : World) : Result A * World :=
  match p with
  | Ret a => (Ok a, w)
  | Raise e => (Throw e, w)
  | Sync f k => let '(x, w1) := f w in run env (k x) w1
  | Await op k => run env (k (env op)) (effect op (env op) (issue op w))
  end.

(** *** The event loop

    A firing runs until it awaits an external call; it is then in
    flight, and resumes when the promise settles.  In between the loop
    serves other events. *)
Inductive Status : Type :=
| Finished
| Failed (e : JsError)
| Waiting (op : ExtCall) (k : Result (Answer op) -> Prog unit).

Fixpoint advance (p : Prog unit) (w : World) : Status * World :=
  match p with
  | Ret _ => (Finished, w)
  | Raise e => (Failed e, w)
  | Sync f k => let '(x, w1) := f w in advance (k x) w1
  | Await op k => (Waiting op k, issue op w)
  end.

Record Firing : Type := MkFiring {
  firing_name : string;     (* schedule.name of the firing *)
  firing_op : ExtCall;      (* the call it awaits *)
  firing_k : Result (Answer firing_op) -> Prog unit
}.

(** [unhandled]: rejections of promises nobody awaits, that is, of the
    promise [executeSchedule] returns to [void].  [uncaught]: exceptions
    a callback of the event loop threw with no [try] around it.  Node
    ends the process at an uncaught exception unless the host listens
    for ['uncaughtException'], which [index.ts] does not; the events
    after one are those of a host that does. *)
Record Machine : Type := MkMachine {
  world : World;
  inflight : list Firing;
  unhandled : list JsError;
  uncaught : list JsError
}.

Inductive Value : Type :=
| VUndefined
| VString (s : string)
| VTools (listed : option (list ListedTool)).

Inductive Settlement : Type :=
| Fulfilled (v : Value)
| Rejected (e : JsError).

(** The settlement as the awaiting code receives it; [None] when the
    value is not of the type of the promise. *)
Definition receive (op : ExtCall) (o : Settlement) : option (Result (Answer op)) :=
  match o with
  | Rejected e => Some (Throw e)
  | Fulfilled v =>
      match op return option (Result (Answer op)) with
      | ClientListTools _ =>
          match v with VTools l => Some (Ok l) | _ => None end
      | ExecutePrompt _ =>
          match v with VString s => Some (Ok s) | _ => None end
      | ClientConnect _ _ | ClientClose _ | TransportClose _ | Mkdir _
      | WriteFile _ _ =>
          match v with VUndefined => Some (Ok tt) | _ => None end
      end
  end.

Inductive Event : Type :=
| EvTick (h : nat)                       (* the time matches trigger [h] *)
| EvSettle (i : nat) (o : Settlement)    (* the call of the [i]-th firing in flight settles *)
| EvStart (schedules : list Schedule)    (* the host calls [start] *)
| EvStop (scheduleName : option string)  (* the host calls [stop] *)
| EvClock (d : Z)                        (* time passes *)
| EvServerError (p : nat) (message : string)  (* server process [p] emits ['error'] *)
| EvServerStderr (p : nat) (data : string).   (* its [stderr] emits ['data'] *)

Section EventLoop.

Variable validate : string -> bool.
Variable path_resolve : string -> string.
Variable path_dirname : string -> string.

(** The callback of a trigger: [() => { void this.executeSchedule(schedule) }]. *)
Definition fire (s : Schedule) (m : Machine) : Machine :=
  match advance (executeSchedule path_resolve path_dirname s) (world m) with
  | (Finished, w) => MkMachine w (inflight m) (unhandled m) (uncaught m)
  | (Failed e, w) => MkMachine w (inflight m) (unhandled m ++ [e]) (uncaught m)
  | (Waiting op k, w) =>
      MkMachine w (inflight m ++ [MkFiring (name s) op k]) (unhandled m) (uncaught m)
  end.

Definition resume (i : nat) (f : Firing) (r : Result (Answer (firing_op f)))
    (m : Machine) : Machine :=
  match advance (firing_k f r) (effect (firing_op f) r (world m)) with
  | (Finished, w) => MkMachine w (delete i (inflight m)) (unhandled m) (uncaught m)
  | (Failed e, w) => MkMachine w (delete i (inflight m)) (unhandled m ++ [e]) (uncaught m)
  | (Waiting op k, w) =>
      MkMachine w (<[i := MkFiring (firing_name f) op k]> (inflight m)) (unhandled m)
        (uncaught m)
  end.

(** A listener of an event emitter runs to its end; what it throws is
    caught by nobody. *)
Definition emit (listener : World -> Result unit * World) (m : Machine) : Machine :=
  match listener (world m) with
  | (Ok _, w) => MkMachine w (inflight m) (unhandled m) (uncaught m)
  | (Throw e, w) => MkMachine w (inflight m) (unhandled m) (uncaught m ++ [e])
  end.

Definition step (m : Machine) (ev : Event) : Machine :=
  match ev with
  | EvTick h =>
      match triggers (world m) !! h with
      | Some t => if tr_running t then fire (tr_schedule t) m else m
      | None => m
      end
  | EvSettle i o =>
      match inflight m !! i with
      | Some f =>
          match receive (firing_op f) o with
          | Some r => resume i f r m
          | None => m
          end
      | None => m
      end
  | EvStart schedules =>
      MkMachine (start validate schedules (world m)).2 (inflight m) (unhandled m)
        (uncaught m)
  | EvStop scheduleName =>
      MkMachine (stop scheduleName (world m)) (inflight m) (unhandled m) (uncaught m)
  | EvClock d =>
      MkMachine (set_clock (clock (world m) + d)%Z (world m)) (inflight m) (unhandled m)
        (uncaught m)
  | EvServerError p message =>
      match processes (world m) !! p with
      | Some _ => emit (on_serverProcess_error message) m
      | None => m
      end
  | EvServerStderr p data =>
      match processes (world m) !! p with
      | Some _ => emit (on_stderr_data data) m
      | None => m
      end
  end.

Definition steps (m : Machine) (evs : list Event) : Machine := foldl step m evs.

End EventLoop.

(** The number of firings of the job [n] in flight. *)
Definition inflight_count (n : string) (m : Machine) : nat :=
  length (filter (fun f => firing_name f = n) (inflight m)).

Definition machine0 (w : World) : Machine := MkMachine w [] [] [].

Definition is_server_error (ev : Event) : bool :=
  match ev with EvServerError _ _ => true | _ => false end.

(** ** Instances for concrete runs

    The development is parametric in node-cron's [validate] and in Node's
    [path] functions.  To evaluate a run they are instantiated:
    [fields_validate] accepts the expressions of five or six
    blank-separated fields (the grammar of a field is not modelled), and
    [posix_resolve cwd], [posix_dirname] follow Node's POSIX [path] for
    an absolute working directory [cwd]. *)

(** [s.split(sep)] for a one-character separator; [cur] is the piece
    being read. *)
Fixpoint split_on (sep : ascii) (s cur : string) : list string :=
  match s with
  | "" => [cur]
  | String c s' =>
      if bool_decide (c = sep) then cur :: split_on sep s' ""
      else split_on sep s' (cur +:+ String c "")
  end.

Definition fields_validate (expression : string) : bool :=
  let n := length (filter (fun f => f ≠ "") (split_on " " expression "")) in
  bool_decide (n = 5%nat ∨ n = 6%nat).

Definition normalize_segments (segments : list string) : list string :=
  foldl (fun acc seg =>
           if bool_decide (seg = "" ∨ seg = ".") then acc
           else if bool_decide (seg = "..") then removelast acc
           else acc ++ [seg])
        [] segments.

Fixpoint join_path (segments : list string) : string :=
  match segments with
  | [] => ""
  | [seg] => seg
  | seg :: rest => seg +:+ "/" +:+ join_path rest
  end.

Definition posix_resolve (cwd p : string) : string :=
  let joined :=
    match strip_prefix "/" p with
    | Some _ => p
    | None => cwd +:+ "/" +:+ p
    end in
  "/" +:+ join_path (normalize_segments (split_on "/" joined "")).

(** The text before the last ["/"]. *)
Fixpoint before_last_slash (s : string) : option string :=
  match s with
  | "" => None
  | String c s' =>
      match before_last_slash s' with
      | Some d => Some (String c d)
      | None => if bool_decide (c = "/"%char) then Some "" else None
      end
  end.

(** [path.dirname] on the normalized absolute paths [path.resolve] returns. *)
Definition posix_dirname (p : string) : string :=
  match before_last_slash p with
  | Some "" => "/"
  | Some d => d
  | None => "."
  end.

Definition sample_config : MCPFilesystemConfig :=
  MkFsConfig "npx" ["-y"; "@modelcontextprotocol/server-filesystem"]
             ["./data"; "./reports"].

(** A fresh scheduler and client, at 2024-01-15T03:00:00.000Z. *)
Definition sample_time : Z := 1705287600000.
Definition sample_world : World := world0 sample_config sample_time None.

Definition nightly : Schedule :=
  MkSchedule "nightly" "0 3 * * *" true "Summarise the reports"
             (Some "outputs/{name}-{timestamp}.txt").
Definition hourly : Schedule :=
  MkSchedule "hourly" "0 * * * *" true "Check the data directory" None.
Definition broken : Schedule :=
  MkSchedule "broken" "not-a-cron" true "Never runs" None.
Definition paused : Schedule :=
  MkSchedule "paused" "*/5 * * * *" false "Skipped" None.

(** The collaborators all succeed: no tools listed, the prompt answered
    with ["done"]. *)
Definition env_ok : Env :=
  fun op =>
    match op return Result (Answer op) with
    | ClientListTools _ => Ok (Some [])
    | ExecutePrompt _ => Ok "done"
    | ClientConnect _ _ | ClientClose _ | TransportClose _ | Mkdir _
    | WriteFile _ _ => Ok tt
    end.

(** As [env_ok], but [writeFile] fails. *)
Definition env_write_fails : Env :=
  fun op =>
    match op return Result (Answer op) with
    | WriteFile _ _ => Throw (MkError ForeignErrorC "EACCES: permission denied")
    | op' => env_ok op'
    end.

(** As [env_ok], but [client.connect] fails. *)
Definition env_connect_fails : Env :=
  fun op =>
    match op return Result (Answer op) with
    | ClientConnect _ _ => Throw (MkError ForeignErrorC "spawn npx ENOENT")
    | op' => env_ok op'
    end.

(** The sample scheduler once [nightly] and [hourly] are started, and
    the same once the client is connected. *)
Definition scheduled_world : World :=
  (start fields_validate [nightly; hourly] sample_world).2.
Definition connected_world : World := (run env_ok connect scheduled_world).2.

(** A job whose name has a dollar pattern and a colon. *)
Definition costly : Schedule :=
  MkSchedule "cost$$:q1" "0 3 * * *" true "Sum the costs"
             (Some "outputs/{name}-{timestamp}.txt").

(** ** Invariants and specifications used below *)

(** A template read the way the specification describes it: text, and
    placeholders [{word}].  The pieces are plain when the text has no
    opening brace and the word has no brace at all, so that the braces
    of the template are those of its placeholders. *)
Inductive Piece : Type :=
| Text (s : string)
| Placeholder (word : string).

Definition piece_string (p : Piece) : string :=
  match p with
  | Text s => s
  | Placeholder word => "{" +:+ word +:+ "}"
  end.

Fixpoint render (pieces : list Piece) : string :=
  match pieces with
  | [] => ""
  | p :: rest => piece_string p +:+ render rest
  end.

Definition plain_piece (p : Piece) : Prop :=
  match p with
  | Text s => no_char "{" s
  | Placeholder word => no_char "{" word /\ no_char "}" word
  end.

(** The first placeholder [{word}] gives way to [value]; every other
    piece stays, later placeholders [{word}] among them. *)
Fixpoint fill_first (word value : string) (pieces : list Piece) : list Piece :=
  match pieces with
  | [] => []
  | Text s :: rest => Text s :: fill_first word value rest
  | Placeholder w :: rest =>
      if bool_decide (w = word) then Text value :: rest
      else Placeholder w :: fill_first word value rest
  end.

(** The expansion in the words of the specification: the name of the
    job for [{name}], the timestamp for [{timestamp}], the date for
    [{date}]; [t1] and [t2] are the two readings of the clock. *)
Definition expansion (pieces : list Piece) (scheduleName : string) (t1 t2 : Z) :
    list Piece :=
  fill_first "date" (date_string t2)
    (fill_first "timestamp" (replace_colon_dot (toISOString t1))
       (fill_first "name" scheduleName pieces)).

(** A path none of whose segments is empty, ["."] or [".."]. *)
Definition plain_segments (p : string) : Prop :=
  Forall (fun seg => seg <> "" /\ seg <> "." /\ seg <> "..") (split_on "/" p "").

(** Distinct registered tasks hold distinct, existing triggers. *)
Definition wf_registry (w : World) : Prop :=
  (forall n t, tasks w !! n = Some t -> task t < length (triggers w))
  /\ (forall n1 n2 t1 t2,
        tasks w !! n1 = Some t1 -> tasks w !! n2 = Some t2 ->
        task t1 = task t2 -> n1 = n2).

(** The trigger [cron.schedule] creates for [s] in the world [w]. *)
Definition trigger_of (w : World) (s : Schedule) : Trigger :=
  MkTrigger s (cron s) (default "UTC" (env_TZ w)) true.

(** The registry once the enabled definitions of [l] have been
    scheduled in turn, the first one with the trigger [h]. *)
Fixpoint registry_after (m : gmap string ScheduledTask) (h : nat)
    (l : list Schedule) : gmap string ScheduledTask :=
  match l with
  | [] => m
  | s :: rest =>
      if enabled s then registry_after (<[name s := MkTask s h]> m) (S h) rest
      else registry_after m h rest
  end.

(** [scheduleTask] accepts [s] in a scheduler whose registered names
    are those of [m]. *)
Definition acceptable (validate : string -> bool) (m : gmap string ScheduledTask)
    (s : Schedule) : bool :=
  negb (has m (name s)) && validate (cron s).

(** The enabled definitions of [l] are accepted one after the other,
    starting from the registry [m] and the trigger [h]. *)
Fixpoint all_accepted (validate : string -> bool) (m : gmap string ScheduledTask)
    (h : nat) (l : list Schedule) : bool :=
  match l with
  | [] => true
  | s :: rest =>
      if enabled s then
        acceptable validate m s
        && all_accepted validate (<[name s := MkTask s h]> m) (S h) rest
      else all_accepted validate m h rest
  end.

(** [d], at position [i] of the batch, is an enabled definition with an
    invalid cadence, a name already registered, or the name of another
    enabled definition of the batch. *)
Definition offender (validate : string -> bool) (w : World)
    (batch : list Schedule) (i : nat) (d : Schedule) : Prop :=
  batch !! i = Some d /\ enabled d = true /\
  (validate (cron d) = false
   \/ isTaskActive (name d) w = true
   \/ exists j e, j <> i /\ batch !! j = Some e /\ enabled e = true /\ name e = name d).

(** A synchronous step that leaves the registry and the triggers alone. *)
Definition keeps {X} (f : World -> X * World) : Prop :=
  forall w, tasks (f w).2 = tasks w /\ triggers (f w).2 = triggers w.

(** A program all of whose synchronous steps leave the registry and the
    triggers alone. *)
Fixpoint Quiet {A} (p : Prog A) : Prop :=
  match p with
  | Ret _ | Raise _ => True
  | Sync f k => keeps f /\ forall x, Quiet (k x)
  | Await op k => forall r, Quiet (k r)
  end.

(** A program that never ends by throwing. *)
Fixpoint NoThrow {A} (p : Prog A) : Prop :=
  match p with
  | Ret _ => True
  | Raise _ => False
  | Sync f k => forall x, NoThrow (k x)
  | Await op k => forall r, NoThrow (k r)
  end.

(** A program that reaches an external call, whatever the world; and
    one that returns or reaches an external call. *)
Fixpoint Awaits {A} (p : Prog A) : Prop :=
  match p with
  | Ret _ | Raise _ => False
  | Sync f k => forall x, Awaits (k x)
  | Await _ _ => True
  end.

Fixpoint ReturnsOrAwaits {A} (p : Prog A) : Prop :=
  match p with
  | Ret _ => True
  | Raise _ => False
  | Sync f k => forall x, ReturnsOrAwaits (k x)
  | Await _ _ => True
  end.

(** The firings in flight are suspended in programs that are quiet and
    never throw. *)
Definition inflight_ok (m : Machine) : Prop :=
  forall i f, inflight m !! i = Some f ->
    forall r, Quiet (firing_k f r) /\ NoThrow (firing_k f r).

(** The readiness check of a firing: the result and the world in which
    the firing goes on after the first lines of [executeSchedule], that
    is, after the clock is read, the start is logged and, when the
    client is not ready, [connect] has been awaited. *)
Definition after_readiness (env : Env) (s : Schedule) (w : World) : Result unit * World :=
  let w0 := logger Info "Executing scheduled task" [("name", LStr (name s))]
              (read_clock w).2 in
  if isReady w0 then (Ok tt, w0)
  else run env connect
         (logger Warn "MCP client not ready, attempting to reconnect" [] w0).

(** The calls [connect] makes, and those [saveOutput] makes. *)
Definition connection_call (c : Call) : Prop :=
  match c with
  | CallConnect
  | CallExt (ClientConnect _ _ | ClientListTools _ | ClientClose _ | TransportClose _) =>
      True
  | _ => False
  end.

Definition file_call (c : Call) : Prop :=
  match c with
  | CallExt (Mkdir _ | WriteFile _ _) => True
  | _ => False
  end.

(** The two entries a firing can end its log with. *)
Definition log_completed (s : Schedule) (duration : Z) : LogEntry :=
  MkLog Info "Scheduled task completed"
    [("name", LStr (name s)); ("duration", LNum duration);
     ("outputSaved", LBool (Boolean_string (outputPath s)))].

Definition log_failed (s : Schedule) (e : JsError) (duration : Z) : LogEntry :=
  MkLog Error "Failed to execute scheduled task"
    [("name", LStr (name s)); ("error", LStr (err_message e));
     ("duration", LNum duration)].

Definition log_save_failed (scheduleName outputPath : string) (e : JsError) : LogEntry :=
  MkLog Error "Failed to save output"
    [("schedule", LStr scheduleName); ("path", LStr outputPath);
     ("error", LStr (err_message e))].

(** ** The rest of [MCPClient] and what [connect] leaves behind *)

(** [getAvailableTools]: the values of [tools] (as a list, in the order
    of [map_to_list]). *)
Definition getAvailableTools (w : World) : list MCPTool :=
  (map_to_list (tools (mcp w))).*2.

(** The entry [discoverTools] stores for a listed tool, and the map of
    tools once a whole listing has been stored. *)
Definition stored_tool (t : ListedTool) : MCPTool :=
  MkTool (lt_name t) (default "" (lt_description t)) (lt_inputSchema t).

Definition discovered (listed : list ListedTool) (m : gmap string MCPTool) :
    gmap string MCPTool :=
  foldl (fun m t => <[lt_name t := stored_tool t]> m) m listed.

(** The close calls [disconnect] makes for the fields of [m]. *)
Definition close_calls (m : MCPClient) : list Call :=
  match client m with Some c => [CallExt (ClientClose c)] | None => [] end
  ++ match transport m with Some t => [CallExt (TransportClose t)] | None => [] end.

(** ** The registry and the triggers of node-cron *)

(** Every registered task is filed under the name of its schedule, which
    is enabled and has a valid cron expression, and holds a running
    trigger made for that schedule; and every running trigger is the one
    held by the task registered under the name of its schedule. *)
Definition registry_consistent (validate : string -> bool) (w : World) : Prop :=
  (forall n t, tasks w !! n = Some t ->
     name (schedule t) = n /\ enabled (schedule t) = true
     /\ validate (cron (schedule t)) = true
     /\ exists tr, triggers w !! task t = Some tr
          /\ tr_schedule tr = schedule t /\ tr_expression tr = cron (schedule t)
          /\ tr_running tr = true)
  /\ (forall h tr, triggers w !! h = Some tr -> tr_running tr = true ->
        tasks w !! name (tr_schedule tr) = Some (MkTask (tr_schedule tr) h)).

(** [t'] is the trigger [t] later on: the same schedule, expression and
    timezone, and running only if [t] was. *)
Definition trigger_continues (t t' : Trigger) : Prop :=
  tr_schedule t' = tr_schedule t /\ tr_expression t' = tr_expression t
  /\ tr_timezone t' = tr_timezone t
  /\ (tr_running t' = true -> tr_running t = true).

(** The host calls [start]. *)
Definition is_start (ev : Event) : bool :=
  match ev with EvStart _ => true | _ => false end.

(** ** [ConfigManager]: the validation of the schedules ([config.ts]) *)

From stdpp Require pretty.

(** What a validation method does: it returns, or it throws a
    [ValidationError] with a message. *)
Inductive Validation : Type :=
| Passes
| ValidationError (message : string).

(** [s.includes(sub)]. *)
Definition includes (sub s : string) : bool :=
  match find_first sub s with Some _ => true | None => false end.

Section Config.

(** [String.prototype.trim], and [path.normalize] and [path.isAbsolute]
    of Node. *)
Variable trim : string -> string.
Variable path_normalize : string -> string.
Variable path_isAbsolute : string -> bool.

(** [!s || s.trim() === '']. *)
Definition blank (s : string) : bool :=
  negb (Boolean_string (Some s)) || bool_decide (trim s = "").

Definition isValidPath (filePath : string) : bool :=
  let normalizedPath := path_normalize filePath in
  negb (includes ".." normalizedPath) && negb (path_isAbsolute normalizedPath).

(** The callback of [schedules.forEach] in [validateSchedules], for the
    definition at [index]; [names] is the set of the names seen so far,
    and the result has the set the callback leaves. *)
Definition validateSchedule (names : gset string) (schedule : Schedule) (index : nat) :
    Validation * gset string :=
  if blank (name schedule) then
    (ValidationError ("Schedule at index " +:+ pretty.pretty index +:+ " must have a name"),
     names)
  else if bool_decide (name schedule ∈ names) then
    (ValidationError ("Duplicate schedule name: " +:+ name schedule), names)
  else
    let names := names ∪ {[name schedule]} in
    if blank (cron schedule) then
      (ValidationError ("Schedule '" +:+ name schedule
                        +:+ "' must have a cron expression"), names)
    else if blank (prompt schedule) then
      (ValidationError ("Schedule '" +:+ name schedule +:+ "' must have a prompt"),
       names)
    else
      match outputPath schedule with
      | Some p =>
          if negb (isValidPath p) then
            (ValidationError ("Invalid output path for schedule '" +:+ name schedule
                              +:+ "': " +:+ p), names)
          else (Passes, names)
      | None => (Passes, names)
      end.

(** [forEach]: the callback is called on each definition in turn, with
    its index; an exception leaves the loop. *)
Fixpoint validateSchedules_from (names : gset string) (index : nat)
    (schedules : list Schedule) : Validation :=
  match schedules with
  | [] => Passes
  | schedule :: rest =>
      match validateSchedule names schedule index with
      | (Passes, names) => validateSchedules_from names (S index) rest
      | (ValidationError message, _) => ValidationError message
      end
  end.

Definition validateSchedules (schedules : list Schedule) : Validation :=
  validateSchedules_from ∅ 0 schedules.

(** What [validateSchedules] asks of one definition, its name apart. *)
Definition well_formed (s : Schedule) : Prop :=
  blank (name s) = false /\ blank (cron s) = false /\ blank (prompt s) = false
  /\ forall p, outputPath s = Some p -> isValidPath p = true.

End Config.

(** For concrete runs: [trim] on strings whose white space is the space
    character, and [path.normalize] and [path.isAbsolute] on relative
    POSIX paths that are already normal. *)
Fixpoint trim_start_spaces (s : string) : string :=
  match s with
  | String c s' => if bool_decide (c = " "%char) then trim_start_spaces s' else s
  | "" => ""
  end.

Fixpoint trim_end_spaces (s : string) : string :=
  match s with
  | String c s' =>
      match trim_end_spaces s' with
      | "" => if bool_decide (c = " "%char) then "" else String c ""
      | r => String c r
      end
  | "" => ""
  end.

Definition trim_spaces (s : string) : string := trim_end_spaces (trim_start_spaces s).

Definition normal_path (p : string) : string := p.

Definition posix_isAbsolute (p : string) : bool := starts_with "/" p.

(** ** [MCPClient.callTool] *)

(** A JSON value the code only passes on. *)
Definition Json : Type := string.

Record MCPToolCall : Type := MkToolCall {
  toolName : string;
  arguments : Json
}.

(** The [text] property of an item of a tool response, when there is
    one: a string, or a value of another type. *)
Inductive ItemText : Type :=
| TextString (s : string)
| TextOther (v : Json).

(** An item of the [content] of a tool response: [{ type: string;
    text?: string; [key: string]: unknown }]. *)
Record ResponseItem : Type := MkItem {
  item_type : string;
  item_text : option ItemText;
  item_rest : Json
}.

(** What [client.callTool] of the SDK is fulfilled with. *)
Record ToolResponse : Type := MkResponse {
  response_content : list ResponseItem;
  response_isError : option bool
}.

(** An entry of [MCPToolResult.content]: [{ type; text?; data? }]. *)
Record ResultItem : Type := MkResultItem {
  result_type : string;
  result_text : option string;
  result_data : option ResponseItem
}.

Record MCPToolResult : Type := MkToolResult {
  toolCallId : string;
  content : list ResultItem;
  isError : option bool
}.

(** The callback of [response.content.map] in [callTool]. *)
Definition result_item (item : ResponseItem) : ResultItem :=
  MkResultItem
    (item_type item)
    (if bool_decide (item_type item = "text") then
       match item_text item with
       | Some (TextString s) => Some s
       | _ => None
       end
     else None)
    (if bool_decide (item_type item <> "text") then Some item else None).

(** A log field whose value may be [undefined]: it is left out, as
    [JSON.stringify] does. *)
Definition log_optional_bool (key : string) (b : option bool) : list (string * LogValue) :=
  match b with Some b => [(key, LBool b)] | None => [] end.

(** [callTool], run to its end; [settled] is what the promise of
    [client.callTool] of the SDK settles with, if the call is made. *)
Definition callTool (toolCall : MCPToolCall) (settled : Result ToolResponse)
    (w : World) : Result MCPToolResult * World :=
  match client (mcp w) with
  | None => (Throw (MCPError "Client not connected"), w)
  | Some _ =>
      match tools (mcp w) !! toolName toolCall with
      | None => (Throw (MCPError ("Tool not found: " +:+ toolName toolCall)), w)
      | Some _ =>
          let w1 := logger Debug "Calling MCP tool"
                      [("toolName", LStr (toolName toolCall));
                       ("arguments", LStr (arguments toolCall))] w in
          match settled with
          | Ok response =>
              let '(now, w2) := read_clock w1 in
              let result :=
                MkToolResult
                  (toolName toolCall +:+ "-" +:+ pretty.pretty now)
                  (map result_item (response_content response))
                  (response_isError response) in
              (Ok result,
               logger Debug "MCP tool call completed"
                 (("toolName", LStr (toolName toolCall))
                  :: log_optional_bool "isError" (response_isError response)) w2)
          | Throw error =>
              (Throw (MCPError ("Tool call failed: " +:+ toolName toolCall)),
               logger Error "MCP tool call failed"
                 [("toolName", LStr (toolName toolCall));
                  ("error", LStr (err_message error))] w1)
          end
      end
  end.

(** ** The shutdown of [main] ([index.ts]) *)

(** The closure [shutdown] that [main] registers for SIGINT and SIGTERM;
    the result is the status [process.exit] is called with. *)
Definition shutdown (signal : string) : Prog Z :=
  modify (logger Info ("Received " +:+ signal +:+ ", shutting down gracefully...") []);;
  modify (stop None);;
  disconnect;;
  modify (logger Info "Shutdown complete" []);;
  Ret 0%Z.

(** ** [ClaudeHandler] ([claude-handler.ts], [types/claude.ts]) *)

(** A number the code only passes on, in its JSON notation. *)
Definition JsNumber : Type := Json.

Inductive Role : Type := User | Assistant.

Record ClaudeMessage : Type := MkMessage {
  role : Role;
  message_content : string
}.

Record ClaudeToolUse : Type := MkToolUse {
  use_id : string;
  use_name : string;
  use_input : Json
}.

Record ClaudeToolResult : Type := MkClaudeToolResult {
  tool_use_id : string;
  result_content : string;
  is_error : option bool
}.

(** An item of [ClaudeResponse.content]: every property but [type] may
    be absent. *)
Record ContentBlock : Type := MkBlock {
  block_type : string;
  block_text : option string;
  block_id : option string;
  block_name : option string;
  block_input : option Json
}.

Record Usage : Type := MkUsage {
  input_tokens : Z;
  output_tokens : Z
}.

Record ClaudeResponse : Type := MkClaudeResponse {
  claude_content : list ContentBlock;
  stop_reason : string;
  usage : Usage
}.

(** [{ ...tool.inputSchema, type: 'object' }]: the schema of a tool,
    with its [type] set to ['object']. *)
Inductive InputSchema : Type :=
| WithObjectType (schema : Json).

(** A tool as [sendRequest] passes it to the API. *)
Record ClaudeTool : Type := MkClaudeTool {
  claude_tool_name : string;
  claude_tool_description : string;
  input_schema : InputSchema
}.

(** A message of a request: a message of the conversation, or the user
    message that carries the [tool_result] blocks. *)
Inductive RequestMessage : Type :=
| TextMessage (m : ClaudeMessage)
| ToolResults (results : list ClaudeToolResult).

(** The argument of [anthropic.messages.create]; [request_tools] is
    [None] when the property is [undefined] or absent. *)
Record ApiRequest : Type := MkRequest {
  request_model : string;
  request_max_tokens : JsNumber;
  request_temperature : JsNumber;
  request_messages : list RequestMessage;
  request_tools : option (list ClaudeTool)
}.

(** What the promise of [anthropic.messages.create] is rejected with:
    an [Anthropic.APIError], or something else. *)
Inductive ApiFailure : Type :=
| AnthropicAPIError (message : string) (status : option Z)
| OtherFailure (e : JsError).

Inductive ApiSettlement (A : Type) : Type :=
| ApiFulfilled (a : A)
| ApiRejected (e : ApiFailure).
Arguments ApiFulfilled {A} a.
Arguments ApiRejected {A} e.

Definition APIError (msg : string) : JsError := MkError APIErrorC msg.

(** The fields of a [ClaudeHandler] (the API client apart). *)
Record ClaudeHandler : Type := MkHandler {
  model : string;
  maxTokens : JsNumber;
  temperature : JsNumber
}.

(** [l.join(sep)]. *)
Fixpoint Array_join (sep : string) (l : list string) : string :=
  match l with
  | [] => ""
  | [s] => s
  | s :: rest => s +:+ sep +:+ Array_join sep rest
  end.

(** ['\n']. *)
Definition newline : string := String "010"%char "".

Section Handler.

(** The collaborators: what [anthropic.messages.create] settles with
    for a request, and what [client.callTool] of the MCP SDK settles
    with for the tool use at a position of the response. *)
Variable create : ApiRequest -> ApiSettlement ClaudeResponse.
Variable sdk_callTool : nat -> MCPToolCall -> Result ToolResponse.

Variable this : ClaudeHandler.

(** The request [sendRequest] makes. *)
Definition first_request (messages : list ClaudeMessage) (tools : list MCPTool) :
    ApiRequest :=
  let claudeTools :=
    map (fun tool =>
           MkClaudeTool (tool_name tool) (tool_description tool)
                        (WithObjectType (tool_inputSchema tool)))
        tools in
  MkRequest (model this) (maxTokens this) (temperature this)
            (map TextMessage messages)
            (if bool_decide (0 < length claudeTools) then Some claudeTools else None).

(** The asynchronous methods of the handler are run to their end; the
    last component of a result lists the requests made to the API. *)
Definition sendRequest (messages : list ClaudeMessage) (tools : list MCPTool)
    (w : World) : ApiSettlement ClaudeResponse * World * list ApiRequest :=
  let request := first_request messages tools in
  match create request with
  | ApiFulfilled response =>
      (ApiFulfilled response,
       logger Debug "Claude API response"
         [("stopReason", LStr (stop_reason response));
          ("usage.input_tokens", LNum (input_tokens (usage response)));
          ("usage.output_tokens", LNum (output_tokens (usage response)))] w,
       [request])
  | ApiRejected e => (ApiRejected e, w, [request])
  end.

(** The first loop of [processResponse]. *)
Fixpoint extract (blocks : list ContentBlock) (textContent : string)
    (toolUses : list ClaudeToolUse) : string * list ClaudeToolUse :=
  match blocks with
  | [] => (textContent, toolUses)
  | content :: rest =>
      match bool_decide (block_type content = "text"), block_text content with
      | true, Some text => extract rest (textContent +:+ text) toolUses
      | _, _ =>
          match bool_decide (block_type content = "tool_use"),
                block_id content, block_name content, block_input content with
          | true, Some id, Some name, Some input =>
              extract rest textContent (toolUses ++ [MkToolUse id name input])
          | _, _, _, _ => extract rest textContent toolUses
          end
      end
  end.

(** [result.content.filter(item => item.text !== undefined).map(item =>
    item.text).join('\n')]. *)
Definition resultText (result : MCPToolResult) : string :=
  Array_join newline (omap result_text (content result)).

(** The loop over the tool uses; [index] is the position of the first
    of [toolUses] among the tool uses of the response. *)
Fixpoint execute_tools (index : nat) (toolUses : list ClaudeToolUse)
    (toolResults : list ClaudeToolResult) (w : World) :
    list ClaudeToolResult * World :=
  match toolUses with
  | [] => (toolResults, w)
  | toolUse :: rest =>
      let w1 := logger Debug "Executing tool"
                  [("toolName", LStr (use_name toolUse));
                   ("toolId", LStr (use_id toolUse))] w in
      let toolCall := MkToolCall (use_name toolUse) (use_input toolUse) in
      match callTool toolCall (sdk_callTool index toolCall) w1 with
      | (Ok result, w2) =>
          execute_tools (S index) rest
            (toolResults
             ++ [MkClaudeToolResult (use_id toolUse) (resultText result) (isError result)])
            w2
      | (Throw error, w2) =>
          let w3 := logger Error "Tool execution failed"
                      [("toolName", LStr (use_name toolUse));
                       ("error", LStr (err_message error))] w2 in
          execute_tools (S index) rest
            (toolResults
             ++ [MkClaudeToolResult (use_id toolUse)
                   ("Error executing tool: " +:+ err_message error) (Some true)])
            w3
      end
  end.

(** The request [processResponse] makes once the tools have run. *)
Definition follow_up_request (messages : list ClaudeMessage)
    (toolResults : list ClaudeToolResult) : ApiRequest :=
  MkRequest (model this) (maxTokens this) (temperature this)
            (map TextMessage messages ++ [ToolResults toolResults])
            None.

(** The last loop of [processResponse]: [finalText += content.text] for
    the items of type ['text']; an absent text is appended as
    ["undefined"]. *)
Fixpoint final_text (blocks : list ContentBlock) (finalText : string) : string :=
  match blocks with
  | [] => finalText
  | content :: rest =>
      if bool_decide (block_type content = "text") then
        final_text rest (finalText +:+ default "undefined" (block_text content))
      else final_text rest finalText
  end.

Definition processResponse (response : ClaudeResponse) (messages : list ClaudeMessage)
    (w : World) : ApiSettlement string * World * list ApiRequest :=
  let '(textContent, toolUses) := extract (claude_content response) "" [] in
  if bool_decide (length toolUses = 0) then (ApiFulfilled textContent, w, [])
  else
    let '(toolResults, w1) := execute_tools 0 toolUses [] w in
    let messages := messages ++ [MkMessage Assistant textContent] in
    let request := follow_up_request messages toolResults in
    match create request with
    | ApiRejected e => (ApiRejected e, w1, [request])
    | ApiFulfilled followUpResponse =>
        let finalText := final_text (claude_content followUpResponse) "" in
        (ApiFulfilled finalText,
         logger Info "Prompt execution completed"
           [("totalTokens",
             LNum (input_tokens (usage response) + output_tokens (usage response)
                   + input_tokens (usage followUpResponse)
                   + output_tokens (usage followUpResponse)));
            ("toolCallsCount", LNum (Z.of_nat (length toolUses)))] w1,
         [request])
    end.

Definition executePrompt (prompt : string) (w : World) :
    Result string * World * list ApiRequest :=
  if negb (isReady w) then (Throw (APIError "MCP client is not connected"), w, [])
  else
    let tools := getAvailableTools w in
    let messages := [MkMessage User prompt] in
    let w1 := logger Info "Executing prompt"
                [("model", LStr (model this));
                 ("promptLength", LNum (Z.of_nat (String.length prompt)));
                 ("toolsCount", LNum (Z.of_nat (length tools)))] w in
    let '(settled, w3, asked) :=
      match sendRequest messages tools w1 with
      | (ApiFulfilled response, w2, asked) =>
          let '(settled, w3, asked') := processResponse response messages w2 in
          (settled, w3, asked ++ asked')
      | (ApiRejected e, w2, asked) => (ApiRejected e, w2, asked)
      end in
    match settled with
    | ApiFulfilled text => (Ok text, w3, asked)
    | ApiRejected (AnthropicAPIError message _) =>
        (Throw (APIError ("Anthropic API error: " +:+ message)), w3, asked)
    | ApiRejected (OtherFailure error) => (Throw error, w3, asked)
    end.

End Handler.

(** The text of a response: the texts of its items of type ['text'],
    one after the other; and its tool uses: the items of type
    ['tool_use'] that have an id, a name and an input. *)
Definition block_texts (blocks : list ContentBlock) : list string :=
  omap (fun b => if bool_decide (block_type b = "text") then block_text b else None)
       blocks.

Definition block_tool_use (b : ContentBlock) : option ClaudeToolUse :=
  if bool_decide (block_type b = "tool_use") then
    match block_id b, block_name b, block_input b with
    | Some id, Some name, Some input => Some (MkToolUse id name input)
    | _, _, _ => None
    end
  else None.

Definition block_tool_uses (blocks : list ContentBlock) : list ClaudeToolUse :=
  omap block_tool_use blocks.

(** The texts of the items of a tool response that [callTool] keeps as
    text: those of type ['text'] whose text is a string. *)
Definition response_texts (response : ToolResponse) : list string :=
  omap (fun item =>
          if bool_decide (item_type item = "text") then
            match item_text item with
            | Some (TextString s) => Some s
            | _ => None
            end
          else None)
       (response_content response).

(** The call [processResponse] makes for a tool use, and the
    [tool_result] it builds for it when the client has the fields [m]
    and the call to the server, if made, settles with [settled]. *)
Definition tool_call (u : ClaudeToolUse) : MCPToolCall :=
  MkToolCall (use_name u) (use_input u).

Definition tool_result_of (m : MCPClient) (settled : Result ToolResponse)
    (u : ClaudeToolUse) : ClaudeToolResult :=
  match client m with
  | None =>
      MkClaudeToolResult (use_id u) "Error executing tool: Client not connected"
                         (Some true)
  | Some _ =>
      match tools m !! use_name u with
      | None =>
          MkClaudeToolResult (use_id u)
            ("Error executing tool: Tool not found: " +:+ use_name u) (Some true)
      | Some _ =>
          match settled with
          | Ok response =>
              MkClaudeToolResult (use_id u)
                (Array_join newline (response_texts response))
                (response_isError response)
          | Throw _ =>
              MkClaudeToolResult (use_id u)
                ("Error executing tool: Tool call failed: " +:+ use_name u) (Some true)
          end
      end
  end.

(** What the last loop of [processResponse] makes of a response. *)
Definition follow_up_text (response : ClaudeResponse) : string :=
  Array_join ""
    (map (fun b => default "undefined" (block_text b))
         (filter (fun b => block_type b = "text") (claude_content response))).

(** What leaves the scheduler, the connection and the file system as
    they are. *)
Definition same_but_log_and_clock (w w' : World) : Prop :=
  tasks w' = tasks w /\ triggers w' = triggers w /\ mcp w' = mcp w
  /\ processes w' = processes w /\ transports w' = transports w
  /\ clients w' = clients w /\ files w' = files w /\ dirs w' = dirs w.

(** A client that is connected has its SDK client. *)
Definition mcp_consistent (w : World) : Prop :=
  isConnected (mcp w) = true -> client (mcp w) <> None.

(** ** Server processes nobody refers to *)

(** Every server process that is alive is the one the client refers
    to, and a client that is not connected refers to none. *)
Definition processes_held (w : World) : Prop :=
  (forall p, processes w !! p = Some true -> serverProcess (mcp w) = Some p)
  /\ (isConnected (mcp w) = false -> serverProcess (mcp w) = None).

(** The process [p] is alive and the client does not refer to it. *)
Definition orphan (p : nat) (w : World) : Prop :=
  processes w !! p = Some true /\ serverProcess (mcp w) <> Some p.

(** [guarded P H prog Q w]: the program [prog], started in [w], keeps
    [P] from one suspension to the next.  [H] stands for "[P] held when
    the present uninterrupted stretch began"; where the program awaits
    an external call, [P] holds if [H] does, and the stretch after the
    call begins in any world [w'] at all, once the call has had its
    effect, with [P w'] for [H].  [Q] is what is asked where the
    program ends. *)
Fixpoint guarded {A} (P : World -> Prop) (H : Prop) (p : Prog A)
    (Q : Prop -> Result A -> World -> Prop) (w : World) : Prop :=
  match p with
  | Ret a => Q H (Ok a) w
  | Raise e => Q H (Throw e) w
  | Sync f k => guarded P H (k (f w).1) Q (f w).2
  | Await op k =>
      (H -> P (issue op w))
      /\ forall r w', guarded P (P w') (k r) Q (effect op r w')
  end.

(** [P] holds where the program ends, if it held when the last stretch
    began. *)
Definition kept {A} (P : World -> Prop) : Prop -> Result A -> World -> Prop :=
  fun H _ w => H -> P w.

(** [stretch p Q R w]: the program [p], started in [w], runs without
    interruption to its end, where [Q] holds of the result, or to its
    first external call, where [R] holds of the call. *)
Fixpoint stretch {A} (p : Prog A) (Q : Result A -> World -> Prop)
    (R : ExtCall -> World -> Prop) (w : World) : Prop :=
  match p with
  | Ret a => Q (Ok a) w
  | Raise e => Q (Throw e) w
  | Sync f k => stretch (k (f w).1) Q R (f w).2
  | Await op k => R op (issue op w)
  end.

(** What the first stretch of [connect] leaves, on a client that is not
    connected: it has spawned a server process and created a transport
    and a client, and awaits [client.connect]. *)
Definition connecting (w : World) (op : ExtCall) (w' : World) : Prop :=
  op = ClientConnect (length (clients w)) (length (transports w))
  /\ processes w' = processes w ++ [true]
  /\ serverProcess (mcp w') = Some (length (processes w))
  /\ isConnected (mcp w') = false
  /\ transports w' = transports w ++ [true]
  /\ clients w' = clients w ++ [true]
  /\ tasks w' = tasks w /\ triggers w' = triggers w.

(** The program keeps [P], wherever it is started. *)
Definition guards {A} (P : World -> Prop) (p : Prog A) : Prop :=
  forall H w, (H -> P w) -> guarded P H p (kept P) w.

(** Every firing in flight keeps [P] once it is resumed. *)
Definition guarded_inflight (P : World -> Prop) (m : Machine) : Prop :=
  forall i f, inflight m !! i = Some f ->
    forall r w', guarded P (P w') (firing_k f r) (kept P) (effect (firing_op f) r w').

(** ** What a firing logs *)

(** An entry that is neither the first nor the last one of a firing. *)
Definition in_between (e : LogEntry) : Prop :=
  log_message e <> "Executing scheduled task"
  /\ log_message e <> "Scheduled task completed"
  /\ log_message e <> "Failed to execute scheduled task".

(** A synchronous step that only appends entries [M] to the log. *)
Definition appends {X} (M : LogEntry -> Prop) (f : World -> X * World) : Prop :=
  forall w, exists added, log (f w).2 = log w ++ added /\ Forall M added.

(** A program all of whose synchronous steps only append entries [M]
    to the log. *)
Fixpoint Logs {A} (M : LogEntry -> Prop) (p : Prog A) : Prop :=
  match p with
  | Ret _ | Raise _ => True
  | Sync f k => appends M f /\ forall x, Logs M (k x)
  | Await op k => forall r, Logs M (k r)
  end.

(** ** More instances for concrete runs *)

(** A server that lists two tools, the second without a description. *)
Definition sample_listing : list ListedTool :=
  [MkListed "read_file" (Some "Read a file") "{ path: string }";
   MkListed "list_directory" None "{ path: string }"].

(** As [env_ok], but the server lists [sample_listing]. *)
Definition env_lists : Env :=
  fun op =>
    match op return Result (Answer op) with
    | ClientListTools _ => Ok (Some sample_listing)
    | op' => env_ok op'
    end.

(** The server answers a tool call with one text item. *)
Definition sample_response : ToolResponse :=
  MkResponse [MkItem "text" (Some (TextString "hello")) "{}"] None.

(** The sample client once it is connected to the server of
    [env_lists], and a handler. *)
Definition listing_world : World := (run env_lists connect sample_world).2.

Definition sample_handler : ClaudeHandler :=
  MkHandler "claude-3-5-sonnet-20241022" "4096" "0.7".

(** An API that answers in plain text. *)
Definition plain_response : ClaudeResponse :=
  MkClaudeResponse
    [MkBlock "text" (Some "All reports ") None None None;
     MkBlock "text" (Some "are in.") None None None]
    "end_turn" (MkUsage 12 5).

Definition create_plain (request : ApiRequest) : ApiSettlement ClaudeResponse :=
  ApiFulfilled plain_response.

(** An API that asks for two tools, the second one unknown to the
    server, and answers in text once it has the results. *)
Definition tool_response : ClaudeResponse :=
  MkClaudeResponse
    [MkBlock "text" (Some "Let me look.") None None None;
     MkBlock "tool_use" None (Some "toolu_1") (Some "read_file")
             (Some "{ path: 'a.txt' }");
     MkBlock "tool_use" None (Some "toolu_2") (Some "write_file")
             (Some "{ path: 'b.txt' }")]
    "tool_use" (MkUsage 20 9).

Definition final_response : ClaudeResponse :=
  MkClaudeResponse [MkBlock "text" (Some "The file says hello.") None None None]
                   "end_turn" (MkUsage 40 7).

Definition create_tools (request : ApiRequest) : ApiSettlement ClaudeResponse :=
  match request_messages request with
  | [_] => ApiFulfilled tool_response
  | _ => ApiFulfilled final_response
  end.

(** A server that answers every tool call with [sample_response]. *)
Definition sdk_hello (index : nat) (toolCall : MCPToolCall) : Result ToolResponse :=
  Ok sample_response.

(** * Properties *)

Example toISOString_sample :
  toISOString 1705287600000 = "2024-01-15T03:00:00.000Z"
  /\ toISOString 0 = "1970-01-01T00:00:00.000Z"
  /\ toISOString 951782399999 = "2000-02-28T23:59:59.999Z"
  /\ toISOString 951868800000 = "2000-03-01T00:00:00.000Z"
  /\ toISOString (-1) = "1969-12-31T23:59:59.999Z"
  /\ toISOString 253402300800000 = "+010000-01-01T00:00:00.000Z"
  /\ toISOString (-62198755200000) = "-000001-01-01T00:00:00.000Z"
  /\ String_replace "a{name}b{name}" "{name}" "x$$y$&z$`w$'v$1" = "ax$y{name}zawb{name}v$1b{name}".
Proof. vm_compute. repeat split. Qed.


(** ** The registry and [start] *)

Lemma has_true {V} (m : gmap string V) k : has m k = true <-> is_Some (m !! k).
Proof.
  unfold has. destruct (m !! k) eqn:E.
  - split; [eauto|done].
  - split; [done|]. intros [x Hx]. done.
Qed.

Lemma has_false {V} (m : gmap string V) k : has m k = false <-> m !! k = None.
Proof. unfold has. by destruct (m !! k) eqn:E. Qed.

Section StartFacts.

Variable validate : string -> bool.

Lemma scheduleTask_accepts s w :
  acceptable validate (tasks w) s = true ->
  exists w', scheduleTask validate s w = (Ok tt, w')
    /\ tasks w' = <[name s := MkTask s (length (triggers w))]> (tasks w)
    /\ triggers w' = triggers w ++ [trigger_of w s]
    /\ env_TZ w' = env_TZ w.
Proof.
  unfold acceptable, scheduleTask. intros [Hn Hv]%andb_true_iff.
  apply negb_true_iff in Hn. rewrite Hn, Hv. simpl. eauto.
Qed.

Lemma scheduleTask_rejects s w :
  acceptable validate (tasks w) s = false ->
  exists e, scheduleTask validate s w = (Throw e, w) /\ err_class e = SchedulerErrorC.
Proof.
  unfold acceptable, scheduleTask. intros H.
  destruct (has (tasks w) (name s)); simpl in *; [eauto|].
  rewrite H. simpl. eauto.
Qed.

Lemma start_loop_spec l : forall w,
  exists pre rest r w',
    start_loop validate l w = (r, w') /\ l = pre ++ rest
    /\ all_accepted validate (tasks w) (length (triggers w)) pre = true
    /\ tasks w' = registry_after (tasks w) (length (triggers w)) pre
    /\ triggers w' = triggers w ++ map (trigger_of w) (filter (fun s => enabled s = true) pre)
    /\ env_TZ w' = env_TZ w
    /\ match r with
       | Ok _ => rest = []
       | Throw e =>
           err_class e = SchedulerErrorC
           /\ exists off post, rest = off :: post /\ enabled off = true
                /\ acceptable validate (tasks w') off = false
       end.
Proof.
  induction l as [|s l IH]; intros w; simpl.
  - exists [], [], (Ok tt), w. simpl. rewrite app_nil_r. done.
  - destruct (enabled s) eqn:Hen.
    + destruct (acceptable validate (tasks w) s) eqn:Hacc.
      * destruct (scheduleTask_accepts s w Hacc) as (w1 & Hs & Ht & Htr & Htz).
        rewrite Hs. destruct (IH w1) as (pre & rest & r & w' & Hl & -> & Ha & Hta & Htra & Htz' & Hr).
        exists (s :: pre), rest, r, w'. simpl. rewrite Hen, Hacc. simpl.
        rewrite Ht, Htr, length_app in Ha. rewrite Ht, Htr, length_app in Hta.
        rewrite Htr in Htra. simpl in *.
        replace (length (triggers w) + 1) with (S (length (triggers w))) in Ha, Hta by lia.
        rewrite filter_cons_True by done. simpl.
        rewrite <- app_assoc in Htra. simpl in Htra.
        split_and!; try done; try congruence.
        rewrite Htra. do 2 f_equal. apply map_ext. intros a.
        unfold trigger_of. by rewrite Htz.
      * destruct (scheduleTask_rejects s w Hacc) as (e & Hs & He).
        rewrite Hs. exists [], (s :: l), (Throw e), w. simpl. rewrite app_nil_r.
        split_and!; try done. by exists s, l.
    + set (w1 := logger Debug _ _ w).
      destruct (IH w1) as (pre & rest & r & w' & Hl & -> & Ha & Hta & Htra & Htz' & Hr).
      exists (s :: pre), rest, r, w'. simpl. rewrite Hen.
      rewrite filter_cons_False by (rewrite Hen; done).
      split_and!; done.
Qed.
(** A batch accepted as a whole has no offender. *)
Lemma all_accepted_clean l : forall m h,
  all_accepted validate m h l = true ->
  forall i d, l !! i = Some d -> enabled d = true ->
    validate (cron d) = true /\ m !! name d = None
    /\ forall j e, j <> i -> l !! j = Some e -> enabled e = true -> name e <> name d.
Proof.
  induction l as [|s l IH]; intros m h Hacc i d Hi Hd; [done|].
  simpl in Hacc. destruct (enabled s) eqn:Hen.
  - apply andb_true_iff in Hacc as [Hs Hrest].
    unfold acceptable in Hs. apply andb_true_iff in Hs as [Hfresh Hval].
    apply negb_true_iff, has_false in Hfresh.
    destruct i as [|i]; simpl in Hi.
    + injection Hi as <-. split_and!; try done.
      intros [|j] e Hj He Hee; [done|]. simpl in He.
      destruct (IH _ _ Hrest j e He Hee) as (_ & Hm & _).
      intros Heq. rewrite Heq, lookup_insert_eq in Hm. done.
    + destruct (IH _ _ Hrest i d Hi Hd) as (Hv & Hm & Hothers).
      assert (name s <> name d) as Hne.
      { intros Heq. rewrite Heq, lookup_insert_eq in Hm. done. }
      rewrite lookup_insert_ne in Hm by done. split_and!; try done.
      intros [|j] e Hj He Hee; simpl in He.
      * injection He as <-. done.
      * apply (Hothers j e); [congruence|done..].
  - destruct i as [|i]; simpl in Hi.
    + injection Hi as <-. congruence.
    + destruct (IH _ _ Hacc i d Hi Hd) as (Hv & Hm & Hothers).
      split_and!; try done.
      intros [|j] e Hj He Hee; simpl in He.
      * injection He as <-. congruence.
      * apply (Hothers j e); [congruence|done..].
Qed.

Lemma registry_after_other l : forall m h n,
  (forall s, s ∈ l -> enabled s = true -> name s <> n) ->
  registry_after m h l !! n = m !! n.
Proof.
  induction l as [|s l IH]; intros m h n Hn; simpl; [done|].
  destruct (enabled s) eqn:Hen.
  - rewrite IH by (intros; apply Hn; [by right|done]).
    rewrite lookup_insert_ne; [done|]. apply Hn; [by left|done].
  - apply IH. intros; apply Hn; [by right|done].
Qed.

Lemma registry_after_registered l : forall m h,
  all_accepted validate m h l = true ->
  forall s, s ∈ l -> enabled s = true ->
    exists k, filter (fun s => enabled s = true) l !! k = Some s
      /\ registry_after m h l !! name s = Some (MkTask s (h + k)).
Proof.
  induction l as [|x l IH]; intros m h Hacc s Hs Hen; [by apply elem_of_nil in Hs|].
  simpl in Hacc. simpl. destruct (enabled x) eqn:Hx.
  - apply andb_true_iff in Hacc as [Hacc Hrest].
    rewrite filter_cons_True by done.
    apply elem_of_cons in Hs as [->|Hs].
    + exists 0. split; [done|]. rewrite Nat.add_0_r.
      rewrite registry_after_other; [by rewrite lookup_insert_eq|].
      intros s' Hs' Hen' Heq.
      apply list_elem_of_lookup in Hs' as [i Hi].
      destruct (all_accepted_clean _ _ _ Hrest i s' Hi Hen') as (_ & Hm & _).
      rewrite Heq, lookup_insert_eq in Hm. done.
    + destruct (IH _ _ Hrest s Hs Hen) as (k & Hk & Hreg).
      exists (S k). split; [done|].
      rewrite Hreg. do 2 f_equal. lia.
  - rewrite filter_cons_False by (rewrite Hx; done).
    apply elem_of_cons in Hs as [->|Hs]; [congruence|].
    by apply IH.
Qed.

Lemma offender_not_accepted w batch i d :
  offender validate w batch i d ->
  all_accepted validate (tasks w) (length (triggers w)) batch = false.
Proof.
  intros (Hi & Hen & Hbad).
  destruct (all_accepted validate (tasks w) (length (triggers w)) batch) eqn:Hacc; [|done].
  destruct (all_accepted_clean _ _ _ Hacc i d Hi Hen) as (Hv & Hm & Hothers).
  destruct Hbad as [Hbad|[Hbad|(j & e & Hj & He & Hee & Hname)]].
  - congruence.
  - unfold isTaskActive in Hbad. apply has_true in Hbad as [x Hx]. congruence.
  - by destruct (Hothers j e Hj He Hee).
Qed.

(** C2 (amended).  When a batch has an offender (an enabled definition
    with an invalid cadence, with a name already registered, or with
    the name of another enabled definition of the batch), [start] throws
    a [SchedulerError] at the first definition [off] that [scheduleTask]
    rejects.  Nothing is rolled back: every enabled definition before
    [off] stays registered with its trigger running; every other name,
    that of [off] and of the definitions after it included, is
    registered exactly as before the call, and the triggers created are
    those of the enabled definitions before [off] and no others. *)
Theorem start_rejects_at_first_offender w batch i d :
  offender validate w batch i d ->
  exists pre off post e w',
    batch = pre ++ off :: post
    /\ enabled off = true
    /\ acceptable validate (tasks w') off = false
    /\ start validate batch w = (Throw e, w')
    /\ err_class e = SchedulerErrorC
    /\ (forall s, s ∈ pre -> enabled s = true ->
          exists h, tasks w' !! name s = Some (MkTask s h)
                    /\ length (triggers w) <= h
                    /\ triggers w' !! h = Some (trigger_of w s))
    /\ (forall n, (forall s, s ∈ pre -> enabled s = true -> name s <> n) ->
          tasks w' !! n = tasks w !! n)
    /\ triggers w'
       = triggers w ++ map (trigger_of w) (filter (fun s => enabled s = true) pre).
Proof.
  intros Hoff. unfold start.
  set (w0 := logger Info "Starting scheduler" _ w).
  destruct (start_loop_spec batch w0)
    as (pre & rest & r & w' & Hl & -> & Ha & Hta & Htra & Htz & Hr).
  rewrite Hl. destruct r as [[]|e].
  - subst rest. rewrite app_nil_r in Hoff.
    apply offender_not_accepted in Hoff. simpl in Ha. congruence.
  - destruct Hr as (He & off & post & -> & Hen & Hacc).
    exists pre, off, post, e, w'. split_and!; try done.
    + intros s Hs Hse.
      destruct (registry_after_registered _ _ _ Ha s Hs Hse) as (k & Hk & Hreg).
      exists (length (triggers w) + k). rewrite Hta. split_and!; [done|lia|].
      rewrite Htra. simpl. rewrite lookup_app_r by lia.
      replace (length (triggers w) + k - length (triggers w)) with k by lia.
      rewrite list_lookup_fmap, Hk. done.
    + intros n Hn. rewrite Hta. by apply registry_after_other.
Qed.

Lemma registry_after_entry l : forall m h n t,
  registry_after m h l !! n = Some t ->
  m !! n = Some t
  \/ exists s, s ∈ l /\ enabled s = true /\ schedule t = s /\ n = name s.
Proof.
  induction l as [|x l IH]; intros m h n t Hn; simpl in Hn; [by left|].
  destruct (enabled x) eqn:Hx.
  - apply IH in Hn as [Hn|(s & Hs & ?)].
    + destruct (decide (name x = n)) as [<-|Hne].
      * rewrite lookup_insert_eq in Hn. injection Hn as <-.
        right. exists x. split_and!; try done. by left.
      * rewrite lookup_insert_ne in Hn by done. by left.
    + right. exists s. split; [by right|done].
  - apply IH in Hn as [Hn|(s & Hs & ?)]; [by left|].
    right. exists s. split; [by right|done].
Qed.

(** What [start] leaves behind, whether it returns or throws. *)
Lemma start_outcome batch w :
  exists pre rest,
    batch = pre ++ rest
    /\ tasks (start validate batch w).2
       = registry_after (tasks w) (length (triggers w)) pre
    /\ triggers (start validate batch w).2
       = triggers w ++ map (trigger_of w) (filter (fun s => enabled s = true) pre).
Proof.
  unfold start. set (w0 := logger Info "Starting scheduler" _ w).
  destruct (start_loop_spec batch w0)
    as (pre & rest & r & w' & Hl & -> & Ha & Hta & Htra & Htz & Hr).
  exists pre, rest. rewrite Hl. destruct r as [[]|e]; simpl; by rewrite ?Hta, ?Htra.
Qed.

(** C8.  A definition [d] of the batch with [enabled = false] is never
    activated by [start], whether [start] returns or throws: no trigger
    created by the call is for [d]; an entry of the registry whose
    schedule is [d] was there before the call; and, when no enabled
    definition of the batch shares its name, [isTaskActive] on its name
    stays [false] and [getActiveTasks] still has no entry of that name. *)
Theorem disabled_never_activated batch w d :
  d ∈ batch -> enabled d = false ->
  (forall t, t ∈ drop (length (triggers w)) (triggers (start validate batch w).2) ->
     tr_schedule t <> d)
  /\ (forall n t, tasks (start validate batch w).2 !! n = Some t ->
        schedule t = d -> tasks w !! n = Some t)
  /\ ((forall e, e ∈ batch -> enabled e = true -> name e <> name d) ->
      isTaskActive (name d) w = false ->
      isTaskActive (name d) (start validate batch w).2 = false)
  /\ ((forall e, e ∈ batch -> enabled e = true -> name e <> name d) ->
      (forall i, i ∈ getActiveTasks w -> info_name i <> name d) ->
      forall i, i ∈ getActiveTasks (start validate batch w).2 -> info_name i <> name d).
Proof.
  intros Hd Hdis.
  destruct (start_outcome batch w) as (pre & rest & -> & Hta & Htra).
  split_and!.
  - intros t Ht Heq. rewrite Htra, drop_app_length in Ht.
    apply list_elem_of_fmap in Ht as (s & -> & Hs).
    apply list_elem_of_filter in Hs as [Hs _]. simpl in Heq. congruence.
  - intros n t Hn Heq. rewrite Hta in Hn.
    apply registry_after_entry in Hn as [Hn|(s & _ & Hs & Hst & _)]; [done|congruence].
  - intros Hnames Hbefore. unfold isTaskActive in *. apply has_false. rewrite Hta.
    rewrite registry_after_other; [by apply has_false|].
    intros s Hs. apply Hnames. apply elem_of_app. by left.
  - intros Hnames Hbefore i Hi. unfold getActiveTasks in Hi.
    apply list_elem_of_fmap in Hi as ([n t] & -> & Hnt). simpl.
    apply elem_of_map_to_list in Hnt. rewrite Hta in Hnt.
    apply registry_after_entry in Hnt as [Hnt|(s & Hs & Hen & -> & _)].
    + apply (Hbefore (MkInfo (name (schedule t)) (cron (schedule t))
                             (getNextRunTime (cron (schedule t))))).
      unfold getActiveTasks. apply list_elem_of_fmap. exists (n, t). split; [done|].
      by apply elem_of_map_to_list.
    + apply Hnames; [|done]. apply elem_of_app. by left.
Qed.
End StartFacts.

(** ** [stop] *)

Lemma wf_registry_ext w w' :
  tasks w' = tasks w -> triggers w' = triggers w -> wf_registry w -> wf_registry w'.
Proof. unfold wf_registry. intros -> ->. done. Qed.

Lemma wf_registry_world0 cfg t tz : wf_registry (world0 cfg t tz).
Proof. split; simpl; intros *; by rewrite lookup_empty. Qed.

Lemma trigger_stop_tasks h w : tasks (trigger_stop h w) = tasks w.
Proof. unfold trigger_stop. by destruct (triggers w !! h). Qed.

Lemma trigger_stop_same h w :
  triggers (trigger_stop h w) !! h = stopped <$> triggers w !! h.
Proof.
  unfold trigger_stop. destruct (triggers w !! h) as [t|] eqn:Ht; simpl.
  - apply list_lookup_insert_eq. by apply lookup_lt_Some in Ht.
  - by rewrite Ht.
Qed.

Lemma trigger_stop_other h h' w :
  h' <> h -> triggers (trigger_stop h w) !! h' = triggers w !! h'.
Proof.
  intros Hne. unfold trigger_stop. destruct (triggers w !! h); simpl; [|done].
  by apply list_lookup_insert_ne.
Qed.

Lemma trigger_stop_length h w :
  length (triggers (trigger_stop h w)) = length (triggers w).
Proof.
  unfold trigger_stop. destruct (triggers w !! h); simpl; [|done].
  apply length_insert.
Qed.

Lemma stopped_idem t : stopped (stopped t) = stopped t.
Proof. done. Qed.

Lemma stop_all_loop_tasks entries : forall w, tasks (stop_all_loop entries w) = tasks w.
Proof.
  induction entries as [|e entries IH]; intros w; simpl; [done|].
  rewrite IH. simpl. apply trigger_stop_tasks.
Qed.

Lemma stop_all_loop_cons e entries w :
  stop_all_loop (e :: entries) w
  = stop_all_loop entries
      (logger Debug "Stopping task" [("name", LStr e.1)] (trigger_stop (task e.2) w)).
Proof. done. Qed.

Lemma stop_all_loop_lookup entries : forall w h,
  triggers (stop_all_loop entries w) !! h
  = if bool_decide (h ∈ map (fun e : string * ScheduledTask => task e.2) entries)
    then stopped <$> triggers w !! h
    else triggers w !! h.
Proof.
  induction entries as [|e entries IH]; intros w h.
  - rewrite bool_decide_eq_false_2; [done|]. apply not_elem_of_nil.
  - rewrite stop_all_loop_cons, IH.
    change (triggers (logger Debug "Stopping task" [("name", LStr e.1)]
                        (trigger_stop (task e.2) w)))
      with (triggers (trigger_stop (task e.2) w)).
    change (map (fun e : string * ScheduledTask => task e.2) (e :: entries))
      with (task e.2 :: map (fun e : string * ScheduledTask => task e.2) entries).
    destruct (decide (h = task e.2)) as [->|Hne].
    + rewrite trigger_stop_same.
      rewrite (bool_decide_eq_true_2 (_ ∈ _ :: _)) by (by left).
      case_bool_decide; [|done]. by destruct (triggers w !! task e.2).
    + rewrite trigger_stop_other by done.
      do 2 case_bool_decide; try done.
      * exfalso. apply H0. by right.
      * apply elem_of_cons in H0 as [?|?]; done.
Qed.

(** [stop] in a scheduler whose registered tasks hold distinct
    triggers. *)
Lemma stop_semantics_wf w :
  wf_registry w ->
  (forall n t, tasks w !! n = Some t ->
     tasks (stop (Some n) w) = delete n (tasks w)
     /\ isTaskActive n (stop (Some n) w) = false
     /\ (exists tr tr',
           triggers w !! task t = Some tr
           /\ triggers (stop (Some n) w) !! task t = Some tr'
           /\ tr_running tr' = false
           /\ tr_schedule tr' = tr_schedule tr
           /\ tr_expression tr' = tr_expression tr
           /\ tr_timezone tr' = tr_timezone tr)
     /\ (forall h, h <> task t -> triggers (stop (Some n) w) !! h = triggers w !! h)
     /\ (forall n' t', n' <> n -> tasks w !! n' = Some t' ->
           tasks (stop (Some n) w) !! n' = Some t'
           /\ triggers (stop (Some n) w) !! task t' = triggers w !! task t'))
  /\ (forall n, tasks w !! n = None ->
        stop (Some n) w = logger Warn "Task not found" [("name", LStr n)] w)
  /\ (tasks (stop None w) = ∅
      /\ getActiveTasks (stop None w) = []
      /\ (forall n t, tasks w !! n = Some t ->
            exists tr tr',
              triggers w !! task t = Some tr
              /\ triggers (stop None w) !! task t = Some tr'
              /\ tr_running tr' = false
              /\ tr_schedule tr' = tr_schedule tr
              /\ tr_expression tr' = tr_expression tr
              /\ tr_timezone tr' = tr_timezone tr)
      /\ (forall h, (forall n t, tasks w !! n = Some t -> task t <> h) ->
            triggers (stop None w) !! h = triggers w !! h)).
Proof.
  intros [Hvalid Hinj]. split_and!.
  - intros n t Hn. unfold stop. rewrite Hn. simpl.
    rewrite trigger_stop_tasks. split_and!.
    + done.
    + unfold isTaskActive. apply has_false. simpl. apply lookup_delete_eq.
    + destruct (lookup_lt_is_Some_2 _ _ (Hvalid n t Hn)) as [tr Htr].
      exists tr, (stopped tr). split_and!; try done.
      etransitivity; [apply trigger_stop_same|]. by rewrite Htr.
    + intros h Hh. by apply trigger_stop_other.
    + intros n' t' Hne Hn'. split.
      * by rewrite lookup_delete_ne.
      * apply trigger_stop_other. intros Heq. apply Hne. by apply (Hinj n' n t' t).
  - intros n Hn. unfold stop. by rewrite Hn.
  - reflexivity.
  - unfold stop, getActiveTasks.
    change (tasks (logger Info "All tasks stopped" []
                (set_tasks ∅ (stop_all_loop (map_to_list (tasks w)) w))))
        with (∅ : gmap string ScheduledTask).
    by rewrite map_to_list_empty.
  - intros n t Hn. unfold stop.
    change (triggers (logger Info "All tasks stopped" []
                (set_tasks ∅ (stop_all_loop (map_to_list (tasks w)) w))))
        with (triggers (stop_all_loop (map_to_list (tasks w)) w)).
    destruct (lookup_lt_is_Some_2 _ _ (Hvalid n t Hn)) as [tr Htr].
    exists tr, (stopped tr). split_and!; try done.
    rewrite stop_all_loop_lookup, Htr.
    rewrite bool_decide_eq_true_2; [done|].
    apply list_elem_of_fmap. exists (n, t). split; [done|].
    by apply elem_of_map_to_list.
  - intros h Hh. unfold stop.
    change (triggers (logger Info "All tasks stopped" []
                (set_tasks ∅ (stop_all_loop (map_to_list (tasks w)) w))))
        with (triggers (stop_all_loop (map_to_list (tasks w)) w)).
    rewrite stop_all_loop_lookup.
    rewrite bool_decide_eq_false_2; [done|].
    intros ([n t] & Heq & Hin%elem_of_map_to_list)%list_elem_of_fmap.
    by apply (Hh n t).
Qed.

(** ** The registry invariant is kept *)

Lemma wf_registry_scheduleTask validate s w :
  wf_registry w -> wf_registry (scheduleTask validate s w).2.
Proof.
  intros Hwf. unfold scheduleTask.
  destruct (has (tasks w) (name s)) eqn:Hhas; [done|].
  destruct (validate (cron s)); simpl; [|done].
  destruct Hwf as [Hvalid Hinj]. apply has_false in Hhas.
  split; simpl.
  - intros n t Hn. rewrite length_app. simpl.
    destruct (decide (name s = n)) as [<-|Hne].
    + rewrite lookup_insert_eq in Hn. injection Hn as <-. simpl. lia.
    + rewrite lookup_insert_ne in Hn by done. apply Hvalid in Hn. lia.
  - intros n1 n2 t1 t2 H1 H2 Heq.
    destruct (decide (name s = n1)) as [<-|Hne1];
      destruct (decide (name s = n2)) as [<-|Hne2]; try done.
    + rewrite lookup_insert_eq in H1. rewrite lookup_insert_ne in H2 by done.
      injection H1 as <-. simpl in Heq. apply Hvalid in H2. lia.
    + rewrite lookup_insert_eq in H2. rewrite lookup_insert_ne in H1 by done.
      injection H2 as <-. simpl in Heq. apply Hvalid in H1. lia.
    + rewrite lookup_insert_ne in H1, H2 by done. by apply (Hinj n1 n2 t1 t2).
Qed.

Lemma wf_registry_start_loop validate l : forall w,
  wf_registry w -> wf_registry (start_loop validate l w).2.
Proof.
  induction l as [|s l IH]; intros w Hwf; simpl; [done|].
  destruct (enabled s).
  - pose proof (wf_registry_scheduleTask validate s w Hwf) as Hs.
    destruct (scheduleTask validate s w) as [[[]|e] w1]; simpl in *; [by apply IH|done].
  - apply IH. by apply (wf_registry_ext w).
Qed.

Lemma wf_registry_start validate l w :
  wf_registry w -> wf_registry (start validate l w).2.
Proof.
  intros Hwf. unfold start.
  set (w0 := logger Info "Starting scheduler" _ w).
  assert (wf_registry w0) as Hw0 by by apply (wf_registry_ext w).
  pose proof (wf_registry_start_loop validate l w0 Hw0) as Hl.
  destruct (start_loop validate l w0) as [[[]|e] w1]; simpl in *; [|done].
  by apply (wf_registry_ext w1).
Qed.

Lemma wf_registry_stop n w : wf_registry w -> wf_registry (stop n w).
Proof.
  intros [Hvalid Hinj]. destruct n as [n|]; unfold stop.
  - destruct (tasks w !! n) as [t|] eqn:Hn.
    + split; simpl; rewrite trigger_stop_tasks.
      * intros n' t' Hn'. rewrite trigger_stop_length.
        apply lookup_delete_Some in Hn' as [_ Hn']. by apply (Hvalid n').
      * intros n1 n2 t1 t2 [_ H1]%lookup_delete_Some [_ H2]%lookup_delete_Some.
        by apply Hinj.
    + by apply (wf_registry_ext w).
  - split; simpl; intros *; by rewrite lookup_empty.
Qed.
(** ** Programs: how [run] and [advance] compose *)

Lemma run_bind {A B} env (p : Prog A) (f : A -> Prog B) : forall w,
  run env (p ≫= f) w
  = match run env p w with
    | (Ok a, w1) => run env (f a) w1
    | (Throw e, w1) => (Throw e, w1)
    end.
Proof.
  induction p as [a|e|X g k IH|op k IH]; intros w; simpl; try done.
  destruct (g w) as [x w1]. apply IH.
Qed.

Lemma run_try_catch {A} env (p : Prog A) (h : JsError -> Prog A) : forall w,
  run env (try_catch p h) w
  = match run env p w with
    | (Ok a, w1) => (Ok a, w1)
    | (Throw e, w1) => run env (h e) w1
    end.
Proof.
  induction p as [a|e|X g k IH|op k IH]; intros w; simpl; try done.
  destruct (g w) as [x w1]. apply IH.
Qed.

Lemma Quiet_bind {A B} (p : Prog A) (f : A -> Prog B) :
  Quiet p -> (forall a, Quiet (f a)) -> Quiet (p ≫= f).
Proof.
  intros Hp Hf. induction p as [a|e|X g k IH|op k IH]; simpl in *; try done.
  - split; [apply Hp|]. intros x. apply IH, Hp.
  - intros r. apply IH, Hp.
Qed.

Lemma Quiet_try_catch {A} (p : Prog A) h :
  Quiet p -> (forall e, Quiet (h e)) -> Quiet (try_catch p h).
Proof.
  intros Hp Hh. induction p as [a|e|X g k IH|op k IH]; simpl in *; try done.
  - split; [apply Hp|]. intros x. apply IH, Hp.
  - intros r. apply IH, Hp.
Qed.

Lemma NoThrow_bind {A B} (p : Prog A) (f : A -> Prog B) :
  NoThrow p -> (forall a, NoThrow (f a)) -> NoThrow (p ≫= f).
Proof.
  intros Hp Hf. induction p as [a|e|X g k IH|op k IH]; simpl in *; try done.
  - intros x. apply IH, Hp.
  - intros r. apply IH, Hp.
Qed.

Lemma NoThrow_try_catch {A} (p : Prog A) h :
  (forall e, NoThrow (h e)) -> NoThrow (try_catch p h).
Proof.
  intros Hh. induction p as [a|e|X g k IH|op k IH]; simpl in *; try done.
Qed.

Lemma Quiet_Ret {A} (a : A) : Quiet (Ret a).
Proof. done. Qed.

Lemma Quiet_Raise {A} e : Quiet (@Raise A e).
Proof. done. Qed.

Lemma Quiet_Sync {A X} (f : World -> X * World) (k : X -> Prog A) :
  keeps f -> (forall x, Quiet (k x)) -> Quiet (Sync f k).
Proof. done. Qed.

Lemma Quiet_Await {A} op (k : _ -> Prog A) :
  (forall r, Quiet (k r)) -> Quiet (Await op k).
Proof. done. Qed.

Lemma Quiet_get {X} (f : World -> X) : Quiet (get f).
Proof. done. Qed.

Lemma Quiet_modify f :
  (forall w, tasks (f w) = tasks w /\ triggers (f w) = triggers w) ->
  Quiet (modify f).
Proof. intros Hf. split; [exact Hf|done]. Qed.

Lemma Quiet_await op : Quiet (await op).
Proof. intros [v|e]; done. Qed.

Lemma Quiet_Date_now : Quiet Date_now.
Proof.
  split; [|done]. intros w. unfold read_clock, clock_moves. simpl. by destruct (drift w).
Qed.

Lemma NoThrow_modify f : NoThrow (modify f).
Proof. done. Qed.

Lemma NoThrow_Date_now : NoThrow Date_now.
Proof. done. Qed.

Create HintDb quiet.

Ltac quiet_step :=
  lazymatch goal with
  | |- Quiet (mbind _ _) => apply Quiet_bind
  | |- Quiet (try_catch _ _) => apply Quiet_try_catch
  | |- Quiet (get _) => apply Quiet_get
  | |- Quiet (modify _) => apply Quiet_modify; intros ?; split; reflexivity
  | |- Quiet (await ?op) => exact (Quiet_await op)
  | |- Quiet Date_now => apply Quiet_Date_now
  | |- Quiet (Ret _) => exact I
  | |- Quiet (Raise _) => exact I
  | |- Quiet (Sync _ _) => apply Quiet_Sync; [intros ?; split; reflexivity|]
  | |- Quiet (Await _ _) => apply Quiet_Await
  | |- Quiet (match ?x with _ => _ end) => destruct x
  | |- forall _, _ => intros ?
  | |- _ => solve [auto with quiet nocore]
  end.

Ltac quiet := repeat quiet_step.

Lemma Quiet_disconnect : Quiet disconnect.
Proof.
  unfold disconnect. quiet.
Qed.

#[local] Hint Resolve Quiet_disconnect : quiet.

Lemma Quiet_discoverTools_loop listed : Quiet (discoverTools_loop listed).
Proof. induction listed; cbn [discoverTools_loop]; quiet. Qed.
#[local] Hint Resolve Quiet_discoverTools_loop : quiet.

Lemma Quiet_discoverTools : Quiet discoverTools.
Proof. unfold discoverTools. quiet. Qed.
#[local] Hint Resolve Quiet_discoverTools : quiet.

Lemma Quiet_connect : Quiet connect.
Proof. unfold connect. quiet. Qed.
#[local] Hint Resolve Quiet_connect : quiet.

Section ExecuteFacts.

Variable path_resolve : string -> string.
Variable path_dirname : string -> string.

Lemma Quiet_saveOutput n p c : Quiet (saveOutput path_resolve path_dirname n p c).
Proof. unfold saveOutput. quiet. Qed.
#[local] Hint Resolve Quiet_saveOutput : quiet.

Lemma Quiet_executeSchedule s : Quiet (executeSchedule path_resolve path_dirname s).
Proof.
  unfold executeSchedule. quiet.
Qed.

Lemma NoThrow_executeSchedule s : NoThrow (executeSchedule path_resolve path_dirname s).
Proof.
  unfold executeSchedule.
  apply NoThrow_bind; [apply NoThrow_Date_now|]. intros startTime.
  apply NoThrow_bind; [apply NoThrow_modify|]. intros _.
  apply NoThrow_try_catch. intros e.
  apply NoThrow_bind; [apply NoThrow_Date_now|]. intros now.
  apply NoThrow_modify.
Qed.

End ExecuteFacts.

(** ** The event loop *)

Lemma effect_keeps op r w :
  tasks (effect op r w) = tasks w /\ triggers (effect op r w) = triggers w.
Proof. destruct r; [destruct op|]; done. Qed.

Lemma run_quiet {A} env (p : Prog A) :
  Quiet p -> forall w,
  tasks (run env p w).2 = tasks w /\ triggers (run env p w).2 = triggers w.
Proof.
  induction p as [a|e|X f k IH|op k IH]; intros Hp w; simpl in *; try done.
  - destruct Hp as [Hf Hk]. destruct (Hf w) as [Ht Htr].
    destruct (f w) as [x w1]. simpl in *.
    destruct (IH x (Hk x) w1) as [-> ->]. done.
  - destruct (IH (env op) (Hp _) (effect op (env op) (issue op w))) as [-> ->].
    destruct (effect_keeps op (env op) (issue op w)) as [-> ->]. done.
Qed.

Lemma run_nothrow {A} env (p : Prog A) :
  NoThrow p -> forall w, exists a, (run env p w).1 = Ok a.
Proof.
  induction p as [a|e|X f k IH|op k IH]; intros Hp w; simpl in *; eauto; try done.
  destruct (f w) as [x w1]. by apply IH.
Qed.

Lemma advance_ok (p : Prog unit) :
  Quiet p -> NoThrow p -> forall w,
  tasks (advance p w).2 = tasks w /\ triggers (advance p w).2 = triggers w
  /\ match (advance p w).1 with
     | Finished => True
     | Failed _ => False
     | Waiting op k => forall r, Quiet (k r) /\ NoThrow (k r)
     end.
Proof.
  induction p as [a|e|X f k IH|op k IH]; intros Hq Hn w; simpl in *; try done.
  - destruct Hq as [Hf Hk]. destruct (Hf w) as [Ht Htr].
    destruct (f w) as [x w1]. simpl in *.
    destruct (IH x (Hk x) (Hn x) w1) as (-> & -> & Hst). done.
Qed.

Lemma filter_name_insert (n : string) (l : list Firing) i f f' :
  l !! i = Some f -> firing_name f' = firing_name f ->
  length (filter (fun g => firing_name g = n) (<[i := f']> l))
  = length (filter (fun g => firing_name g = n) l).
Proof.
  intros Hi Hname.
  rewrite insert_take_drop by (by apply lookup_lt_Some in Hi).
  rewrite <- (take_drop_middle l i f Hi) at 3.
  rewrite !filter_app, !length_app, !filter_cons, Hname.
  by destruct (decide (firing_name f = n)).
Qed.

Lemma filter_name_delete (n : string) (l : list Firing) i f :
  l !! i = Some f ->
  length (filter (fun g => firing_name g = n) l)
  = length (filter (fun g => firing_name g = n) (delete i l))
    + (if bool_decide (firing_name f = n) then 1 else 0).
Proof.
  intros Hi. rewrite delete_take_drop.
  rewrite <- (take_drop_middle l i f Hi) at 1.
  rewrite !filter_app, !length_app, !filter_cons.
  case_bool_decide; destruct (decide (firing_name f = n)); simpl; try done; lia.
Qed.

Lemma Awaits_bind {A B} (p : Prog A) (f : A -> Prog B) :
  ReturnsOrAwaits p -> (forall a, Awaits (f a)) -> Awaits (p ≫= f).
Proof.
  intros Hp Hf. induction p as [a|e|X g k IH|op k IH]; simpl in *; try done.
  intros x. apply IH, Hp.
Qed.

Lemma ReturnsOrAwaits_bind {A B} (p : Prog A) (f : A -> Prog B) :
  ReturnsOrAwaits p -> (forall a, ReturnsOrAwaits (f a)) -> ReturnsOrAwaits (p ≫= f).
Proof.
  intros Hp Hf. induction p as [a|e|X g k IH|op k IH]; simpl in *; try done.
  intros x. apply IH, Hp.
Qed.

Lemma Awaits_try_catch {A} (p : Prog A) h : Awaits p -> Awaits (try_catch p h).
Proof.
  intros Hp. induction p as [a|e|X g k IH|op k IH]; simpl in *; try done.
  intros x. apply IH, Hp.
Qed.

Lemma Awaits_advance (p : Prog unit) :
  Awaits p -> forall w, exists op k w', advance p w = (Waiting op k, w').
Proof.
  induction p as [a|e|X g k IH|op k IH]; intros Hp w; simpl in *; try done.
  - destruct (g w) as [x w1]. by apply IH.
  - eauto.
Qed.

Lemma ReturnsOrAwaits_connect : ReturnsOrAwaits connect.
Proof.
  unfold connect.
  apply ReturnsOrAwaits_bind; [done|]. intros _.
  apply ReturnsOrAwaits_bind; [done|]. intros [|]; [done|].
  simpl. done.
Qed.

Section LoopFacts.

Variable validate : string -> bool.
Variable path_resolve : string -> string.
Variable path_dirname : string -> string.

(** A firing always reaches an external call: that of the prompt
    executor or, when the client is to be connected first, that of the
    SDK client. *)
Lemma Awaits_executeSchedule s : Awaits (executeSchedule path_resolve path_dirname s).
Proof.
  unfold executeSchedule.
  apply Awaits_bind; [done|]. intros startTime.
  apply Awaits_bind; [done|]. intros _.
  apply Awaits_try_catch.
  apply Awaits_bind; [done|]. intros ready.
  apply Awaits_bind; [|done].
  destruct ready; simpl negb; cbv iota; [done|].
  apply ReturnsOrAwaits_bind; [done|]. intros _. apply ReturnsOrAwaits_connect.
Qed.

Lemma fire_spec s m :
  exists op k w',
    fire path_resolve path_dirname s m
    = MkMachine w' (inflight m ++ [MkFiring (name s) op k]) (unhandled m) (uncaught m)
    /\ tasks w' = tasks (world m) /\ triggers w' = triggers (world m)
    /\ forall r, Quiet (k r) /\ NoThrow (k r).
Proof.
  unfold fire.
  destruct (Awaits_advance _ (Awaits_executeSchedule s) (world m)) as (op & k & w' & Hadv).
  pose proof (advance_ok _ (Quiet_executeSchedule path_resolve path_dirname s)
                (NoThrow_executeSchedule path_resolve path_dirname s) (world m)) as Hok.
  rewrite Hadv in *. simpl in Hok. destruct Hok as (Ht & Htr & Hk).
  exists op, k, w'. done.
Qed.

Lemma resume_spec i f r m :
  inflight m !! i = Some f ->
  (forall r, Quiet (firing_k f r) /\ NoThrow (firing_k f r)) ->
  unhandled (resume i f r m) = unhandled m
  /\ tasks (world (resume i f r m)) = tasks (world m)
  /\ triggers (world (resume i f r m)) = triggers (world m)
  /\ (inflight (resume i f r m) = delete i (inflight m)
      \/ exists op k,
           inflight (resume i f r m)
           = <[i := MkFiring (firing_name f) op k]> (inflight m)
           /\ forall r, Quiet (k r) /\ NoThrow (k r)).
Proof.
  intros Hi Hf. unfold resume.
  destruct (Hf r) as [Hq Hn].
  pose proof (advance_ok _ Hq Hn (effect (firing_op f) r (world m))) as Hok.
  destruct (effect_keeps (firing_op f) r (world m)) as [Ht Htr].
  destruct (advance (firing_k f r) (effect (firing_op f) r (world m)))
    as [[|e|op k] w'] eqn:Hadv; simpl in *;
    destruct Hok as (Ht' & Htr' & Hk); try done.
  - split_and!; try congruence. by left.
  - split_and!; try congruence. right. by exists op, k.
Qed.

Lemma emit_spec listener m :
  inflight (emit listener m) = inflight m
  /\ unhandled (emit listener m) = unhandled m
  /\ world (emit listener m) = (listener (world m)).2
  /\ uncaught (emit listener m)
     = uncaught m ++ match (listener (world m)).1 with Ok _ => [] | Throw e => [e] end.
Proof.
  unfold emit. destruct (listener (world m)) as [[[]|e] w]; cbn; [|done].
  by rewrite app_nil_r.
Qed.

Lemma step_keeps m ev :
  inflight_ok m ->
  inflight_ok (step validate path_resolve path_dirname m ev)
  /\ unhandled (step validate path_resolve path_dirname m ev) = unhandled m
  /\ match ev with
     | EvTick _ | EvSettle _ _ | EvServerError _ _ | EvServerStderr _ _ =>
         tasks (world (step validate path_resolve path_dirname m ev)) = tasks (world m)
         /\ triggers (world (step validate path_resolve path_dirname m ev))
            = triggers (world m)
     | _ => True
     end.
Proof.
  intros Hok. destruct ev as [h|i o|batch|n|d|p message|p data]; simpl; try done.
  - destruct (triggers (world m) !! h) as [t|]; [|done].
    destruct (tr_running t); [|done].
    destruct (fire_spec (tr_schedule t) m) as (op & k & w' & -> & Ht & Htr & Hk).
    split_and!; try done.
    intros j f Hj. simpl in Hj.
    apply lookup_app_Some in Hj as [Hj|[_ Hj]]; [by apply (Hok j)|].
    apply list_lookup_singleton_Some in Hj as [_ <-]. exact Hk.
  - destruct (inflight m !! i) as [f|] eqn:Hi; [|done].
    destruct (receive (firing_op f) o) as [r|]; [|done].
    destruct (resume_spec i f r m Hi (Hok i f Hi)) as (Hu & Ht & Htr & Hin).
    split_and!; try done.
    intros j g Hj. destruct Hin as [Hin|(op & k & Hin & Hk)]; rewrite Hin in Hj.
    + destruct (decide (j < i)).
      * rewrite list_lookup_delete_lt in Hj by done. by apply (Hok j).
      * rewrite list_lookup_delete_ge in Hj by lia. by apply (Hok (S j)).
    + destruct (decide (i = j)) as [->|Hne].
      * rewrite list_lookup_insert_eq in Hj by (by apply lookup_lt_Some in Hi).
        injection Hj as <-. exact Hk.
      * rewrite list_lookup_insert_ne in Hj by done. by apply (Hok j).
  - destruct (processes (world m) !! p); done.
  - destruct (processes (world m) !! p); done.
Qed.

Lemma steps_keep evs : forall m,
  inflight_ok m ->
  inflight_ok (steps validate path_resolve path_dirname m evs)
  /\ unhandled (steps validate path_resolve path_dirname m evs) = unhandled m.
Proof.
  induction evs as [|ev evs IH]; intros m Hok; [done|].
  destruct (step_keeps m ev Hok) as (Hok' & Hu & _).
  destruct (IH _ Hok') as [Hok'' Hu'']. unfold steps in *. simpl.
  split; [done|congruence].
Qed.

(** Only the ['error'] event of a server process leaves an exception
    uncaught. *)
Lemma step_uncaught m ev :
  is_server_error ev = false ->
  uncaught (step validate path_resolve path_dirname m ev) = uncaught m.
Proof.
  intros Hev. destruct ev as [h|i o|batch|n|d|p message|p data]; try done; cbn [step].
  - destruct (triggers (world m) !! h) as [t|]; [|done].
    destruct (tr_running t); [|done]. unfold fire.
    by destruct (advance _ _) as [[|e|op k] w'].
  - destruct (inflight m !! i) as [f|]; [|done].
    destruct (receive (firing_op f) o) as [r|]; [|done]. unfold resume.
    by destruct (advance _ _) as [[|e|op k] w'].
  - destruct (processes (world m) !! p); [|done].
    destruct (emit_spec (on_stderr_data data) m) as (_ & _ & _ & ->).
    apply app_nil_r.
Qed.

Lemma steps_uncaught evs : forall m,
  Forall (fun ev => is_server_error ev = false) evs ->
  uncaught (steps validate path_resolve path_dirname m evs) = uncaught m.
Proof.
  induction evs as [|ev evs IH]; intros m Hevs; [done|].
  apply Forall_cons in Hevs as [Hev Hevs].
  unfold steps in *. cbn [foldl]. rewrite IH by done. by apply step_uncaught.
Qed.

(** What a firing contains.  Whatever the collaborators answer,
    [executeSchedule] returns normally and leaves the registry and the
    triggers as they were: every rejection and exception of the
    reconnection, of the prompt executor and of saving the output is
    caught in the routine.  In the event loop, started with nothing in
    flight and run through any events, no rejection is ever left
    unhandled, and neither the firing of a trigger nor the settlement
    of an awaited call changes the registry or a trigger or leaves an
    exception uncaught: the job stays active and every trigger that was
    running still is.  The one error that escapes is that of the
    ['error'] listener [connect] puts on the server process: when a
    process [connect] has spawned emits ['error'], the listener logs it
    and throws the [MCPError] "Failed to start MCP server", which
    nothing catches.  As long as no server process emits ['error'], no
    exception is uncaught. *)
Theorem failures_are_contained :
  (forall env s w,
     exists w', run env (executeSchedule path_resolve path_dirname s) w = (Ok tt, w')
       /\ tasks w' = tasks w /\ triggers w' = triggers w)
  /\ (forall w evs,
        let m := steps validate path_resolve path_dirname (machine0 w) evs in
        unhandled m = []
        /\ (Forall (fun ev => is_server_error ev = false) evs -> uncaught m = [])
        /\ forall ev,
             let m' := step validate path_resolve path_dirname m ev in
             match ev with
             | EvTick _ | EvSettle _ _ =>
                 unhandled m' = []
                 /\ uncaught m' = uncaught m
                 /\ triggers (world m') = triggers (world m)
                 /\ tasks (world m') = tasks (world m)
                 /\ forall n, isTaskActive n (world m') = isTaskActive n (world m)
             | EvServerError p message =>
                 p < length (processes (world m)) ->
                 uncaught m' = uncaught m ++ [MCPError "Failed to start MCP server"]
                 /\ log (world m')
                    = log (world m)
                      ++ [MkLog Error "MCP server process error" [("error", LStr message)]]
                 /\ inflight m' = inflight m
                 /\ triggers (world m') = triggers (world m)
                 /\ tasks (world m') = tasks (world m)
             | _ => True
             end).
Proof.
  split.
  - intros env s w.
    destruct (run_nothrow env _ (NoThrow_executeSchedule path_resolve path_dirname s) w)
      as [[] Hr].
    destruct (run_quiet env _ (Quiet_executeSchedule path_resolve path_dirname s) w)
      as [Ht Htr].
    destruct (run env (executeSchedule path_resolve path_dirname s) w) as [r w'].
    simpl in *. subst r. by exists w'.
  - intros w evs. cbv zeta.
    assert (inflight_ok (machine0 w)) as H0 by (intros i f Hi; done).
    destruct (steps_keep evs _ H0) as [Hok Hu]. split; [done|].
    split; [intros Hevs; by rewrite steps_uncaught|].
    intros ev. destruct (step_keeps _ ev Hok) as (_ & Hu' & Hev).
    pose proof (step_uncaught
                  (steps validate path_resolve path_dirname (machine0 w) evs) ev) as Hun.
    destruct ev as [h|i o|batch|n|d|p message|p data]; try done.
    + destruct Hev as [Ht Htr].
      split_and!; [by rewrite Hu', Hu|by apply Hun|done|done|].
      intros n; unfold isTaskActive; by rewrite Ht.
    + destruct Hev as [Ht Htr].
      split_and!; [by rewrite Hu', Hu|by apply Hun|done|done|].
      intros n; unfold isTaskActive; by rewrite Ht.
    + intros Hp. destruct Hev as [Ht Htr]. split_and!; try done; cbn [step];
        apply lookup_lt_is_Some_2 in Hp as [alive ->]; done.
Qed.

(** C1 (amended).  The scheduler has no guard per job name.  When a
    running trigger fires, the routine of its job starts at once,
    whatever is in flight: the count of executions of that job in
    flight grows by one, and no other count changes.  A settlement
    lowers the count of the job it belongs to by one when the execution
    ends with it and changes no count otherwise; a trigger that is
    stopped or unknown, the calls [start] and [stop] and the events of
    a server process change no count.  So the count of a job stays at most 1 only while its trigger
    does not fire during an execution of that job. *)
Theorem firings_are_not_serialized m :
  (forall h t n,
     triggers (world m) !! h = Some t -> tr_running t = true ->
     inflight_count n (step validate path_resolve path_dirname m (EvTick h))
     = inflight_count n m
       + (if bool_decide (name (tr_schedule t) = n) then 1 else 0))
  /\ (forall h,
        (forall t, triggers (world m) !! h = Some t -> tr_running t = false) ->
        step validate path_resolve path_dirname m (EvTick h) = m)
  /\ (forall i o n,
        inflight_count n (step validate path_resolve path_dirname m (EvSettle i o))
        = inflight_count n m
        \/ exists f, inflight m !! i = Some f /\ firing_name f = n
             /\ inflight_count n m
                = S (inflight_count n (step validate path_resolve path_dirname m (EvSettle i o))))
  /\ (forall ev n,
        match ev with
        | EvStart _ | EvStop _ | EvClock _ | EvServerError _ _ | EvServerStderr _ _ =>
            inflight_count n (step validate path_resolve path_dirname m ev)
            = inflight_count n m
        | _ => True
        end).
Proof.
  split_and!.
  - intros h t n Ht Hrun. simpl. rewrite Ht, Hrun.
    destruct (fire_spec (tr_schedule t) m) as (op & k & w' & -> & _).
    unfold inflight_count. simpl.
    rewrite filter_app, length_app, filter_cons, filter_nil. simpl.
    case_bool_decide; destruct (decide (name (tr_schedule t) = n)); done.
  - intros h Hh. simpl. destruct (triggers (world m) !! h) as [t|]; [|done].
    by rewrite (Hh t).
  - intros i o n. simpl.
    destruct (inflight m !! i) as [f|] eqn:Hi; [|by left].
    destruct (receive (firing_op f) o) as [r|]; [|by left].
    unfold resume, inflight_count.
    destruct (advance (firing_k f r) (effect (firing_op f) r (world m)))
      as [[|e|op k] w']; simpl.
    + pose proof (filter_name_delete n _ i f Hi) as Hd.
      case_bool_decide; [right; exists f; split_and!; try done; lia|left; lia].
    + pose proof (filter_name_delete n _ i f Hi) as Hd.
      case_bool_decide; [right; exists f; split_and!; try done; lia|left; lia].
    + left. by apply (filter_name_insert n _ i f).
  - intros [h|i o|batch|n'|d|p message|p data] n; try done; cbn [step];
      (destruct (processes (world m) !! p); [|done]); unfold inflight_count.
    + by rewrite (proj1 (emit_spec (on_serverProcess_error message) m)).
    + by rewrite (proj1 (emit_spec (on_stderr_data data) m)).
Qed.

End LoopFacts.

(** ** One method in isolation: rewriting [run] *)

Lemma run_modify env f w : run env (modify f) w = (Ok tt, f w).
Proof. done. Qed.

Lemma run_get {X} env (f : World -> X) w : run env (get f) w = (Ok (f w), w).
Proof. done. Qed.

Lemma run_spawn env w :
  run env (Sync spawn Ret) w
  = (Ok (length (processes w)), set_processes (processes w ++ [true]) w).
Proof. done. Qed.

Lemma run_new_transport env w :
  run env (Sync new_transport Ret) w
  = (Ok (length (transports w)), set_transports (transports w ++ [true]) w).
Proof. done. Qed.

Lemma run_new_client env w :
  run env (Sync new_client Ret) w
  = (Ok (length (clients w)), set_clients (clients w ++ [true]) w).
Proof. done. Qed.

Lemma run_Date_now env w : run env Date_now w = (Ok (clock w), clock_moves w).
Proof. done. Qed.

Lemma run_await env op w :
  run env (await op) w = (env op, effect op (env op) (issue op w)).
Proof. simpl. by destruct (env op). Qed.

Lemma run_await_tools env c w :
  @run (option (list ListedTool)) env (await (ClientListTools c)) w
  = (env (ClientListTools c), issue (ClientListTools c) w).
Proof. simpl. by destruct (env (ClientListTools c)). Qed.

Lemma run_await_prompt env p w :
  @run string env (await (ExecutePrompt p)) w
  = (env (ExecutePrompt p), issue (ExecutePrompt p) w).
Proof. simpl. by destruct (env (ExecutePrompt p)). Qed.

Lemma run_await_connect env c t w :
  @run unit env (await (ClientConnect c t)) w
  = (env (ClientConnect c t), effect (ClientConnect c t) (env (ClientConnect c t)) (issue (ClientConnect c t) w)).
Proof. simpl. by destruct (env (ClientConnect c t)). Qed.

Lemma run_await_close env c w :
  @run unit env (await (ClientClose c)) w
  = (env (ClientClose c), effect (ClientClose c) (env (ClientClose c)) (issue (ClientClose c) w)).
Proof. simpl. by destruct (env (ClientClose c)). Qed.

Lemma run_await_transport_close env t w :
  @run unit env (await (TransportClose t)) w
  = (env (TransportClose t), effect (TransportClose t) (env (TransportClose t)) (issue (TransportClose t) w)).
Proof. simpl. by destruct (env (TransportClose t)). Qed.

Lemma run_await_mkdir env d w :
  @run unit env (await (Mkdir d)) w
  = (env (Mkdir d), effect (Mkdir d) (env (Mkdir d)) (issue (Mkdir d) w)).
Proof. simpl. by destruct (env (Mkdir d)). Qed.

Lemma run_await_write env p c w :
  @run unit env (await (WriteFile p c)) w
  = (env (WriteFile p c), effect (WriteFile p c) (env (WriteFile p c)) (issue (WriteFile p c) w)).
Proof. simpl. by destruct (env (WriteFile p c)). Qed.

Lemma run_Ret {A} env (a : A) w : run env (Ret a) w = (Ok a, w).
Proof. done. Qed.

Lemma run_Raise {A} env e w : run env (@Raise A e) w = (Throw e, w).
Proof. done. Qed.

Ltac run_step :=
  first
    [ rewrite run_bind | rewrite run_try_catch | rewrite run_modify
    | rewrite run_get | rewrite run_spawn | rewrite run_new_transport
    | rewrite run_new_client | rewrite run_Date_now
    | rewrite run_await_tools | rewrite run_await_prompt
    | rewrite run_await_connect | rewrite run_await_close
    | rewrite run_await_transport_close | rewrite run_await_mkdir
    | rewrite run_await_write | rewrite run_await
    | rewrite run_Ret | rewrite run_Raise ];
  cbv beta iota.

Ltac run_steps := repeat run_step.

(** Projections of an updated world. *)
Ltac world_simpl :=
  cbn [tasks triggers mcp processes transports clients files dirs log calls
       clock drift env_TZ set_tasks set_triggers set_mcp set_processes
       set_transports set_clients set_files set_dirs set_log set_calls
       set_clock set_drift logger issue effect kill
       config client transport serverProcess tools isConnected
       set_client set_transport set_serverProcess set_tools set_isConnected
       fst snd].

Ltac run_world := repeat (progress (run_steps; world_simpl)).

Lemma run_disconnect env w :
  exists w', run env disconnect w = (Ok tt, w')
    /\ isConnected (mcp w') = false /\ client (mcp w') = None
    /\ transport (mcp w') = None /\ serverProcess (mcp w') = None
    /\ tools (mcp w') = ∅
    /\ exists made, calls w' = calls w ++ made /\ Forall connection_call made.
Proof.
  assert (forall op, connection_call (CallExt op) -> exists made,
            calls w ++ [CallExt op] = calls w ++ made /\ Forall connection_call made) as H1.
  { intros op Hop. exists [CallExt op]. split; [done|]. by constructor. }
  assert (forall op op', connection_call (CallExt op) -> connection_call (CallExt op') ->
            exists made, (calls w ++ [CallExt op]) ++ [CallExt op']
                         = calls w ++ made /\ Forall connection_call made) as H2.
  { intros op op' Hop Hop'. exists [CallExt op; CallExt op'].
    rewrite <- app_assoc. split; [done|]. by repeat constructor. }
  assert (exists made, calls w = calls w ++ made /\ Forall connection_call made) as H0.
  { exists []. by rewrite app_nil_r. }
  unfold disconnect. run_world.
  destruct (client (mcp w)) as [c|]; run_world;
    [destruct (env (ClientClose c)) as [[]|e]; run_world|];
    (destruct (transport (mcp w)) as [t|]; run_world;
     [destruct (env (TransportClose t)) as [[]|e']; run_world|]);
    (destruct (serverProcess (mcp w)) as [p|] eqn:Hp; run_world);
    (eexists; split; [reflexivity|]); world_simpl; split_and!; try done;
    first [apply H2; done | apply H1; done | apply H0].
Qed.

Lemma run_discoverTools_loop env listed : forall w,
  exists w', run env (discoverTools_loop listed) w = (Ok tt, w')
    /\ isConnected (mcp w') = isConnected (mcp w)
    /\ client (mcp w') = client (mcp w)
    /\ calls w' = calls w.
Proof.
  induction listed as [|t listed IH]; intros w; cbn [discoverTools_loop].
  - rewrite run_Ret. eauto.
  - run_world.
    match goal with |- context [run env (discoverTools_loop listed) ?w1] =>
      destruct (IH w1) as (w' & -> & Hc & Hcl & Hcalls) end.
    exists w'. split; [done|]. by rewrite Hc, Hcl, Hcalls.
Qed.

Lemma run_connect env w :
  exists r w' made,
    run env connect w = (r, w')
    /\ calls w' = calls w ++ CallConnect :: made
    /\ Forall connection_call made
    /\ (r = Ok tt -> isConnected (mcp w') = true).
Proof.
  unfold connect, discoverTools. run_world.
  destruct (isConnected (mcp w)) eqn:Hc; run_world.
  - eexists _, _, []. split_and!; try done.
  - destruct (env (ClientConnect _ _)) as [[]|e]; run_world.
    + destruct (env (ClientListTools _)) as [[listed|]|e]; run_world.
      * match goal with |- context [run env (discoverTools_loop listed) ?w1] =>
          destruct (run_discoverTools_loop env listed w1)
            as (w' & -> & Hc' & Hcl & Hcalls) end.
        run_world. eexists _, _, _. split; [reflexivity|]. world_simpl.
        rewrite Hcalls, Hc'. world_simpl. rewrite <- !app_assoc.
        split_and!; try done. by repeat constructor.
      * eexists _, _, _. split; [reflexivity|]. world_simpl.
        rewrite <- !app_assoc. split_and!; try done. by repeat constructor.
      * match goal with |- context [run env disconnect ?w1] =>
          destruct (run_disconnect env w1)
            as (w' & -> & _ & _ & _ & _ & _ & made & Hm & Hf) end.
        run_world.
        eexists _, _, _. split; [reflexivity|]. rewrite Hm. world_simpl.
        rewrite <- !app_assoc. split_and!; try done.
        by repeat constructor.
    + match goal with |- context [run env disconnect ?w1] =>
        destruct (run_disconnect env w1)
          as (w' & -> & _ & _ & _ & _ & _ & made & Hm & Hf) end.
      run_world.
      eexists _, _, _. split; [reflexivity|]. rewrite Hm. world_simpl.
      rewrite <- !app_assoc. split_and!; try done.
      by repeat constructor.
Qed.

(** C9.  After a [connect] that returned, the client is connected, and a
    second [connect] returns without any connection work: it spawns no
    process, creates no transport and no client, makes no external
    call, and leaves the fields of the client (the discovered tools
    among them) and [isReady()] as they were; it only logs that the
    client is already connected. *)
Theorem connect_idempotent env env' w w1 :
  run env connect w = (Ok tt, w1) ->
  isConnected (mcp w1) = true
  /\ exists w2,
       run env' connect w1 = (Ok tt, w2)
       /\ mcp w2 = mcp w1
       /\ isReady w2 = isReady w1
       /\ processes w2 = processes w1
       /\ transports w2 = transports w1
       /\ clients w2 = clients w1
       /\ calls w2 = calls w1 ++ [CallConnect]
       /\ log w2 = log w1 ++ [MkLog Debug "MCP client already connected" []].
Proof.
  intros Hrun.
  destruct (run_connect env w) as (r & w' & made & Hr & _ & _ & Hc).
  rewrite Hrun in Hr. injection Hr as <- <-. specialize (Hc eq_refl).
  split; [done|].
  unfold connect. run_world. rewrite Hc. run_world.
  eexists. split; [reflexivity|]. done.
Qed.

Section RunFacts.

Variable path_resolve : string -> string.
Variable path_dirname : string -> string.

Lemma run_saveOutput env n p c w :
  let w1 := clock_moves w in
  let w2 := clock_moves w1 in
  let fullPath := path_resolve (filename p n (clock w) (clock w1)) in
  let dir := path_dirname fullPath in
  let failed e w' :=
    (Throw (SchedulerError ("Failed to save output: " +:+ err_message e)),
     set_log (log w' ++ [log_save_failed n p e]) w') in
  run env (saveOutput path_resolve path_dirname n p c) w
  = match env (Mkdir dir) with
    | Throw e => failed e (issue (Mkdir dir) w2)
    | Ok _ =>
        let w3 := set_dirs (dirs w2 ++ [dir]) (issue (Mkdir dir) w2) in
        match env (WriteFile fullPath c) with
        | Throw e => failed e (issue (WriteFile fullPath c) w3)
        | Ok _ =>
            (Ok tt,
             logger Debug "Output saved"
               [("schedule", LStr n); ("path", LStr fullPath);
                ("size", LNum (Z.of_nat (String.length c)))]
               (set_files (files w3 ++ [(fullPath, c)])
                  (issue (WriteFile fullPath c) w3)))
        end
    end.
Proof.
  cbv zeta. unfold saveOutput. run_steps.
  destruct (env (Mkdir _)) as [[]|e]; run_steps; [|done].
  destruct (env (WriteFile _ _)) as [[]|e]; run_steps; done.
Qed.

Lemma run_executeSchedule env s w :
  let failed e w1 :=
    (Ok tt, set_log (log w1 ++ [log_failed s e (clock w1 - clock w)]) (clock_moves w1)) in
  let completed w1 :=
    (Ok tt, set_log (log w1 ++ [log_completed s (clock w1 - clock w)]) (clock_moves w1)) in
  run env (executeSchedule path_resolve path_dirname s) w
  = match after_readiness env s w with
    | (Throw e, w1) => failed e w1
    | (Ok _, w1) =>
        let w2 := issue (ExecutePrompt (prompt s)) w1 in
        match env (ExecutePrompt (prompt s)) with
        | Throw e => failed e w2
        | Ok result =>
            match outputPath s with
            | None => completed w2
            | Some p =>
                match run env (saveOutput path_resolve path_dirname (name s) p result) w2 with
                | (Ok _, w3) => completed w3
                | (Throw e, w3) => failed e w3
                end
            end
        end
    end.
Proof.
  cbv zeta. unfold executeSchedule, after_readiness, log_completed, log_failed.
  run_steps. cbn [read_clock snd].
  destruct (isReady _) eqn:Hr; cbn [negb]; run_steps.
  - destruct (env (ExecutePrompt (prompt s))) as [result|e]; run_steps.
    + destruct (outputPath s) as [p|]; run_steps.
      * destruct (run env (saveOutput _ _ _ _ _) _) as [[[]|e] w3]; run_steps.
        -- unfold logger, clock_moves. world_simpl. by destruct (drift w3).
        -- unfold logger, clock_moves. world_simpl. by destruct (drift w3).
      * unfold logger, clock_moves. world_simpl. by destruct (drift _).
    + unfold logger, clock_moves. world_simpl. by destruct (drift _).
  - destruct (run env connect _) as [[[]|e] w1]; run_steps.
    + destruct (env (ExecutePrompt (prompt s))) as [result|e]; run_steps.
      * destruct (outputPath s) as [p|]; run_steps.
        -- destruct (run env (saveOutput _ _ _ _ _) _) as [[[]|e] w3]; run_steps.
           ++ unfold logger, clock_moves. world_simpl. by destruct (drift w3).
           ++ unfold logger, clock_moves. world_simpl. by destruct (drift w3).
        -- unfold logger, clock_moves. world_simpl. by destruct (drift _).
      * unfold logger, clock_moves. world_simpl. by destruct (drift _).
    + unfold logger, clock_moves. world_simpl. by destruct (drift w1).
Qed.

End RunFacts.
Section FiringFacts.

Variable path_resolve : string -> string.
Variable path_dirname : string -> string.

Lemma clock_moves_keeps w :
  calls (clock_moves w) = calls w /\ log (clock_moves w) = log w
  /\ mcp (clock_moves w) = mcp w /\ files (clock_moves w) = files w.
Proof. unfold clock_moves. by destruct (drift w). Qed.

(** The calls of [saveOutput] are calls to the file system. *)
Lemma saveOutput_calls env n p c w :
  exists made,
    calls (run env (saveOutput path_resolve path_dirname n p c) w).2 = calls w ++ made
    /\ Forall file_call made.
Proof.
  rewrite run_saveOutput. cbv zeta.
  destruct (clock_moves_keeps w) as (Hc1 & _).
  destruct (clock_moves_keeps (clock_moves w)) as (Hc2 & _).
  destruct (env (Mkdir _)) as [[]|e]; [destruct (env (WriteFile _ _)) as [[]|e]|];
    world_simpl; rewrite Hc2, Hc1.
  - eexists [_; _]. rewrite <- app_assoc. split; [done|]. by repeat constructor.
  - eexists [_; _]. rewrite <- app_assoc. split; [done|]. by repeat constructor.
  - eexists [_]. split; [done|]. by repeat constructor.
Qed.

(** What a firing does once the readiness check is behind it. *)
Lemma executeSchedule_after_readiness env s w :
  match after_readiness env s w with
  | (Throw e, w1) =>
      calls (run env (executeSchedule path_resolve path_dirname s) w).2 = calls w1
      /\ log (run env (executeSchedule path_resolve path_dirname s) w).2
         = log w1 ++ [log_failed s e (clock w1 - clock w)]
  | (Ok _, w1) =>
      exists rest,
        calls (run env (executeSchedule path_resolve path_dirname s) w).2
        = calls w1 ++ CallExt (ExecutePrompt (prompt s)) :: rest
        /\ Forall file_call rest
  end.
Proof.
  rewrite run_executeSchedule. cbv zeta.
  destruct (after_readiness env s w) as [[[]|e] w1].
  - destruct (env (ExecutePrompt (prompt s))) as [result|e].
    + destruct (outputPath s) as [p|].
      * destruct (saveOutput_calls env (name s) p result
                    (issue (ExecutePrompt (prompt s)) w1)) as (made & Hm & Hf).
        destruct (run env (saveOutput _ _ _ _ _) _) as [[[]|e] w3];
          world_simpl; destruct (clock_moves_keeps w3) as (-> & _);
          simpl in Hm; rewrite Hm, <- app_assoc; by exists made.
      * world_simpl. destruct (clock_moves_keeps (issue (ExecutePrompt (prompt s)) w1)) as (-> & _).
        by exists [].
    + world_simpl. destruct (clock_moves_keeps (issue (ExecutePrompt (prompt s)) w1)) as (-> & _).
      by exists [].
  - world_simpl. destruct (clock_moves_keeps w1) as (-> & _). done.
Qed.

(** C4.  A firing that finds the client ready does not enter [connect]:
    its first call is the prompt executor's, and the calls after it go
    to the file system.  A firing that finds the client not ready enters
    [connect] first.  When that [connect] returns, the prompt executor
    is called after every call [connect] made; when it throws, the
    firing ends there, logged as failed: the prompt executor is not
    called, and nothing is retried. *)
Theorem reconnect_before_execute env s w :
  let w' := (run env (executeSchedule path_resolve path_dirname s) w).2 in
  let asked := drop (length (calls w)) (calls w') in
  if isReady w then
    (CallConnect ∉ asked)
    /\ exists rest,
         asked = CallExt (ExecutePrompt (prompt s)) :: rest /\ Forall file_call rest
  else
    let wc :=
      logger Warn "MCP client not ready, attempting to reconnect" []
        (logger Info "Executing scheduled task" [("name", LStr (name s))]
           (clock_moves w)) in
    exists made,
      calls (run env connect wc).2 = calls w ++ CallConnect :: made
      /\ Forall connection_call made
      /\ match (run env connect wc).1 with
         | Ok _ =>
             exists rest,
               asked = CallConnect
                       :: (made ++ CallExt (ExecutePrompt (prompt s)) :: rest)
               /\ Forall file_call rest
         | Throw e =>
             asked = CallConnect :: made
             /\ (forall p, CallExt (ExecutePrompt p) ∉ asked)
             /\ exists d, log w' = log (run env connect wc).2 ++ [log_failed s e d]
         end.
Proof.
  cbv zeta. pose proof (executeSchedule_after_readiness env s w) as H.
  unfold after_readiness in H.
  assert (isReady (logger Info "Executing scheduled task" [("name", LStr (name s))]
                     (read_clock w).2) = isReady w) as Hready.
  { unfold isReady. cbn [read_clock snd logger set_log mcp].
    by destruct (clock_moves_keeps w) as (_ & _ & -> & _). }
  rewrite Hready in H. cbn [read_clock snd] in H.
  destruct (isReady w).
  - destruct H as (rest & Hcalls & Hrest). rewrite Hcalls. world_simpl.
    destruct (clock_moves_keeps w) as (-> & _).
    rewrite drop_app_length. split; [|by exists rest].
    intros [?|Hin]%elem_of_cons; [done|].
    rewrite Forall_forall in Hrest. by apply Hrest in Hin.
  - match type of H with context [run env connect ?wc] =>
      destruct (run_connect env wc) as (r & w1 & made & Hr & Hcalls & Hmade & _) end.
    rewrite Hr in *. world_simpl. cbn [calls logger set_log] in Hcalls.
    destruct (clock_moves_keeps w) as (Hcw & _). rewrite Hcw in Hcalls.
    exists made. split_and!; try done.
    destruct r as [[]|e].
    + destruct H as (rest & H & Hrest). exists rest. split; [|done].
      rewrite H, Hcalls, <- app_assoc, drop_app_length. done.
    + destruct H as [H Hlog]. rewrite H, Hcalls, drop_app_length.
      split_and!; [done| |by eexists].
      intros p [?|Hin]%elem_of_cons; [done|].
      rewrite Forall_forall in Hmade. by apply Hmade in Hin.
Qed.

(** C5 (amended).  When the prompt execution of a firing succeeds and
    the job defines an output path, a failure of [mkdir] or of
    [writeFile] is logged as "Failed to save output" and thrown again
    as a [SchedulerError], which the routine catches: the firing is
    then logged as "Failed to execute scheduled task", with the message
    of that error and the duration.  Those two entries are all the
    firing logs after the readiness check: the success entry "Scheduled
    task completed" is not logged.  No file is recorded as written, and
    the routine returns normally. *)
Theorem save_failure_fails_the_firing env s p result e w w1 :
  outputPath s = Some p ->
  after_readiness env s w = (Ok tt, w1) ->
  env (ExecutePrompt (prompt s)) = Ok result ->
  (forall d, env (Mkdir d) = Throw e)
  \/ ((forall d, env (Mkdir d) = Ok tt) /\ forall f c, env (WriteFile f c) = Throw e) ->
  exists w' d,
    run env (executeSchedule path_resolve path_dirname s) w = (Ok tt, w')
    /\ log w'
       = log w1
         ++ [log_save_failed (name s) p e;
             log_failed s (SchedulerError ("Failed to save output: " +:+ err_message e)) d]
    /\ files w' = files w1.
Proof.
  intros Hp Hready Hexec Hfail.
  rewrite run_executeSchedule. cbv zeta. rewrite Hready, Hexec, Hp.
  rewrite run_saveOutput. cbv zeta.
  set (w2 := issue (ExecutePrompt (prompt s)) w1).
  assert (forall x, log (clock_moves x) = log x) as Hlog
    by (intros x; by destruct (clock_moves_keeps x) as (_ & -> & _)).
  assert (forall x, files (clock_moves x) = files x) as Hfiles
    by (intros x; by destruct (clock_moves_keeps x) as (_ & _ & _ & ->)).
  destruct Hfail as [Hmk|[Hmk Hwr]].
  - rewrite Hmk. eexists _, _. split; [reflexivity|].
    world_simpl. rewrite ?Hfiles, ?Hlog. world_simpl.
    rewrite ?Hfiles, ?Hlog. subst w2. world_simpl.
    rewrite <- ?app_assoc. done.
  - rewrite Hmk, Hwr. eexists _, _. split; [reflexivity|].
    world_simpl. rewrite ?Hfiles, ?Hlog. world_simpl.
    rewrite ?Hfiles, ?Hlog. subst w2. world_simpl.
    rewrite <- ?app_assoc. done.
Qed.

End FiringFacts.
(** ** Strings: the first occurrence and what is left of the others *)

Lemma app_String c s t : String c s +:+ t = String c (s +:+ t).
Proof. done. Qed.

Lemma app_empty_l s : "" +:+ s = s.
Proof. done. Qed.

Lemma app_empty_r s : s +:+ "" = s.
Proof. induction s as [|c s IH]; [done|]. by rewrite app_String, IH. Qed.

Lemma app_assoc_s a b c : (a +:+ b) +:+ c = a +:+ (b +:+ c).
Proof. induction a as [|x a IH]; [done|]. by rewrite !app_String, IH. Qed.

Lemma strip_prefix_Some pat : forall s r,
  strip_prefix pat s = Some r -> s = pat +:+ r.
Proof.
  induction pat as [|a pat IH]; intros s r H; simpl in H.
  - by injection H as ->.
  - destruct s as [|b s]; [done|]. case_bool_decide; [|done]. subst.
    rewrite app_String. f_equal. by apply IH.
Qed.

Lemma strip_prefix_app pat a : strip_prefix pat (pat +:+ a) = Some a.
Proof.
  induction pat as [|c pat IH]; [done|].
  rewrite app_String. simpl. by rewrite bool_decide_eq_true_2.
Qed.

Lemma find_first_Some pat : forall s b a,
  find_first pat s = Some (b, a) -> s = b +:+ pat +:+ a.
Proof.
  intros s. induction s as [|c s IH]; intros b a H; simpl in H.
  - destruct (strip_prefix pat "") as [r|] eqn:Hs; [|done].
    injection H as <- <-. by apply strip_prefix_Some in Hs.
  - destruct (strip_prefix pat (String c s)) as [r|] eqn:Hs.
    + injection H as <- <-. by apply strip_prefix_Some in Hs.
    + destruct (find_first pat s) as [[b' a']|] eqn:Hf; [|done].
      injection H as <- <-. rewrite app_String. f_equal. by apply IH.
Qed.

(** Before the occurrence that [find_first] finds there is no other. *)
Lemma find_first_earliest pat : forall s b a,
  find_first pat s = Some (b, a) ->
  forall b1 c b2, b = b1 +:+ String c b2 ->
    starts_with pat (String c b2 +:+ pat +:+ a) = false.
Proof.
  intros s. induction s as [|x s IH]; intros b a H b1 c b2 Hb; simpl in H.
  - destruct (strip_prefix pat "") as [r|] eqn:Hs; [|done].
    injection H as <- <-. by destruct b1.
  - destruct (strip_prefix pat (String x s)) as [r|] eqn:Hs.
    + injection H as <- <-. by destruct b1.
    + destruct (find_first pat s) as [[b' a']|] eqn:Hf; [|done].
      injection H as <- <-.
      pose proof (find_first_Some _ _ _ _ Hf) as Hsplit.
      destruct b1 as [|y b1].
      * rewrite app_empty_l in Hb. injection Hb as <- <-.
        unfold starts_with. rewrite app_String, <- Hsplit, Hs. done.
      * rewrite app_String in Hb. injection Hb as <- ->.
        by apply (IH _ _ eq_refl b1).
Qed.

Lemma starts_with_app pat : forall a b,
  starts_with pat a = true -> starts_with pat (a +:+ b) = true.
Proof.
  unfold starts_with. induction pat as [|c pat IH]; intros a b H; [done|].
  destruct a as [|x a]; [done|]. rewrite app_String. simpl in *.
  case_bool_decide; [|done]. by apply IH.
Qed.

Lemma occurrences_app_ge pat a b :
  pat <> "" -> occurrences pat a + occurrences pat b <= occurrences pat (a +:+ b).
Proof.
  intros Hpat. induction a as [|x a IH].
  - rewrite app_empty_l. simpl. destruct pat; [done|]. simpl. lia.
  - rewrite app_String. simpl.
    destruct (starts_with pat (String x a)) eqn:Hs.
    + rewrite <- app_String, (starts_with_app _ _ _ Hs). lia.
    + destruct (starts_with pat (String x (a +:+ b))); lia.
Qed.

Lemma no_char_String c x s :
  no_char c (String x s) <-> x <> c /\ no_char c s.
Proof.
  unfold no_char. simpl. rewrite andb_true_iff, negb_true_iff.
  by rewrite bool_decide_eq_false.
Qed.

Lemma no_char_app c a b : no_char c (a +:+ b) <-> no_char c a /\ no_char c b.
Proof.
  induction a as [|x a IH].
  - rewrite app_empty_l. unfold no_char at 2. simpl. tauto.
  - rewrite app_String, !no_char_String, IH. tauto.
Qed.

Lemma occurrences_none_before pat r : forall b,
  (forall b1 c b2, b = b1 +:+ String c b2 ->
     starts_with pat (String c b2 +:+ r) = false) ->
  occurrences pat (b +:+ r) = occurrences pat r.
Proof.
  induction b as [|x b IH]; intros Hb; [done|].
  rewrite app_String.
  change (occurrences pat (String x (b +:+ r)))
    with ((if starts_with pat (String x (b +:+ r)) then 1 else 0)
          + occurrences pat (b +:+ r)).
  rewrite <- app_String, (Hb "" x b) by done.
  rewrite IH; [done|]. intros b1 c b2 ->. by apply (Hb (String x b1)).
Qed.

Lemma occurrences_after_any pat b t a :
  pat <> "" -> occurrences pat a <= occurrences pat (b +:+ t +:+ a).
Proof.
  intros Hpat.
  pose proof (occurrences_app_ge pat b (t +:+ a) Hpat).
  pose proof (occurrences_app_ge pat t a Hpat). lia.
Qed.

(** A pattern that opens with a brace and has no other: two of its
    occurrences cannot overlap, and none can run over a later brace. *)
Section Brace.

Variable q : string.
Hypothesis Hq : no_char "{" q.

Lemma starts_with_before_brace p : forall b u,
  no_char "{" p ->
  starts_with p (b +:+ String "{" u) = starts_with p b.
Proof.
  unfold starts_with.
  induction p as [|d p IH]; intros b u Hp; [done|].
  apply no_char_String in Hp as [Hd Hp].
  destruct b as [|e b].
  - rewrite app_empty_l. simpl. by rewrite bool_decide_eq_false_2.
  - rewrite app_String. simpl. case_bool_decide; [|done]. by apply IH.
Qed.

Lemma occurrences_before_brace b u :
  occurrences (String "{" q) (b +:+ String "{" u)
  = occurrences (String "{" q) b + occurrences (String "{" q) (String "{" u).
Proof.
  pose proof (fun b => starts_with_before_brace q b u Hq) as Hsw.
  remember (String "{" u) as r eqn:Hr. clear Hr.
  induction b as [|x b IH].
  - rewrite app_empty_l. done.
  - rewrite app_String.
    change (occurrences (String "{" q) (String x (b +:+ r)))
      with ((if starts_with (String "{" q) (String x (b +:+ r)) then 1 else 0)
            + occurrences (String "{" q) (b +:+ r)).
    change (occurrences (String "{" q) (String x b))
      with ((if starts_with (String "{" q) (String x b) then 1 else 0)
            + occurrences (String "{" q) b).
    rewrite IH.
    assert (starts_with (String "{" q) (String x (b +:+ r))
            = starts_with (String "{" q) (String x b)) as ->; [|lia].
    unfold starts_with. simpl. case_bool_decide; [|done].
    apply Hsw.
Qed.

Lemma occurrences_skip t : forall a,
  no_char "{" t ->
  occurrences (String "{" q) (t +:+ a) = occurrences (String "{" q) a.
Proof.
  induction t as [|x t IH]; intros a Ht; [done|].
  apply no_char_String in Ht as [Hx Ht].
  rewrite app_String. cbn [occurrences]. rewrite IH by done.
  unfold starts_with. simpl. rewrite bool_decide_eq_false_2; [done|congruence].
Qed.

Lemma occurrences_at_pattern a :
  occurrences (String "{" q) (String "{" q +:+ a)
  = S (occurrences (String "{" q) a).
Proof.
  rewrite app_String.
  change (occurrences (String "{" q) (String "{" (q +:+ a)))
    with ((if starts_with (String "{" q) (String "{" (q +:+ a)) then 1 else 0)
          + occurrences (String "{" q) (q +:+ a)).
  rewrite occurrences_skip by done.
  unfold starts_with. rewrite <- app_String, strip_prefix_app. done.
Qed.

(** Replacing the first occurrence of the pattern takes away one
    occurrence at most. *)
Lemma occurrences_replace_same s rep :
  occurrences (String "{" q) s
  <= S (occurrences (String "{" q) (String_replace s (String "{" q) rep)).
Proof.
  unfold String_replace.
  destruct (find_first (String "{" q) s) as [[b a]|] eqn:Hf; [|lia].
  pose proof (find_first_Some _ _ _ _ Hf) as ->.
  rewrite occurrences_none_before by (by apply (find_first_earliest _ _ _ _ Hf)).
  rewrite occurrences_at_pattern.
  pose proof (occurrences_after_any (String "{" q) b
                (GetSubstitution (String "{" q) b a rep) a ltac:(done)).
  lia.
Qed.

(** Replacing the first occurrence of another such pattern, one that
    does not start like this one, takes no occurrence away. *)
Lemma occurrences_replace_other q' s rep :
  no_char "{" q' ->
  (forall a, starts_with (String "{" q) (String "{" q' +:+ a) = false) ->
  occurrences (String "{" q) s
  <= occurrences (String "{" q) (String_replace s (String "{" q') rep).
Proof.
  intros Hq' Hdiff. unfold String_replace.
  destruct (find_first (String "{" q') s) as [[b a]|] eqn:Hf; [|lia].
  pose proof (find_first_Some _ _ _ _ Hf) as ->.
  rewrite app_String, occurrences_before_brace.
  change (occurrences (String "{" q) (String "{" (q' +:+ a)))
    with ((if starts_with (String "{" q) (String "{" (q' +:+ a)) then 1 else 0)
          + occurrences (String "{" q) (q' +:+ a)).
  rewrite <- app_String, Hdiff, occurrences_skip by done.
  pose proof (occurrences_app_ge (String "{" q) b
                (GetSubstitution (String "{" q') b a rep +:+ a) ltac:(done)).
  pose proof (occurrences_app_ge (String "{" q)
                (GetSubstitution (String "{" q') b a rep) a ltac:(done)).
  lia.
Qed.

End Brace.

(** ** [path.resolve] on names without special segments *)

Lemma split_on_nonempty sep s : forall cur, split_on sep s cur <> [].
Proof. induction s as [|c s IH]; intros cur; simpl; [done|]. by case_bool_decide. Qed.

Lemma split_on_app sep a b : forall cur,
  split_on sep (a +:+ String sep b) cur = split_on sep a cur ++ split_on sep b "".
Proof.
  induction a as [|c a IH]; intros cur.
  - rewrite app_empty_l. simpl. by rewrite bool_decide_eq_true_2.
  - rewrite app_String. simpl. case_bool_decide; by rewrite IH.
Qed.

Lemma join_path_cons seg rest :
  rest <> [] -> join_path (seg :: rest) = seg +:+ "/" +:+ join_path rest.
Proof. by destruct rest. Qed.

Lemma join_path_split_on s : forall cur, join_path (split_on "/" s cur) = cur +:+ s.
Proof.
  induction s as [|c s IH]; intros cur; simpl.
  - by rewrite app_empty_r.
  - case_bool_decide as Hc.
    + subst c. rewrite join_path_cons by apply split_on_nonempty. by rewrite IH.
    + rewrite IH. by rewrite app_assoc_s.
Qed.

Lemma join_path_app l1 l2 :
  l1 <> [] -> l2 <> [] ->
  join_path (l1 ++ l2) = join_path l1 +:+ "/" +:+ join_path l2.
Proof.
  intros H1 H2. induction l1 as [|x l1 IH]; [done|].
  destruct l1 as [|y l1].
  - cbn [app]. by rewrite join_path_cons.
  - change ((x :: y :: l1) ++ l2) with (x :: ((y :: l1) ++ l2)).
    rewrite join_path_cons by done. rewrite IH by done.
    rewrite (join_path_cons x (y :: l1)) by done. by rewrite !app_assoc_s.
Qed.

Lemma normalize_plain l : forall acc,
  Forall (fun seg => seg <> "" /\ seg <> "." /\ seg <> "..") l ->
  foldl (fun acc seg =>
           if bool_decide (seg = "" ∨ seg = ".") then acc
           else if bool_decide (seg = "..") then removelast acc
           else acc ++ [seg]) acc l
  = acc ++ l.
Proof.
  induction l as [|seg l IH]; intros acc Hl; [by rewrite app_nil_r|].
  apply Forall_cons in Hl as [(H1 & H2 & H3) Hl]. cbn [foldl].
  rewrite bool_decide_eq_false_2 by (intros [?|?]; done).
  rewrite bool_decide_eq_false_2 by done.
  rewrite IH by done. by rewrite <- app_assoc.
Qed.

Lemma plain_segments_relative p : plain_segments p -> strip_prefix "/" p = None.
Proof.
  unfold plain_segments. destruct p as [|c p]; [done|]. simpl.
  case_bool_decide as Hc; [|by rewrite bool_decide_eq_false_2].
  intros [(H & _) _]%Forall_cons. done.
Qed.

(** Resolving a name without special segments from a working directory
    ["/" +:+ c] without special segments puts the working directory in
    front of it. *)
Lemma posix_resolve_plain_cwd c p :
  plain_segments c -> plain_segments p ->
  posix_resolve ("/" +:+ c) p = "/" +:+ c +:+ "/" +:+ p.
Proof.
  intros Hc Hp. unfold posix_resolve, normalize_segments.
  rewrite plain_segments_relative by done.
  change (("/" +:+ c) +:+ "/" +:+ p) with ("" +:+ String "/" (c +:+ String "/" p)).
  rewrite !split_on_app. cbn [split_on app foldl].
  rewrite bool_decide_eq_true_2 by (by left).
  rewrite foldl_app, !normalize_plain by done. cbn [app].
  rewrite join_path_app by apply split_on_nonempty.
  by rewrite !join_path_split_on.
Qed.

(** *** Occurrences and characters across the segments of a path *)

Lemma starts_with_before_char c p : forall b u,
  no_char c p -> starts_with p (b +:+ String c u) = starts_with p b.
Proof.
  unfold starts_with.
  induction p as [|d p IH]; intros b u Hp; [done|].
  apply no_char_String in Hp as [Hd Hp].
  destruct b as [|e b].
  - rewrite app_empty_l. simpl. by rewrite bool_decide_eq_false_2.
  - rewrite app_String. simpl. case_bool_decide; [|done]. by apply IH.
Qed.

Lemma occurrences_empty pat : pat <> "" -> occurrences pat "" = 0.
Proof. by destruct pat. Qed.

Lemma occurrences_sep c pat a b :
  pat <> "" -> no_char c pat ->
  occurrences pat (a +:+ String c b) = occurrences pat a + occurrences pat b.
Proof.
  intros Hne Hpat. induction a as [|x a IH].
  - rewrite app_empty_l, occurrences_empty by done.
    change (occurrences pat (String c b))
      with ((if starts_with pat (String c b) then 1 else 0) + occurrences pat b).
    destruct pat as [|d pat]; [done|]. apply no_char_String in Hpat as [Hd _].
    unfold starts_with. simpl. by rewrite bool_decide_eq_false_2.
  - rewrite app_String.
    change (occurrences pat (String x (a +:+ String c b)))
      with ((if starts_with pat (String x (a +:+ String c b)) then 1 else 0)
            + occurrences pat (a +:+ String c b)).
    change (occurrences pat (String x a))
      with ((if starts_with pat (String x a) then 1 else 0) + occurrences pat a).
    rewrite <- app_String, starts_with_before_char by done. rewrite IH. lia.
Qed.

Lemma occurrences_join_path pat l :
  pat <> "" -> no_char "/" pat ->
  occurrences pat (join_path l) = sum_list_with (occurrences pat) l.
Proof.
  intros Hne Hpat. induction l as [|x l IH]; [by apply occurrences_empty|].
  destruct l as [|y l].
  - cbn. lia.
  - rewrite join_path_cons by done.
    change (x +:+ "/" +:+ join_path (y :: l)) with (x +:+ String "/" (join_path (y :: l))).
    rewrite occurrences_sep, IH by done. done.
Qed.

(** Without a [".."] segment, normalizing only drops the empty segments
    and the segments ["."]. *)
Lemma normalize_no_dot_dot l : forall acc,
  ".." ∉ l ->
  foldl (fun acc seg =>
           if bool_decide (seg = "" ∨ seg = ".") then acc
           else if bool_decide (seg = "..") then removelast acc
           else acc ++ [seg]) acc l
  = acc ++ filter (fun seg => ¬ (seg = "" ∨ seg = ".")) l.
Proof.
  induction l as [|seg l IH]; intros acc Hl; [by rewrite app_nil_r|].
  cbn [foldl]. rewrite filter_cons.
  assert (".." ∉ l) as Hl' by (intros Hin; apply Hl; by right).
  assert (seg <> "..") as Hseg by (intros ->; apply Hl; by left).
  case_bool_decide as Hdrop.
  - rewrite IH by done. by destruct (decide (¬ (seg = "" ∨ seg = "."))).
  - rewrite bool_decide_eq_false_2 by done. rewrite IH by done.
    destruct (decide (¬ (seg = "" ∨ seg = "."))); [|done].
    by rewrite <- app_assoc.
Qed.

Lemma occurrences_kept_segments q l :
  sum_list_with (occurrences (String "{" q)) (filter (fun seg => ¬ (seg = "" ∨ seg = ".")) l)
  = sum_list_with (occurrences (String "{" q)) l.
Proof.
  induction l as [|seg l IH]; [done|]. rewrite filter_cons.
  destruct (decide (¬ (seg = "" ∨ seg = "."))) as [Hkeep|Hdrop]; cbn; [by rewrite IH|].
  rewrite IH. destruct (decide (seg = "")) as [->|Hne]; [done|].
  destruct (decide (seg = ".")) as [->|Hne']; [done|].
  exfalso. apply Hdrop. by intros [?|?].
Qed.

(** Resolving a name without a [".."] segment keeps the occurrences of a
    placeholder. *)
Lemma occurrences_posix_resolve q cwd p :
  no_char "/" q -> ".." ∉ split_on "/" p "" ->
  occurrences (String "{" q) p <= occurrences (String "{" q) (posix_resolve cwd p).
Proof.
  intros Hq Hp.
  assert (no_char "/" (String "{" q)) as Hpat by (by apply no_char_String).
  assert (occurrences (String "{" q) p
          = sum_list_with (occurrences (String "{" q)) (split_on "/" p "")) as ->.
  { rewrite <- occurrences_join_path by done. by rewrite join_path_split_on. }
  unfold posix_resolve, normalize_segments.
  change ("/" +:+ join_path ?l) with (String "/" (join_path l)).
  match goal with
  | |- _ <= occurrences ?pat (String "/" ?x) =>
      change (occurrences pat (String "/" x))
        with ((if starts_with pat (String "/" x) then 1 else 0) + occurrences pat x)
  end.
  rewrite occurrences_join_path by done.
  destruct (strip_prefix "/" p) as [rest|].
  - rewrite normalize_no_dot_dot by done. cbn [app].
    rewrite occurrences_kept_segments. lia.
  - change (cwd +:+ "/" +:+ p) with (cwd +:+ String "/" p).
    rewrite split_on_app, foldl_app, normalize_no_dot_dot by done.
    rewrite sum_list_with_app, occurrences_kept_segments. lia.
Qed.

Lemma split_on_chars ch sep s : forall cur,
  no_char ch s -> no_char ch cur -> Forall (no_char ch) (split_on sep s cur).
Proof.
  induction s as [|c s IH]; intros cur Hs Hcur; simpl.
  - by constructor.
  - apply no_char_String in Hs as [Hc Hs]. case_bool_decide.
    + constructor; [done|]. by apply IH.
    + apply IH; [done|]. apply no_char_app. split; [done|]. by apply no_char_String.
Qed.

Lemma Forall_removelast {A} (P : A -> Prop) l : Forall P l -> Forall P (removelast l).
Proof.
  induction l as [|x l IH]; [done|]. intros [Hx Hl]%Forall_cons. simpl.
  destruct l; [constructor|]. constructor; [done|by apply IH].
Qed.

Lemma normalize_chars ch l : forall acc,
  Forall (no_char ch) l -> Forall (no_char ch) acc ->
  Forall (no_char ch)
    (foldl (fun acc seg =>
              if bool_decide (seg = "" ∨ seg = ".") then acc
              else if bool_decide (seg = "..") then removelast acc
              else acc ++ [seg]) acc l).
Proof.
  induction l as [|seg l IH]; intros acc Hl Hacc; [done|].
  apply Forall_cons in Hl as [Hseg Hl]. cbn [foldl]. apply IH; [done|].
  repeat case_bool_decide; [done|by apply Forall_removelast|].
  apply Forall_app. split; [done|]. by constructor.
Qed.

Lemma join_path_chars ch l :
  ch <> "/"%char -> Forall (no_char ch) l -> no_char ch (join_path l).
Proof.
  intros Hch. induction l as [|x l IH]; [done|]. intros [Hx Hl]%Forall_cons.
  destruct l as [|y l]; [done|]. rewrite join_path_cons by done.
  rewrite !no_char_app. split_and!; [done|by apply no_char_String|by apply IH].
Qed.

(** A character other than the slash that neither the working directory
    nor the name has is not in the resolved path. *)
Lemma no_char_posix_resolve ch cwd p :
  ch <> "/"%char -> no_char ch cwd -> no_char ch p -> no_char ch (posix_resolve cwd p).
Proof.
  intros Hch Hcwd Hp. unfold posix_resolve, normalize_segments.
  apply no_char_app. split; [by apply no_char_String|].
  apply join_path_chars; [done|]. apply normalize_chars; [|done].
  apply split_on_chars; [|done].
  destruct (strip_prefix "/" p); [done|].
  rewrite !no_char_app. split_and!; [done|by apply no_char_String|done].
Qed.

(** C10 (amended).  Each [replace] call of the expansion rewrites the
    first occurrence of its placeholder and copies the text after it
    unchanged; and of the occurrences of a placeholder in the template
    all but one at most are still there, unexpanded, in the file name
    the expansion produces, which is the string handed to
    [path.resolve].  They are still there in the resolved path when
    resolving removes no segment that holds one: under POSIX
    resolution, from any working directory, when no segment of the file
    name is [".."]. *)
Theorem later_occurrences_stay :
  (forall s pat rep b a,
     find_first pat s = Some (b, a) ->
     s = b +:+ pat +:+ a
     /\ (forall b1 c b2, b = b1 +:+ String c b2 ->
           starts_with pat (String c b2 +:+ pat +:+ a) = false)
     /\ String_replace s pat rep = b +:+ GetSubstitution pat b a rep +:+ a)
  /\ (forall ph outputPath scheduleName t1 t2,
        ph ∈ placeholders ->
        occurrences ph outputPath
        <= S (occurrences ph (filename outputPath scheduleName t1 t2)))
  /\ (forall cwd ph outputPath scheduleName t1 t2,
        ph ∈ placeholders ->
        ".." ∉ split_on "/" (filename outputPath scheduleName t1 t2) "" ->
        occurrences ph (filename outputPath scheduleName t1 t2)
        <= occurrences ph (posix_resolve cwd (filename outputPath scheduleName t1 t2))
        /\ occurrences ph outputPath
           <= S (occurrences ph
                   (posix_resolve cwd (filename outputPath scheduleName t1 t2)))).
Proof.
  assert (forall ph outputPath scheduleName t1 t2,
            ph ∈ placeholders ->
            occurrences ph outputPath
            <= S (occurrences ph (filename outputPath scheduleName t1 t2))) as Hcount.
  { intros ph tpl n t1 t2 Hph. unfold filename.
    set (s1 := String_replace tpl "{name}" n).
    set (s2 := String_replace s1 "{timestamp}" (timestamp t1)).
    set (d := split_head "T" (toISOString t2)).
    unfold placeholders in Hph.
    apply elem_of_cons in Hph as [->|Hph]; [|apply elem_of_cons in Hph as [->|Hph]];
      [| |apply list_elem_of_singleton in Hph as ->].
    + pose proof (occurrences_replace_same "name}" eq_refl tpl n).
      pose proof (occurrences_replace_other "name}" eq_refl "timestamp}" s1 (timestamp t1) eq_refl (fun a => eq_refl)).
      pose proof (occurrences_replace_other "name}" eq_refl "date}" s2 d eq_refl (fun a => eq_refl)).
      fold s1 in H. fold s2 in H0. lia.
    + pose proof (occurrences_replace_other "timestamp}" eq_refl "name}" tpl n eq_refl (fun a => eq_refl)).
      pose proof (occurrences_replace_same "timestamp}" eq_refl s1 (timestamp t1)).
      pose proof (occurrences_replace_other "timestamp}" eq_refl "date}" s2 d eq_refl (fun a => eq_refl)).
      fold s1 in H. fold s2 in H0. lia.
    + pose proof (occurrences_replace_other "date}" eq_refl "name}" tpl n eq_refl (fun a => eq_refl)).
      pose proof (occurrences_replace_other "date}" eq_refl "timestamp}" s1 (timestamp t1) eq_refl (fun a => eq_refl)).
      pose proof (occurrences_replace_same "date}" eq_refl s2 d).
      fold s1 in H. fold s2 in H0. lia. }
  split_and!.
  - intros s pat rep b a Hf. split_and!.
    + by apply find_first_Some.
    + by apply (find_first_earliest _ _ _ _ Hf).
    + unfold String_replace. by rewrite Hf.
  - exact Hcount.
  - intros cwd ph tpl n t1 t2 Hph Hdots.
    pose proof (Hcount ph tpl n t1 t2 Hph) as Hc.
    assert (exists q, ph = String "{" q /\ no_char "/" q) as (q & -> & Hq).
    { unfold placeholders in Hph.
      repeat (apply elem_of_cons in Hph as [->|Hph]; [by eexists|]).
      by apply elem_of_nil in Hph. }
    pose proof (occurrences_posix_resolve q cwd _ Hq Hdots). lia.
Qed.
(** ** Strings: what the expansion puts in *)

Lemma all_chars_app P a b : all_chars P (a +:+ b) = all_chars P a && all_chars P b.
Proof.
  induction a as [|x a IH]; [done|]. rewrite app_String. simpl.
  by rewrite IH, andb_assoc.
Qed.

Lemma all_chars_impl (P Q : ascii -> bool) s :
  (forall c, P c = true -> Q c = true) -> all_chars P s = true -> all_chars Q s = true.
Proof.
  intros HPQ. induction s as [|x s IH]; [done|]. simpl.
  intros [Hx Hs]%andb_true_iff. by rewrite (HPQ x Hx), IH.
Qed.

(** Without a dollar sign the replacement text stands for itself. *)
Lemma GetSubstitution_plain m b a rep :
  no_char "$" rep -> GetSubstitution m b a rep = rep.
Proof.
  induction rep as [|c rep IH]; [done|].
  intros [Hc Hrep]%no_char_String. simpl.
  rewrite bool_decide_eq_false_2 by done. by rewrite IH.
Qed.

Lemma no_char_GetSubstitution c m b a rep :
  c <> "$"%char ->
  no_char c m -> no_char c b -> no_char c a -> no_char c rep ->
  no_char c (GetSubstitution m b a rep).
Proof.
  intros Hc Hm Hb Ha.
  assert (forall n r, String.length r <= n -> no_char c r ->
            no_char c (GetSubstitution m b a r)) as H.
  { induction n as [|n IH]; intros r Hlen Hr.
    - destruct r; [done|simpl in Hlen; lia].
    - destruct r as [|x r]; [done|]. apply no_char_String in Hr as [Hx Hr].
      simpl in Hlen. simpl. case_bool_decide.
      + destruct r as [|y r].
        * subst x. apply no_char_String. done.
        * apply no_char_String in Hr as [Hy Hr']. simpl in Hlen.
          repeat case_bool_decide;
            rewrite ?no_char_app, ?no_char_String;
            repeat split; try done; try (apply IH; [lia|done]).
          apply IH; [simpl; lia|]. by apply no_char_String.
      + apply no_char_String. split; [done|]. apply IH; [lia|done]. }
  intros Hrep. by apply (H (String.length rep)).
Qed.

Lemma no_char_String_replace c s pat rep :
  c <> "$"%char -> no_char c s -> no_char c rep ->
  no_char c (String_replace s pat rep).
Proof.
  intros Hc Hs Hrep. unfold String_replace.
  destruct (find_first pat s) as [[b a]|] eqn:Hf; [|done].
  pose proof (find_first_Some _ _ _ _ Hf) as ->.
  apply no_char_app in Hs as [Hb [Hp Ha]%no_char_app].
  rewrite !no_char_app. split_and!; try done.
  by apply no_char_GetSubstitution.
Qed.

Lemma String_replace_absent s pat rep :
  find_first pat s = None -> String_replace s pat rep = s.
Proof. unfold String_replace. by intros ->. Qed.

Lemma String_replace_plain s pat rep b a :
  no_char "$" rep -> find_first pat s = Some (b, a) ->
  String_replace s pat rep = b +:+ rep +:+ a.
Proof.
  intros Hrep Hf. unfold String_replace. rewrite Hf.
  by rewrite GetSubstitution_plain.
Qed.

Lemma split_head_app sep d r :
  no_char sep d -> split_head sep (d +:+ String sep r) = d.
Proof.
  induction d as [|x d IH]; intros Hd.
  - rewrite app_empty_l. simpl. by rewrite bool_decide_eq_true_2.
  - apply no_char_String in Hd as [Hx Hd]. rewrite app_String. simpl.
    rewrite bool_decide_eq_false_2 by done. by rewrite IH.
Qed.

Lemma replace_colon_dot_chars s :
  no_char ":" (replace_colon_dot s) /\ no_char "." (replace_colon_dot s).
Proof.
  induction s as [|x s [IH1 IH2]]; [done|]. simpl.
  rewrite !no_char_String. split_and!; try done;
    repeat case_bool_decide; subst; simpl; done.
Qed.

Lemma replace_colon_dot_keeps c s :
  c <> "-"%char -> no_char c s -> no_char c (replace_colon_dot s).
Proof.
  intros Hc. induction s as [|x s IH]; [done|].
  intros [Hx Hs]%no_char_String. simpl. apply no_char_String.
  split; [|by apply IH]. destruct (_ || _); congruence.
Qed.
(** ** The ISO timestamp *)

Lemma digit_is_digit n : is_digit (digit n) = true.
Proof.
  unfold digit.
  assert (Z.to_nat (n `mod` 10) < 10) as Hk.
  { pose proof (Z.mod_pos_bound n 10). lia. }
  revert Hk. generalize (Z.to_nat (n `mod` 10)) as k. intros k Hk.
  do 10 (destruct k as [|k]; [done|]). lia.
Qed.

Lemma pad_digits w : forall n, all_chars is_digit (pad w n) = true.
Proof.
  induction w as [|w IH]; intros n; [done|]. cbn [pad].
  rewrite all_chars_app, IH.
  change (all_chars is_digit (String (digit n) "")) with (is_digit (digit n) && true).
  by rewrite digit_is_digit.
Qed.

Lemma pad_length w : forall n, String.length (pad w n) = w.
Proof.
  induction w as [|w IH]; intros n; [done|]. cbn [pad].
  assert (forall a b, String.length (a +:+ b) = String.length a + String.length b) as Hl.
  { intros a b. induction a as [|x a IHa]; [done|]. rewrite app_String. simpl. lia. }
  rewrite Hl, IH. cbn [String.length]. lia.
Qed.

Lemma digits_no_char c s :
  is_digit c = false -> all_chars is_digit s = true -> no_char c s.
Proof.
  intros Hc. apply all_chars_impl. intros x Hx.
  apply negb_true_iff, bool_decide_eq_false. congruence.
Qed.

(** The date part has digits, hyphens and, for a year beyond four
    digits, a sign. *)
Lemma date_string_chars c t :
  is_digit c = false -> c <> "-"%char -> c <> "+"%char -> no_char c (date_string t).
Proof.
  intros Hd Hm Hp. unfold date_string.
  destruct (civil_from_days _) as [[y m] d].
  rewrite !no_char_app. split_and!; try (by apply no_char_String);
    try (apply digits_no_char; [done|apply pad_digits]).
  unfold year_string. case_bool_decide; [apply digits_no_char; [done|apply pad_digits]|].
  apply no_char_app. split; [|apply digits_no_char; [done|apply pad_digits]].
  case_bool_decide; by apply no_char_String.
Qed.

Lemma time_string_chars c t :
  is_digit c = false -> c <> ":"%char -> c <> "."%char -> no_char c (time_string t).
Proof.
  intros Hd Hm Hp. unfold time_string.
  rewrite !no_char_app. split_and!; try (by apply no_char_String);
    try (apply digits_no_char; [done|apply pad_digits]).
Qed.

Lemma split_head_toISOString t : split_head "T" (toISOString t) = date_string t.
Proof.
  unfold toISOString. change ("T" +:+ time_string t +:+ "Z")
    with (String "T" (time_string t +:+ "Z")).
  apply split_head_app. by apply date_string_chars.
Qed.

Lemma toISOString_chars c t :
  is_digit c = false ->
  c ∉ ["-"; "+"; ":"; "."; "T"; "Z"]%char ->
  no_char c (toISOString t).
Proof.
  intros Hd Hc. unfold toISOString.
  assert (forall x, x ∈ ["-"; "+"; ":"; "."; "T"; "Z"]%char -> c <> x) as Hne.
  { intros x Hx ->. done. }
  assert (forall x, x ∈ ["-"; "+"; ":"; "."; "T"; "Z"]%char -> x <> c) as Hne'.
  { intros x Hx <-. done. }
  rewrite !no_char_app. split_and!.
  - apply date_string_chars; [done|..]; apply Hne; set_solver.
  - apply no_char_String. split; [|done]. apply Hne'. set_solver.
  - apply time_string_chars; [done|..]; apply Hne; set_solver.
  - apply no_char_String. split; [|done]. apply Hne'. set_solver.
Qed.

Lemma timestamp_chars t :
  no_char ":" (timestamp t) /\ no_char "." (timestamp t) /\ no_char "$" (timestamp t).
Proof.
  unfold timestamp. destruct (replace_colon_dot_chars (toISOString t)) as [H1 H2].
  split_and!; try done.
  apply replace_colon_dot_keeps; [done|].
  apply toISOString_chars; [done|].
  apply (bool_decide_unpack _). by vm_compute.
Qed.
(** The month and the day of a date are in range, so two digits are
    all of them. *)
Lemma civil_from_days_range days y m d :
  civil_from_days days = (y, m, d) -> (1 <= m <= 12)%Z /\ (1 <= d <= 31)%Z.
Proof.
  unfold civil_from_days.
  set (z := (days + 719468)%Z).
  set (doe := (z `mod` 146097)%Z).
  set (yoe := ((doe - doe `div` 1460 + doe `div` 36524 - doe `div` 146096) `div` 365)%Z).
  set (doy := (doe - (365 * yoe + yoe `div` 4 - yoe `div` 100))%Z).
  set (mp := ((5 * doy + 2) `div` 153)%Z).
  intros [= _ <- <-].
  assert (0 <= doe < 146097)%Z as Hdoe by (apply Z.mod_pos_bound; lia).
  assert (0 <= yoe <= 399)%Z as Hyoe.
  { unfold yoe. clearbody doe. clear -Hdoe. Z.div_mod_to_equations. lia. }
  assert (0 <= doy <= 365)%Z as Hdoy.
  { unfold doy, yoe. clearbody doe. clear -Hdoe. Z.div_mod_to_equations. lia. }
  assert (0 <= mp <= 11)%Z as Hmp.
  { unfold mp. clearbody doy. clear -Hdoy. Z.div_mod_to_equations. lia. }
  split.
  - case_bool_decide; lia.
  - unfold mp. clearbody doy. clear -Hdoy. Z.div_mod_to_equations. lia.
Qed.

(** ** Templates whose braces enclose placeholder words *)

Lemma find_first_here pat r : find_first pat (pat +:+ r) = Some ("", r).
Proof.
  destruct (pat +:+ r) as [|c s] eqn:E; simpl; rewrite <- E, strip_prefix_app; done.
Qed.

Lemma String_replace_here pat r v :
  no_char "$" v -> String_replace (pat +:+ r) pat v = v +:+ r.
Proof.
  intros Hv. unfold String_replace. rewrite find_first_here.
  by rewrite GetSubstitution_plain.
Qed.

Lemma String_replace_String c s pat v :
  no_char "$" v -> strip_prefix pat (String c s) = None ->
  String_replace (String c s) pat v = String c (String_replace s pat v).
Proof.
  intros Hv Hs. unfold String_replace.
  change (find_first pat (String c s))
    with (match strip_prefix pat (String c s) with
          | Some rest => Some ("", rest)
          | None =>
              match find_first pat s with
              | Some (b, a) => Some (String c b, a)
              | None => None
              end
          end).
  rewrite Hs. destruct (find_first pat s) as [[b a]|]; [|done].
  by rewrite !GetSubstitution_plain.
Qed.

Lemma String_replace_skip q v s : forall r,
  no_char "$" v -> no_char "{" s ->
  String_replace (s +:+ r) (String "{" q) v = s +:+ String_replace r (String "{" q) v.
Proof.
  induction s as [|c s IH]; intros r Hv Hs; [done|].
  apply no_char_String in Hs as [Hc Hs]. rewrite !app_String.
  rewrite String_replace_String; [by rewrite IH|done|].
  simpl. rewrite bool_decide_eq_false_2; [done|congruence].
Qed.

Lemma strip_prefix_other_word word : forall w r,
  no_char "}" word -> no_char "}" w -> w <> word ->
  strip_prefix (word +:+ "}") (w +:+ String "}" r) = None.
Proof.
  induction word as [|a word IH]; intros w r Hword Hw Hne.
  - destruct w as [|c w]; [done|]. apply no_char_String in Hw as [Hc _].
    rewrite app_empty_l, app_String. simpl.
    rewrite bool_decide_eq_false_2; [done|congruence].
  - apply no_char_String in Hword as [Ha Hword]. rewrite app_String.
    destruct w as [|c w].
    + rewrite app_empty_l. simpl. by rewrite bool_decide_eq_false_2.
    + apply no_char_String in Hw as [Hc Hw]. rewrite app_String. simpl.
      case_bool_decide; [|done]. subst. apply IH; try done. congruence.
Qed.

(** On a plain template [replace] does what [fill_first] says. *)
Lemma String_replace_render word value : forall pieces,
  no_char "}" word -> no_char "$" value -> Forall plain_piece pieces ->
  String_replace (render pieces) ("{" +:+ word +:+ "}") value
  = render (fill_first word value pieces).
Proof.
  intros pieces Hword Hv. induction pieces as [|[s|w] rest IH]; intros Hps.
  - done.
  - apply Forall_cons in Hps as [Hs Hrest]. cbn [render piece_string fill_first].
    change ("{" +:+ word +:+ "}") with (String "{" (word +:+ "}")) in *.
    rewrite String_replace_skip by done. by rewrite IH.
  - apply Forall_cons in Hps as [[Hw1 Hw2] Hrest]. cbn [render piece_string fill_first].
    case_bool_decide as Heq.
    + subst w. by rewrite String_replace_here.
    + change ("{" +:+ word +:+ "}") with (String "{" (word +:+ "}")) in *.
      change (("{" +:+ w +:+ "}") +:+ render rest)
        with (String "{" ((w +:+ "}") +:+ render rest)).
      rewrite String_replace_String; [|done|].
      * rewrite String_replace_skip; [by rewrite IH|done|].
        apply no_char_app. by split.
      * cbn [strip_prefix]. rewrite bool_decide_eq_true_2 by done.
        rewrite app_assoc_s. by apply strip_prefix_other_word.
Qed.

Lemma plain_fill_first word value pieces :
  no_char "{" value -> Forall plain_piece pieces ->
  Forall plain_piece (fill_first word value pieces).
Proof.
  intros Hv. induction pieces as [|[s|w] rest IH]; intros Hps; [done|..];
    apply Forall_cons in Hps as [Hp Hrest]; cbn [fill_first].
  - constructor; [done|by apply IH].
  - case_bool_decide; constructor; try done. by apply IH.
Qed.

(** What [fill_first] leaves of the text after the first placeholder. *)
Lemma fill_first_split word value pre post :
  Placeholder word ∉ pre ->
  fill_first word value (pre ++ Placeholder word :: post) = pre ++ Text value :: post.
Proof.
  induction pre as [|[s|w] pre IH]; intros Hpre; cbn [fill_first app].
  - by rewrite bool_decide_eq_true_2.
  - rewrite IH; [done|]. intros Hin. apply Hpre. by right.
  - rewrite bool_decide_eq_false_2.
    + rewrite IH; [done|]. intros Hin. apply Hpre. by right.
    + intros ->. apply Hpre. by left.
Qed.

Lemma fill_first_absent word value pieces :
  Placeholder word ∉ pieces -> fill_first word value pieces = pieces.
Proof.
  induction pieces as [|[s|w] rest IH]; intros Hps; cbn [fill_first]; [done|..].
  - rewrite IH; [done|]. intros Hin. apply Hps. by right.
  - rewrite bool_decide_eq_false_2.
    + rewrite IH; [done|]. intros Hin. apply Hps. by right.
    + intros ->. apply Hps. by left.
Qed.

Lemma timestamp_no_brace t : no_char "{" (timestamp t) /\ no_char "$" (timestamp t).
Proof.
  unfold timestamp. split; (apply replace_colon_dot_keeps; [done|]);
    (apply toISOString_chars; [done|]); apply (bool_decide_unpack _); by vm_compute.
Qed.

(** The file name of a plain template is its expansion. *)
Lemma filename_render pieces n t1 t2 :
  Forall plain_piece pieces -> no_char "$" n -> no_char "{" n ->
  filename (render pieces) n t1 t2 = render (expansion pieces n t1 t2).
Proof.
  intros Hps Hn1 Hn2. unfold filename, expansion.
  rewrite split_head_toISOString.
  destruct (timestamp_no_brace t1) as [Ht1 Ht2].
  change "{name}" with ("{" +:+ "name" +:+ "}").
  change "{timestamp}" with ("{" +:+ "timestamp" +:+ "}").
  change "{date}" with ("{" +:+ "date" +:+ "}").
  rewrite (String_replace_render "name") by done.
  rewrite (String_replace_render "timestamp");
    [|done|done|by apply plain_fill_first].
  rewrite (String_replace_render "date"); [done|done|by apply date_string_chars|].
  apply plain_fill_first; [done|]. by apply plain_fill_first.
Qed.


Section OutputPath.

Variable path_resolve : string -> string.
Variable path_dirname : string -> string.

(** C7 (amended).  On a template whose braces enclose placeholder words
    (text without an opening brace, placeholders [{word}]), and for a
    job name without a dollar sign and without an opening brace, the
    file name is the template with the first [{name}] replaced by the
    job name as it is, the first [{timestamp}] by the ISO timestamp in
    which every colon and dot has become a hyphen, and the first
    [{date}] by the date part of the ISO string, which is [YYYY-MM-DD]
    for a year of four digits.  Everything else stays: the text, every
    other placeholder and the later occurrences of these three.  A
    template with none of the three placeholders is left as it is,
    whatever else it holds.  The expanded name goes through
    [path.resolve], its directory is created and the file is written
    at that path; under POSIX resolution from a working directory
    ["/" +:+ c] the path is the working directory, a slash and the
    expanded name, when neither has an empty, ["."] or [".."] segment.
    The expanded name has no colon when neither the template nor the
    job name has one, and then the path POSIX resolution gives has none
    when the working directory has none. *)
Theorem output_path_expansion :
  (forall pieces n t1 t2,
     Forall plain_piece pieces -> no_char "$" n -> no_char "{" n ->
     filename (render pieces) n t1 t2 = render (expansion pieces n t1 t2))
  /\ (forall word value pre post,
        Placeholder word ∉ pre ->
        fill_first word value (pre ++ Placeholder word :: post)
        = pre ++ Text value :: post)
  /\ (forall word value pieces,
        Placeholder word ∉ pieces -> fill_first word value pieces = pieces)
  /\ (forall t,
        no_char ":" (replace_colon_dot (toISOString t))
        /\ no_char "." (replace_colon_dot (toISOString t))
        /\ String.length (replace_colon_dot (toISOString t))
           = String.length (toISOString t))
  /\ (forall t y m d,
        civil_from_days (t `div` 86400000) = (y, m, d) -> (0 <= y <= 9999)%Z ->
        date_string t = pad 4 y +:+ "-" +:+ pad 2 m +:+ "-" +:+ pad 2 d
        /\ String.length (date_string t) = 10
        /\ (1 <= m <= 12)%Z /\ (1 <= d <= 31)%Z)
  /\ (forall tpl n t1 t2,
        (forall ph, ph ∈ placeholders -> find_first ph tpl = None) ->
        filename tpl n t1 t2 = tpl)
  /\ (forall (env : Env) n p c w,
        (forall d, env (Mkdir d) = Ok tt) ->
        (forall f x, env (WriteFile f x) = Ok tt) ->
        let fullPath :=
          path_resolve (filename p n (clock w) (clock (clock_moves w))) in
        exists w',
          run env (saveOutput path_resolve path_dirname n p c) w = (Ok tt, w')
          /\ dirs w' = dirs w ++ [path_dirname fullPath]
          /\ files w' = files w ++ [(fullPath, c)])
  /\ (forall tpl n t1 t2,
        no_char ":" tpl -> no_char ":" n -> no_char ":" (filename tpl n t1 t2))
  /\ (forall c tpl n t1 t2,
        plain_segments c -> plain_segments (filename tpl n t1 t2) ->
        posix_resolve ("/" +:+ c) (filename tpl n t1 t2)
        = "/" +:+ c +:+ "/" +:+ filename tpl n t1 t2)
  /\ (forall cwd tpl n t1 t2,
        no_char ":" cwd -> no_char ":" tpl -> no_char ":" n ->
        no_char ":" (posix_resolve cwd (filename tpl n t1 t2))).
Proof.
  assert (forall tpl n t1 t2,
            no_char ":" tpl -> no_char ":" n -> no_char ":" (filename tpl n t1 t2))
    as Hcolon.
  { intros tpl n t1 t2 Htpl Hn. unfold filename.
    repeat apply no_char_String_replace; try done.
    + by destruct (timestamp_chars t1).
    + rewrite split_head_toISOString. by apply date_string_chars. }
  split_and!.
  - intros pieces n t1 t2. apply filename_render.
  - intros word value pre post. apply fill_first_split.
  - intros word value pieces. apply fill_first_absent.
  - intros t. destruct (timestamp_chars t) as (H1 & H2 & _). split_and!; try done.
    generalize (toISOString t) as s. intros s.
    induction s as [|x s IH]; [done|]. cbn [replace_colon_dot String.length]. by rewrite IH.
  - intros t y m d Hciv Hy. unfold date_string. rewrite Hciv.
    unfold year_string. rewrite bool_decide_eq_true_2 by done.
    split; [done|]. split; [|by apply (civil_from_days_range _ y m d Hciv)].
    assert (forall a b, String.length (a +:+ b) = String.length a + String.length b) as Hl.
    { intros a b. induction a as [|x a IHa]; [done|]. rewrite app_String. simpl. lia. }
    rewrite !Hl, !pad_length. done.
  - intros tpl n t1 t2 Hnone. unfold filename.
    rewrite (String_replace_absent tpl) by (apply Hnone; set_solver).
    rewrite (String_replace_absent tpl) by (apply Hnone; set_solver).
    rewrite (String_replace_absent tpl) by (apply Hnone; set_solver).
    done.
  - intros env n p c w Hmk Hwr. cbv zeta. rewrite run_saveOutput. cbv zeta.
    rewrite Hmk, Hwr. eexists. split; [reflexivity|]. world_simpl.
    assert (forall x, files (clock_moves x) = files x /\ dirs (clock_moves x) = dirs x) as Hk.
    { intros x. unfold clock_moves. by destruct (drift x). }
    destruct (Hk (clock_moves w)) as [-> ->]. by destruct (Hk w) as [-> ->].
  - exact Hcolon.
  - intros c tpl n t1 t2 Hc Hf. by apply posix_resolve_plain_cwd.
  - intros cwd tpl n t1 t2 H1 H2 H3. apply no_char_posix_resolve; try done.
    by apply Hcolon.
Qed.

End OutputPath.
(** ** Every scheduler the event loop can reach *)

Section Reachable.

Variable validate : string -> bool.
Variable path_resolve : string -> string.
Variable path_dirname : string -> string.

Lemma steps_wf evs : forall m,
  inflight_ok m -> wf_registry (world m) ->
  wf_registry (world (steps validate path_resolve path_dirname m evs)).
Proof.
  induction evs as [|ev evs IH]; intros m Hok Hwf; [done|].
  unfold steps in *. cbn [foldl].
  destruct (step_keeps validate path_resolve path_dirname m ev Hok) as (Hok' & _ & Hev).
  apply IH; [done|].
  destruct ev as [h|i o|batch|n|d|p message|p data].
  - destruct Hev as [Ht Htr]. by apply (wf_registry_ext (world m)).
  - destruct Hev as [Ht Htr]. by apply (wf_registry_ext (world m)).
  - by apply wf_registry_start.
  - by apply wf_registry_stop.
  - by apply (wf_registry_ext (world m)).
  - destruct Hev as [Ht Htr]. by apply (wf_registry_ext (world m)).
  - destruct Hev as [Ht Htr]. by apply (wf_registry_ext (world m)).
Qed.

(** C6.  In every scheduler the event loop reaches from a fresh one:
    [stop(name)] of a registered name stops the trigger of that task
    (the trigger is there, it is not running afterwards, and a tick of
    it starts nothing) and removes that one entry; every other trigger
    is as it was, and every other registered task keeps its entry.
    [stop(name)] of an unregistered name only logs the warning "Task
    not found".  [stop()] stops the trigger of every registered task,
    leaves the other triggers as they were and empties the registry, so
    that [getActiveTasks()] is empty. *)
Theorem stop_semantics cfg t tz evs :
  let w := world (steps validate path_resolve path_dirname
                    (machine0 (world0 cfg t tz)) evs) in
  (forall n t, tasks w !! n = Some t ->
     tasks (stop (Some n) w) = delete n (tasks w)
     /\ isTaskActive n (stop (Some n) w) = false
     /\ (exists tr tr',
           triggers w !! task t = Some tr
           /\ triggers (stop (Some n) w) !! task t = Some tr'
           /\ tr_running tr' = false
           /\ tr_schedule tr' = tr_schedule tr
           /\ tr_expression tr' = tr_expression tr
           /\ tr_timezone tr' = tr_timezone tr)
     /\ (forall m, world m = stop (Some n) w ->
           step validate path_resolve path_dirname m (EvTick (task t)) = m)
     /\ (forall h, h <> task t -> triggers (stop (Some n) w) !! h = triggers w !! h)
     /\ (forall n' t', n' <> n -> tasks w !! n' = Some t' ->
           tasks (stop (Some n) w) !! n' = Some t'
           /\ triggers (stop (Some n) w) !! task t' = triggers w !! task t'))
  /\ (forall n, tasks w !! n = None ->
        stop (Some n) w = logger Warn "Task not found" [("name", LStr n)] w)
  /\ (tasks (stop None w) = ∅
      /\ getActiveTasks (stop None w) = []
      /\ (forall n t, tasks w !! n = Some t ->
            (exists tr tr',
               triggers w !! task t = Some tr
               /\ triggers (stop None w) !! task t = Some tr'
               /\ tr_running tr' = false
               /\ tr_schedule tr' = tr_schedule tr
               /\ tr_expression tr' = tr_expression tr
               /\ tr_timezone tr' = tr_timezone tr)
            /\ forall m, world m = stop None w ->
                 step validate path_resolve path_dirname m (EvTick (task t)) = m)
      /\ (forall h, (forall n t, tasks w !! n = Some t -> task t <> h) ->
            triggers (stop None w) !! h = triggers w !! h)).
Proof.
  cbv zeta.
  set (w := world (steps validate path_resolve path_dirname
                     (machine0 (world0 cfg t tz)) evs)).
  assert (wf_registry w) as Hwf.
  { apply steps_wf; [intros i f Hi; done|apply wf_registry_world0]. }
  destruct (stop_semantics_wf w Hwf) as (Hone & Hmissing & Hempty & Hnone & Hall & Hrest).
  clearbody w. split_and!; try done.
  - intros n t' Hn.
    destruct (Hone n t' Hn) as (H1 & H2 & (tr & tr' & H3 & H4 & H5 & H6) & H7 & H8).
    split_and!; try done.
    + by exists tr, tr'.
    + intros m Hm. cbn [step]. by rewrite Hm, H4, H5.
  - intros n t' Hn. destruct (Hall n t' Hn) as (tr & tr' & H3 & H4 & H5 & H6).
    split; [by exists tr, tr'|].
    intros m Hm. cbn [step]. by rewrite Hm, H4, H5.
Qed.

End Reachable.
(** ** Concrete runs *)

(** Two firings of one job in flight together: the trigger of [nightly]
    fires, the client connects, the prompt executor is called, and the
    trigger fires again before the executor answers. *)
Lemma two_firings_in_flight :
  isTaskActive "nightly" scheduled_world = true
  /\ inflight_count "nightly"
       (steps fields_validate (posix_resolve "/app") posix_dirname
          (machine0 scheduled_world)
          [EvTick 0; EvSettle 0 (Fulfilled VUndefined);
           EvSettle 0 (Fulfilled (VTools (Some []))); EvTick 0]) = 2
  /\ map firing_op
       (inflight
          (steps fields_validate (posix_resolve "/app") posix_dirname
             (machine0 scheduled_world)
             [EvTick 0; EvSettle 0 (Fulfilled VUndefined);
              EvSettle 0 (Fulfilled (VTools (Some []))); EvTick 0]))
     = [ExecutePrompt "Summarise the reports"; ExecutePrompt "Summarise the reports"].
Proof. vm_compute. done. Qed.

Lemma firings_are_not_serialized_witness :
  inflight_count "nightly"
    (step fields_validate (posix_resolve "/app") posix_dirname
       (step fields_validate (posix_resolve "/app") posix_dirname
          (machine0 scheduled_world) (EvTick 0)) (EvTick 0))
  = inflight_count "nightly"
      (step fields_validate (posix_resolve "/app") posix_dirname
         (machine0 scheduled_world) (EvTick 0)) + 1.
Proof.
  destruct (firings_are_not_serialized fields_validate (posix_resolve "/app")
              posix_dirname
              (step fields_validate (posix_resolve "/app") posix_dirname
                 (machine0 scheduled_world) (EvTick 0))) as [Htick _].
  apply (Htick 0 (trigger_of sample_world nightly) "nightly");
    vm_compute; reflexivity.
Defined.

(** [start] throws at [broken], and [nightly], before it in the batch,
    stays registered with its trigger running. *)
Lemma start_leaves_earlier_tasks :
  offender fields_validate sample_world [nightly; broken; hourly] 1 broken
  /\ (start fields_validate [nightly; broken; hourly] sample_world).1
     = Throw (SchedulerError "Invalid cron expression for schedule 'broken': not-a-cron")
  /\ isTaskActive "nightly"
       (start fields_validate [nightly; broken; hourly] sample_world).2 = true
  /\ triggers (start fields_validate [nightly; broken; hourly] sample_world).2
     = [trigger_of sample_world nightly].
Proof.
  split.
  - split; [done|]. split; [done|]. left. by vm_compute.
  - vm_compute. done.
Qed.

Lemma start_rejects_at_first_offender_witness :
  offender fields_validate sample_world [nightly; broken; hourly] 1 broken
  /\ exists pre off post e w',
       [nightly; broken; hourly] = pre ++ off :: post
       /\ enabled off = true
       /\ acceptable fields_validate (tasks w') off = false
       /\ start fields_validate [nightly; broken; hourly] sample_world = (Throw e, w')
       /\ err_class e = SchedulerErrorC
       /\ (forall s, s ∈ pre -> enabled s = true ->
             exists h, tasks w' !! name s = Some (MkTask s h)
                       /\ length (triggers sample_world) <= h
                       /\ triggers w' !! h = Some (trigger_of sample_world s))
       /\ (forall n, (forall s, s ∈ pre -> enabled s = true -> name s <> n) ->
             tasks w' !! n = tasks sample_world !! n)
       /\ triggers w'
          = triggers sample_world
            ++ map (trigger_of sample_world) (filter (fun s => enabled s = true) pre).
Proof.
  assert (offender fields_validate sample_world [nightly; broken; hourly] 1 broken) as H.
  { split; [reflexivity|]. split; [reflexivity|]. left. vm_compute. reflexivity. }
  split; [exact H|].
  exact (start_rejects_at_first_offender fields_validate sample_world
           [nightly; broken; hourly] 1 broken H).
Defined.

Lemma disabled_never_activated_witness :
  paused ∈ [nightly; paused; hourly] /\ enabled paused = false
  /\ isTaskActive "paused" (start fields_validate [nightly; paused; hourly] sample_world).2
     = false.
Proof.
  assert (paused ∈ [nightly; paused; hourly]) as Hin by (right; left).
  split; [exact Hin|]. split; [reflexivity|].
  destruct (disabled_never_activated fields_validate [nightly; paused; hourly]
              sample_world paused Hin eq_refl) as (_ & _ & Hactive & _).
  apply Hactive.
  - intros e He Hen Hname.
    apply elem_of_cons in He as [->|He]; [vm_compute in Hname; discriminate|].
    apply elem_of_cons in He as [->|He]; [vm_compute in Hen; discriminate|].
    apply elem_of_cons in He as [->|He]; [vm_compute in Hname; discriminate|].
    by apply elem_of_nil in He.
  - vm_compute. reflexivity.
Defined.

(** The write fails: the firing is logged as failed, and the success
    entry is not logged. *)
Lemma write_failure_is_logged_as_failed_firing :
  (run env_write_fails
     (executeSchedule (posix_resolve "/app") posix_dirname nightly)
     connected_world).1 = Ok tt
  /\ map log_message
       (drop (length (log connected_world))
          (log (run env_write_fails
                  (executeSchedule (posix_resolve "/app") posix_dirname nightly)
                  connected_world).2))
     = ["Executing scheduled task"; "Failed to save output";
        "Failed to execute scheduled task"]
  /\ drop (length (calls connected_world))
       (calls (run env_write_fails
                 (executeSchedule (posix_resolve "/app") posix_dirname nightly)
                 connected_world).2)
     = [CallExt (ExecutePrompt "Summarise the reports");
        CallExt (Mkdir "/app/outputs");
        CallExt (WriteFile "/app/outputs/nightly-2024-01-15T03-00-00-000Z.txt" "done")].
Proof. vm_compute. done. Qed.

Lemma save_failure_fails_the_firing_witness :
  outputPath nightly = Some "outputs/{name}-{timestamp}.txt"
  /\ after_readiness env_write_fails nightly connected_world
     = (Ok tt, (after_readiness env_write_fails nightly connected_world).2)
  /\ exists w' d,
       run env_write_fails
         (executeSchedule (posix_resolve "/app") posix_dirname nightly)
         connected_world = (Ok tt, w')
       /\ log w'
          = log (after_readiness env_write_fails nightly connected_world).2
            ++ [log_save_failed "nightly" "outputs/{name}-{timestamp}.txt"
                  (MkError ForeignErrorC "EACCES: permission denied");
                log_failed nightly
                  (SchedulerError "Failed to save output: EACCES: permission denied") d]
       /\ files w' = files (after_readiness env_write_fails nightly connected_world).2.
Proof.
  assert (after_readiness env_write_fails nightly connected_world
          = (Ok tt, (after_readiness env_write_fails nightly connected_world).2)) as H
    by (vm_compute; reflexivity).
  split; [reflexivity|]. split; [exact H|].
  apply (save_failure_fails_the_firing (posix_resolve "/app") posix_dirname
           env_write_fails nightly "outputs/{name}-{timestamp}.txt" "done"
           (MkError ForeignErrorC "EACCES: permission denied")
           connected_world _ eq_refl H eq_refl).
  right. split; intros; reflexivity.
Defined.

Lemma stop_semantics_witness :
  isTaskActive "nightly" (stop (Some "nightly") scheduled_world) = false
  /\ triggers (stop (Some "nightly") scheduled_world) !! 0
     = Some (MkTrigger nightly "0 3 * * *" "UTC" false)
  /\ isTaskActive "hourly" (stop (Some "nightly") scheduled_world) = true
  /\ triggers (stop (Some "nightly") scheduled_world) !! 1
     = Some (MkTrigger hourly "0 * * * *" "UTC" true)
  /\ getActiveTasks (stop None scheduled_world) = []
  /\ (exists tr, triggers (stop None scheduled_world) !! 1 = Some tr
                 /\ tr_running tr = false).
Proof.
  destruct (stop_semantics fields_validate (posix_resolve "/app") posix_dirname
              sample_config sample_time None [EvStart [nightly; hourly]])
    as (Hone & _ & _ & Hall & Hstopped & _).
  destruct (Hone "nightly" (MkTask nightly 0) eq_refl)
    as (_ & Hgone & (tr & tr' & Htr & Htr' & Hoff & Hs & He & Hz) & _ & Hframe & Hothers).
  destruct (Hothers "hourly" (MkTask hourly 1) ltac:(discriminate) eq_refl) as [Hh _].
  split; [exact Hgone|]. split.
  - injection Htr as <-. destruct tr' as [s e z r]. cbn in Hoff, Hs, He, Hz. subst.
    exact Htr'.
  - split; [unfold isTaskActive; apply has_true; eexists; exact Hh|].
    split; [exact (Hframe 1 ltac:(discriminate))|].
    split; [exact Hall|].
    destruct (Hstopped "hourly" (MkTask hourly 1) eq_refl)
      as [(tr1 & tr1' & _ & Htr1' & Hoff1 & _) _].
    exists tr1'. split; [exact Htr1'|exact Hoff1].
Defined.

Lemma connect_idempotent_witness :
  run env_ok connect scheduled_world = (Ok tt, connected_world)
  /\ isReady connected_world = true
  /\ exists w2,
       run env_connect_fails connect connected_world = (Ok tt, w2)
       /\ mcp w2 = mcp connected_world
       /\ processes w2 = [true].
Proof.
  assert (run env_ok connect scheduled_world = (Ok tt, connected_world)) as H
    by (vm_compute; reflexivity).
  split; [exact H|]. split; [vm_compute; reflexivity|].
  destruct (connect_idempotent env_ok env_connect_fails scheduled_world
              connected_world H) as (_ & w2 & Hrun & Hmcp & _ & Hproc & _).
  exists w2. split; [exact Hrun|]. split; [exact Hmcp|].
  rewrite Hproc. vm_compute. reflexivity.
Defined.

(** The name is not put in verbatim, and the file name has a colon.  A
    name that holds a placeholder is expanded in its turn, and so is a
    placeholder that a stray brace of the template and the name make up
    together. *)
Lemma name_with_dollar_and_colon :
  filename "outputs/{name}-{timestamp}.txt" (name costly) sample_time sample_time
  = "outputs/cost$:q1-2024-01-15T03-00-00-000Z.txt"
  /\ posix_resolve "/app"
       (filename "outputs/{name}-{timestamp}.txt" (name costly)
          sample_time sample_time)
     = "/app/outputs/cost$:q1-2024-01-15T03-00-00-000Z.txt"
  /\ ~ no_char ":" (posix_resolve "/app"
          (filename "outputs/{name}-{timestamp}.txt" (name costly)
             sample_time sample_time))
  /\ filename "outputs/{name}.txt" "{date}" sample_time sample_time
     = "outputs/2024-01-15.txt"
  /\ filename "outputs/{{name}.txt" "date}" sample_time sample_time
     = "outputs/2024-01-15.txt".
Proof. vm_compute. split_and!; try done. Qed.

Lemma output_path_expansion_witness :
  Forall plain_piece
    [Text "outputs/"; Placeholder "name"; Text "-"; Placeholder "timestamp"; Text ".txt"]
  /\ filename "outputs/{name}-{timestamp}.txt" "nightly" sample_time sample_time
     = "outputs/nightly-2024-01-15T03-00-00-000Z.txt"
  /\ filename "{job}/{name}-{date}-{name}.txt" "nightly" sample_time sample_time
     = "{job}/nightly-2024-01-15-{name}.txt"
  /\ posix_resolve "/app"
       (filename "outputs/{name}-{timestamp}.txt" "nightly" sample_time sample_time)
     = "/app/outputs/nightly-2024-01-15T03-00-00-000Z.txt"
  /\ no_char ":"
       (posix_resolve "/app"
          (filename "outputs/{name}-{timestamp}.txt" "nightly" sample_time sample_time)).
Proof.
  destruct (output_path_expansion (posix_resolve "/app") posix_dirname)
    as (Hexp & _ & _ & _ & _ & _ & _ & _ & Hresolve & Hpath).
  assert (Forall plain_piece
            [Text "outputs/"; Placeholder "name"; Text "-"; Placeholder "timestamp";
             Text ".txt"]) as H1.
  { repeat (apply Forall_cons_2 || apply Forall_nil_2); vm_compute; auto. }
  assert (Forall plain_piece
            [Placeholder "job"; Text "/"; Placeholder "name"; Text "-";
             Placeholder "date"; Text "-"; Placeholder "name"; Text ".txt"]) as H2.
  { repeat (apply Forall_cons_2 || apply Forall_nil_2); vm_compute; auto. }
  assert (plain_segments "app") as Hcwd.
  { unfold plain_segments. vm_compute. repeat constructor; discriminate. }
  assert (plain_segments
            (filename "outputs/{name}-{timestamp}.txt" "nightly" sample_time sample_time))
    as Hname.
  { unfold plain_segments. vm_compute. repeat constructor; discriminate. }
  split; [exact H1|]. split; [|split; [|split]].
  - exact (Hexp _ "nightly" sample_time sample_time H1 eq_refl eq_refl).
  - exact (Hexp _ "nightly" sample_time sample_time H2 eq_refl eq_refl).
  - exact (Hresolve "app" "outputs/{name}-{timestamp}.txt" "nightly"
             sample_time sample_time Hcwd Hname).
  - exact (Hpath "/app" "outputs/{name}-{timestamp}.txt" "nightly"
             sample_time sample_time eq_refl eq_refl eq_refl).
Defined.

(** A [".."] segment after the second placeholder: the resolved path
    has no occurrence of the placeholder left. *)
Lemma dot_dot_drops_a_later_occurrence :
  occurrences "{name}" "a/{name}/{name}/../x.txt" = 2
  /\ filename "a/{name}/{name}/../x.txt" "nightly" sample_time sample_time
     = "a/nightly/{name}/../x.txt"
  /\ posix_resolve "/app"
       (filename "a/{name}/{name}/../x.txt" "nightly" sample_time sample_time)
     = "/app/a/nightly/x.txt"
  /\ occurrences "{name}"
       (posix_resolve "/app"
          (filename "a/{name}/{name}/../x.txt" "nightly" sample_time sample_time)) = 0.
Proof. vm_compute. done. Qed.

Lemma later_occurrences_stay_witness :
  "{name}" ∈ placeholders
  /\ occurrences "{name}" "{name}/./{name}-{name}.txt" = 3
  /\ filename "{name}/./{name}-{name}.txt" "nightly" sample_time sample_time
     = "nightly/./{name}-{name}.txt"
  /\ (".." ∉ split_on "/"
               (filename "{name}/./{name}-{name}.txt" "nightly" sample_time sample_time) "")
  /\ 2 <= occurrences "{name}"
            (filename "{name}/./{name}-{name}.txt" "nightly" sample_time sample_time)
  /\ 2 <= occurrences "{name}"
            (posix_resolve "/app"
               (filename "{name}/./{name}-{name}.txt" "nightly" sample_time sample_time)).
Proof.
  assert ("{name}" ∈ placeholders) as Hin by left.
  assert (".." ∉ split_on "/"
            (filename "{name}/./{name}-{name}.txt" "nightly" sample_time sample_time) "")
    as Hdots.
  { assert (split_on "/"
              (filename "{name}/./{name}-{name}.txt" "nightly" sample_time sample_time) ""
            = ["nightly"; "."; "{name}-{name}.txt"]) as -> by (vm_compute; reflexivity).
    intros H. repeat (apply elem_of_cons in H as [H|H]; [discriminate H|]).
    by apply elem_of_nil in H. }
  split; [exact Hin|]. split; [vm_compute; reflexivity|].
  split; [vm_compute; reflexivity|]. split; [exact Hdots|].
  destruct later_occurrences_stay as (_ & Hcount & Hresolved).
  pose proof (Hcount "{name}" "{name}/./{name}-{name}.txt" "nightly"
                sample_time sample_time Hin) as H.
  pose proof (proj2 (Hresolved "/app" "{name}" "{name}/./{name}-{name}.txt" "nightly"
                       sample_time sample_time Hin Hdots)) as H'.
  change (occurrences "{name}" "{name}/./{name}-{name}.txt") with 3 in H, H'.
  split; lia.
Defined.


Lemma failures_are_contained_witness :
  Forall (fun ev => is_server_error ev = false)
    [EvTick 0; EvSettle 0 (Rejected (MkError ForeignErrorC "spawn npx ENOENT"))]
  /\ uncaught (steps fields_validate (posix_resolve "/app") posix_dirname
                 (machine0 scheduled_world)
                 [EvTick 0; EvSettle 0 (Rejected (MkError ForeignErrorC "spawn npx ENOENT"))])
     = []
  /\ uncaught (step fields_validate (posix_resolve "/app") posix_dirname
                 (steps fields_validate (posix_resolve "/app") posix_dirname
                    (machine0 scheduled_world) [EvTick 0])
                 (EvServerError 0 "spawn npx ENOENT"))
     = [MCPError "Failed to start MCP server"].
Proof.
  assert (Forall (fun ev => is_server_error ev = false)
            [EvTick 0; EvSettle 0 (Rejected (MkError ForeignErrorC "spawn npx ENOENT"))])
    as Hevs by (repeat constructor).
  destruct (failures_are_contained fields_validate (posix_resolve "/app") posix_dirname)
    as [_ H].
  split; [exact Hevs|]. split.
  - exact (proj1 (proj2 (H scheduled_world _)) Hevs).
  - destruct (H scheduled_world [EvTick 0]) as (_ & Hnone & Hstep).
    destruct (Hstep (EvServerError 0 "spawn npx ENOENT") ltac:(vm_compute; lia))
      as [Hun _].
    rewrite Hun, Hnone by (repeat constructor). reflexivity.
Defined.

(** * Further properties of the code *)

(** ** The tool connection *)

Lemma run_disconnect_full env w :
  exists w', run env disconnect w = (Ok tt, w')
    /\ mcp w' = mcp0 (config (mcp w))
    /\ processes w'
       = match serverProcess (mcp w) with
         | Some p => <[p := false]> (processes w)
         | None => processes w
         end
    /\ calls w' = calls w ++ close_calls (mcp w)
    /\ tasks w' = tasks w /\ triggers w' = triggers w
    /\ files w' = files w /\ dirs w' = dirs w
    /\ clock w' = clock w /\ drift w' = drift w /\ env_TZ w' = env_TZ w.
Proof.
  unfold disconnect, close_calls, mcp0. run_world.
  destruct (client (mcp w)) as [c|]; run_world;
    [destruct (env (ClientClose c)) as [[]|e]; run_world|];
    (destruct (transport (mcp w)) as [t|]; run_world;
     [destruct (env (TransportClose t)) as [[]|e']; run_world|]);
    (destruct (serverProcess (mcp w)) as [p|] eqn:Hp; run_world);
    (eexists; split; [reflexivity|]); world_simpl;
    rewrite <- ?app_assoc, ?app_nil_r; split_and!; rewrite ?Hp; done.
Qed.

(** X1.  [disconnect] always returns normally, whatever the two close
    calls answer: a rejected [client.close()] or [transport.close()] is
    logged and the method goes on.  It asks the client it holds, then the
    transport it holds, to close; it kills the server process it holds;
    and it leaves the client as a fresh one ([client], [transport],
    [serverProcess] null, no tools, not connected), so [isReady()] is
    false.  The scheduler's registry and triggers are not touched. *)
Theorem disconnect_always_returns env w :
  exists w', run env disconnect w = (Ok tt, w')
    /\ mcp w' = mcp0 (config (mcp w))
    /\ isReady w' = false
    /\ getAvailableTools w' = []
    /\ processes w'
       = match serverProcess (mcp w) with
         | Some p => <[p := false]> (processes w)
         | None => processes w
         end
    /\ calls w' = calls w ++ close_calls (mcp w)
    /\ tasks w' = tasks w /\ triggers w' = triggers w.
Proof.
  destruct (run_disconnect_full env w)
    as (w' & Hrun & Hmcp & Hp & Hc & Ht & Htr & _).
  exists w'. unfold isReady, getAvailableTools. rewrite Hmcp. cbn [mcp0 tools isConnected].
  rewrite map_to_list_empty. split_and!; done.
Qed.

Lemma discovered_snoc listed t m :
  discovered (listed ++ [t]) m = <[lt_name t := stored_tool t]> (discovered listed m).
Proof. unfold discovered. by rewrite foldl_app. Qed.

Lemma discovered_other listed m n :
  (forall t, t ∈ listed -> lt_name t <> n) -> discovered listed m !! n = m !! n.
Proof.
  induction listed as [|t listed IH] using rev_ind; intros H; [done|].
  rewrite discovered_snoc, lookup_insert_ne.
  - apply IH. intros t' Ht'. apply H. set_solver.
  - apply H. set_solver.
Qed.

Lemma discovered_last listed m i t :
  listed !! i = Some t ->
  (forall j t', i < j -> listed !! j = Some t' -> lt_name t' <> lt_name t) ->
  discovered listed m !! lt_name t = Some (stored_tool t).
Proof.
  induction listed as [|t' listed IH] using rev_ind; intros Hi Hlater; [done|].
  rewrite discovered_snoc.
  destruct (decide (i = length listed)) as [->|Hne].
  - rewrite lookup_app_r, Nat.sub_diag in Hi by lia. injection Hi as ->.
    by rewrite lookup_insert_eq.
  - assert (i < length listed).
    { apply lookup_lt_Some in Hi. rewrite length_app in Hi. simpl in Hi. lia. }
    rewrite lookup_app_l in Hi by done.
    rewrite lookup_insert_ne.
    + apply IH; [done|]. intros j t2 Hj Ht2. apply (Hlater j); [done|].
      by apply lookup_app_l_Some.
    + apply (Hlater (length listed)); [done|].
      by rewrite lookup_app_r, Nat.sub_diag by lia.
Qed.

Lemma run_discoverTools_loop_full env listed : forall w,
  exists w', run env (discoverTools_loop listed) w = (Ok tt, w')
    /\ mcp w'
       = MkMCP (config (mcp w)) (client (mcp w)) (transport (mcp w))
               (serverProcess (mcp w)) (discovered listed (tools (mcp w)))
               (isConnected (mcp w))
    /\ processes w' = processes w /\ calls w' = calls w
    /\ tasks w' = tasks w /\ triggers w' = triggers w
    /\ files w' = files w /\ dirs w' = dirs w.
Proof.
  induction listed as [|t listed IH]; intros w; cbn [discoverTools_loop].
  - rewrite run_Ret. eexists. split; [done|]. by destruct w as [? ? []].
  - run_world.
    match goal with |- context [run env (discoverTools_loop listed) ?w1] =>
      destruct (IH w1) as (w' & -> & Hm & Hrest) end.
    exists w'. split; [done|]. revert Hm Hrest. world_simpl. intros -> Hrest.
    done.
Qed.

Lemma insert_snoc_length {A} (l : list A) (x y : A) :
  <[length l := y]> (l ++ [x]) = l ++ [y].
Proof.
  rewrite insert_app_r_alt, Nat.sub_diag by lia. done.
Qed.

Lemma run_connect_full env w :
  isConnected (mcp w) = false ->
  let p := length (processes w) in
  let t := length (transports w) in
  let c := length (clients w) in
  let failed r w' after :=
    r = Throw (MCPError "Failed to connect to MCP server")
    /\ mcp w' = mcp0 (config (mcp w))
    /\ processes w' = processes w ++ [false]
    /\ calls w'
       = calls w ++ CallConnect :: CallExt (ClientConnect c t)
                      :: after ++ [CallExt (ClientClose c); CallExt (TransportClose t)] in
  exists r w',
    run env connect w = (r, w')
    /\ tasks w' = tasks w /\ triggers w' = triggers w
    /\ files w' = files w /\ dirs w' = dirs w
    /\ match env (ClientConnect c t) with
       | Throw _ => failed r w' []
       | Ok _ =>
           match env (ClientListTools c) with
           | Throw _ => failed r w' [CallExt (ClientListTools c)]
           | Ok listed =>
               r = Ok tt
               /\ mcp w'
                  = MkMCP (config (mcp w)) (Some c) (Some t) (Some p)
                          (discovered (default [] listed) (tools (mcp w))) true
               /\ processes w' = processes w ++ [true]
               /\ calls w'
                  = calls w ++ [CallConnect; CallExt (ClientConnect c t);
                                CallExt (ClientListTools c)]
           end
       end.
Proof.
  intros Hc. cbv zeta. unfold connect, discoverTools. run_world.
  rewrite Hc. run_world.
  destruct (env (ClientConnect _ _)) as [[]|e]; run_world.
  - destruct (env (ClientListTools _)) as [[listed|]|e]; run_world.
    + match goal with |- context [run env (discoverTools_loop listed) ?w1] =>
        destruct (run_discoverTools_loop_full env listed w1)
          as (w' & -> & Hm & Hp & Hcalls & Ht & Htr & Hf & Hd) end.
      run_world. eexists _, _. split; [reflexivity|]. world_simpl.
      revert Hm Hp Hcalls Ht Htr Hf Hd. world_simpl. intros -> -> -> -> -> -> ->.
      world_simpl. rewrite <- !app_assoc. split_and!; done.
    + eexists _, _. split; [reflexivity|]. world_simpl.
      rewrite <- !app_assoc. split_and!; done.
    + match goal with |- context [run env disconnect ?w1] =>
        destruct (run_disconnect_full env w1)
          as (w' & -> & Hm & Hp & Hcalls & Ht & Htr & Hf & Hd & _) end.
      run_world. eexists _, _. split; [reflexivity|].
      revert Hm Hp Hcalls Ht Htr Hf Hd. unfold close_calls. world_simpl.
      intros -> -> -> -> -> -> ->. rewrite insert_snoc_length, <- !app_assoc.
      split_and!; done.
  - match goal with |- context [run env disconnect ?w1] =>
      destruct (run_disconnect_full env w1)
        as (w' & -> & Hm & Hp & Hcalls & Ht & Htr & Hf & Hd & _) end.
    run_world. eexists _, _. split; [reflexivity|].
    revert Hm Hp Hcalls Ht Htr Hf Hd. unfold close_calls. world_simpl.
    intros -> -> -> -> -> -> ->. rewrite insert_snoc_length, <- !app_assoc.
    split_and!; done.
Qed.

Lemma connect_frame env w :
  tasks (run env connect w).2 = tasks w /\ triggers (run env connect w).2 = triggers w
  /\ files (run env connect w).2 = files w /\ dirs (run env connect w).2 = dirs w.
Proof.
  destruct (isConnected (mcp w)) eqn:Hc.
  - unfold connect. run_world. rewrite Hc. run_world. done.
  - destruct (run_connect_full env w Hc) as (r & w' & -> & H1 & H2 & H3 & H4 & _).
    done.
Qed.

(** X2.  When [connect] is entered on a client that is not connected and
    [client.connect] or the tool listing is rejected, [connect] throws
    the [MCPError] "Failed to connect to MCP server" (whatever the
    original error was), after cleaning up through [disconnect]: the
    client and the transport it had just created are asked to close, the
    server process it had just spawned is killed, and the client is left
    as a fresh one, so [isReady()] is false. *)
Theorem failed_connect_cleans_up (env : Env) w e :
  let c := length (clients w) in
  let t := length (transports w) in
  isConnected (mcp w) = false ->
  env (ClientConnect c t) = Throw e
  \/ (env (ClientConnect c t) = Ok tt /\ env (ClientListTools c) = Throw e) ->
  exists w',
    run env connect w = (Throw (MCPError "Failed to connect to MCP server"), w')
    /\ mcp w' = mcp0 (config (mcp w))
    /\ isReady w' = false
    /\ processes w' = processes w ++ [false]
    /\ drop (length (calls w)) (calls w')
       = CallConnect :: CallExt (ClientConnect c t)
           :: match env (ClientConnect c t) with
              | Ok _ => [CallExt (ClientListTools c)]
              | Throw _ => []
              end
           ++ [CallExt (ClientClose c); CallExt (TransportClose t)]
    /\ tasks w' = tasks w /\ triggers w' = triggers w.
Proof.
  cbv zeta. intros Hc Hfail.
  destruct (run_connect_full env w Hc) as (r & w' & Hrun & Ht & Htr & _ & _ & H).
  cbv zeta in H. exists w'.
  assert (r = Throw (MCPError "Failed to connect to MCP server")
          /\ mcp w' = mcp0 (config (mcp w))
          /\ processes w' = processes w ++ [false]
          /\ calls w'
             = calls w ++ CallConnect
                 :: CallExt (ClientConnect (length (clients w)) (length (transports w)))
                 :: match env (ClientConnect (length (clients w))
                                             (length (transports w))) with
                    | Ok _ => [CallExt (ClientListTools (length (clients w)))]
                    | Throw _ => []
                    end
                 ++ [CallExt (ClientClose (length (clients w)));
                     CallExt (TransportClose (length (transports w)))])
    as (-> & Hm & Hp & Hcalls).
  { destruct Hfail as [Hf|[Hok Hf]].
    - by rewrite Hf in H |- *.
    - rewrite Hok in H |- *. by rewrite Hf in H. }
  rewrite Hcalls, drop_app_length. unfold isReady. rewrite Hm.
  split_and!; done.
Qed.

(** X3.  When [connect] is entered on a client that is not connected and
    both [client.connect] and the tool listing succeed, [connect]
    returns, the client is ready and holds the client, transport and
    server process just created, and the tools are those of the
    listing: a listed tool that no later entry of the listing names
    again is stored under its name with its schema, an absent
    description read as the empty string, and [getAvailableTools]
    returns it; for a name the listing does not mention, what [tools]
    held is kept.  A listing without a [tools] field changes nothing. *)
Theorem connect_discovers_tools (env : Env) w listed :
  let c := length (clients w) in
  let t := length (transports w) in
  isConnected (mcp w) = false ->
  env (ClientConnect c t) = Ok tt ->
  env (ClientListTools c) = Ok listed ->
  exists w',
    run env connect w = (Ok tt, w')
    /\ isReady w' = true
    /\ client (mcp w') = Some c /\ transport (mcp w') = Some t
    /\ serverProcess (mcp w') = Some (length (processes w))
    /\ processes w' = processes w ++ [true]
    /\ (forall i tool, default [] listed !! i = Some tool ->
          (forall j later, i < j -> default [] listed !! j = Some later ->
             lt_name later <> lt_name tool) ->
          tools (mcp w') !! lt_name tool
          = Some (MkTool (lt_name tool) (default "" (lt_description tool))
                         (lt_inputSchema tool))
          /\ MkTool (lt_name tool) (default "" (lt_description tool))
                    (lt_inputSchema tool) ∈ getAvailableTools w')
    /\ (forall n, (forall tool, tool ∈ default [] listed -> lt_name tool <> n) ->
          tools (mcp w') !! n = tools (mcp w) !! n)
    /\ (listed = None -> tools (mcp w') = tools (mcp w)).
Proof.
  cbv zeta. intros Hc Hok Hlist.
  destruct (run_connect_full env w Hc) as (r & w' & Hrun & _ & _ & _ & _ & H).
  cbv zeta in H. rewrite Hok, Hlist in H. destruct H as (-> & Hm & Hp & _).
  exists w'. unfold isReady, getAvailableTools. rewrite Hm.
  cbn [client transport serverProcess tools isConnected].
  split_and!; try done.
  - intros i tool Hi Hlater.
    pose proof (discovered_last _ (tools (mcp w)) i tool Hi Hlater) as Hl.
    split; [done|].
    apply list_elem_of_fmap. exists (lt_name tool, stored_tool tool).
    split; [done|]. by apply elem_of_map_to_list.
  - intros n Hn. by apply discovered_other.
  - by intros ->.
Qed.

(** ** [start] on a batch without offender *)

Section StartSuccess.

Variable validate : string -> bool.

Lemma all_accepted_intro l : forall m h,
  (forall i d, l !! i = Some d -> enabled d = true ->
     validate (cron d) = true /\ m !! name d = None
     /\ forall j e, j <> i -> l !! j = Some e -> enabled e = true -> name e <> name d) ->
  all_accepted validate m h l = true.
Proof.
  induction l as [|s l IH]; intros m h H; [done|]. cbn [all_accepted].
  destruct (enabled s) eqn:Hs.
  - destruct (H 0 s eq_refl Hs) as (Hv & Hm & Hothers).
    apply andb_true_intro. split.
    + unfold acceptable. rewrite Hv, (proj2 (has_false m (name s)) Hm). done.
    + apply IH. intros i d Hi Hd.
      destruct (H (S i) d Hi Hd) as (Hv' & Hm' & Hothers').
      split; [done|]. split.
      * rewrite lookup_insert_ne; [done|].
        apply (Hothers' 0 s); [lia|done|done].
      * intros j e Hj He Hen. apply (Hothers' (S j) e); [lia|done|done].
  - apply IH. intros i d Hi Hd.
    destruct (H (S i) d Hi Hd) as (Hv' & Hm' & Hothers').
    split; [done|]. split; [done|].
    intros j e Hj He Hen. apply (Hothers' (S j) e); [lia|done|done].
Qed.

Lemma no_offender_all_accepted w batch :
  (forall i d, ~ offender validate w batch i d) ->
  all_accepted validate (tasks w) (length (triggers w)) batch = true.
Proof.
  intros H. apply all_accepted_intro. intros i d Hi Hd.
  split; [|split].
  - destruct (validate (cron d)) eqn:Hv; [done|].
    destruct (H i d). split; [done|]. split; [done|]. by left.
  - destruct (tasks w !! name d) eqn:Hn; [|done].
    destruct (H i d). split; [done|]. split; [done|]. right; left.
    unfold isTaskActive. apply has_true. by rewrite Hn.
  - intros j e Hj He Hen Hname.
    destruct (H i d). split; [done|]. split; [done|]. right; right.
    by exists j, e.
Qed.

Lemma start_loop_accepts l : forall w,
  all_accepted validate (tasks w) (length (triggers w)) l = true ->
  exists w',
    start_loop validate l w = (Ok tt, w')
    /\ tasks w' = registry_after (tasks w) (length (triggers w)) l
    /\ triggers w'
       = triggers w ++ map (trigger_of w) (filter (fun s => enabled s = true) l)
    /\ env_TZ w' = env_TZ w.
Proof.
  induction l as [|s l IH]; intros w H; cbn [start_loop all_accepted registry_after] in *.
  - exists w. by rewrite app_nil_r.
  - destruct (enabled s) eqn:Hs.
    + apply andb_prop in H as [Hacc Hrest].
      destruct (scheduleTask_accepts validate s w Hacc) as (w1 & -> & Ht & Htr & Htz).
      destruct (IH w1) as (w' & -> & Ht' & Htr' & Htz').
      { rewrite Ht, Htr, length_app. cbn [length]. by rewrite Nat.add_1_r. }
      exists w'. split; [done|].
      rewrite Ht', Htr', Ht, Htr, length_app, Htz', Htz. cbn [length].
      rewrite Nat.add_1_r, filter_cons_True by done. cbn [map].
      rewrite <- app_assoc. split_and!; try done.
      unfold trigger_of. by rewrite Htz.
    + destruct (IH (logger Debug "Skipping disabled schedule"
                      [("name", LStr (name s))] w) H) as (w' & -> & Ht' & Htr' & Htz').
      exists w'. split; [done|]. rewrite filter_cons_False by (by rewrite Hs).
      done.
Qed.

Lemma registry_after_size l : forall m h,
  all_accepted validate m h l = true ->
  size (registry_after m h l) = size m + length (filter (fun s => enabled s = true) l).
Proof.
  induction l as [|s l IH]; intros m h H; cbn [all_accepted registry_after] in *.
  - by rewrite Nat.add_0_r.
  - destruct (enabled s) eqn:Hs.
    + apply andb_prop in H as [Hacc Hrest].
      rewrite IH by done. rewrite filter_cons_True by done. cbn [length].
      rewrite map_size_insert_None; [lia|].
      unfold acceptable in Hacc. apply andb_prop in Hacc as [Hn _].
      apply has_false. by destruct (has m (name s)).
    + rewrite filter_cons_False by (by rewrite Hs). by apply IH.
Qed.

Lemma getActiveTasks_length w : length (getActiveTasks w) = size (tasks w).
Proof. unfold getActiveTasks. by rewrite length_map, length_map_to_list. Qed.

(** X4.  When no definition of the batch is an offender (every enabled
    one has a valid cron expression and a name that is neither
    registered nor that of another enabled definition of the batch),
    [start] returns normally and every enabled definition is active
    afterwards, registered under its name with a running trigger of its
    own, created for it with its cron expression; names of no enabled
    definition keep what they had; [getActiveTasks] has one more entry
    per enabled definition; and the last log entry reports the number
    of active tasks. *)
Theorem start_registers_every_enabled_definition w batch :
  (forall i d, ~ offender validate w batch i d) ->
  exists w',
    start validate batch w = (Ok tt, w')
    /\ (forall s, s ∈ batch -> enabled s = true ->
          isTaskActive (name s) w' = true
          /\ exists h, tasks w' !! name s = Some (MkTask s h)
               /\ length (triggers w) <= h
               /\ triggers w' !! h = Some (trigger_of w s))
    /\ (forall n, (forall s, s ∈ batch -> enabled s = true -> name s <> n) ->
          tasks w' !! n = tasks w !! n)
    /\ length (getActiveTasks w')
       = length (getActiveTasks w) + length (filter (fun s => enabled s = true) batch)
    /\ triggers w'
       = triggers w ++ map (trigger_of w) (filter (fun s => enabled s = true) batch)
    /\ last (log w')
       = Some (MkLog Info "Scheduler started"
                 [("activeTasksCount", LNum (Z.of_nat (length (getActiveTasks w'))));
                  ("totalSchedules", LNum (Z.of_nat (length batch)))]).
Proof.
  intros Hno. pose proof (no_offender_all_accepted w batch Hno) as Hall.
  unfold start.
  set (w0 := logger Info "Starting scheduler"
               [("schedulesCount", LNum (Z.of_nat (length batch)))] w).
  destruct (start_loop_accepts batch w0 Hall) as (w1 & -> & Ht & Htr & Htz).
  change (tasks w0) with (tasks w) in Ht. change (triggers w0) with (triggers w) in Ht, Htr.
  change (trigger_of w0) with (trigger_of w) in Htr.
  eexists. split; [reflexivity|].
  rewrite !getActiveTasks_length. unfold isTaskActive. world_simpl. rewrite Ht, Htr.
  split_and!.
  - intros s Hs Hen.
    destruct (registry_after_registered validate batch _ _ Hall s Hs Hen) as (k & Hk & Hreg).
    split; [apply has_true; by rewrite Hreg|].
    eexists. split; [exact Hreg|]. split; [lia|].
    rewrite lookup_app_r, Nat.add_comm, Nat.add_sub by lia.
    by rewrite list_lookup_fmap, Hk.
  - intros n Hn. by apply registry_after_other.
  - by apply registry_after_size.
  - done.
  - by rewrite last_snoc.
Qed.

End StartSuccess.

(** ** The registry and the triggers along the event loop *)

Lemma registry_consistent_ext validate w w' :
  tasks w' = tasks w -> triggers w' = triggers w ->
  registry_consistent validate w -> registry_consistent validate w'.
Proof. unfold registry_consistent. by intros -> ->. Qed.

Lemma registry_consistent_handles validate w n1 n2 t1 t2 :
  registry_consistent validate w ->
  tasks w !! n1 = Some t1 -> tasks w !! n2 = Some t2 -> task t1 = task t2 -> n1 = n2.
Proof.
  intros [Hreg _] H1 H2 Heq.
  destruct (Hreg _ _ H1) as (<- & _ & _ & tr1 & Htr1 & Hs1 & _).
  destruct (Hreg _ _ H2) as (<- & _ & _ & tr2 & Htr2 & Hs2 & _).
  rewrite Heq, Htr2 in Htr1. injection Htr1 as <-. by rewrite <- Hs1, <- Hs2.
Qed.

Lemma registry_consistent_world0 validate cfg t tz :
  registry_consistent validate (world0 cfg t tz).
Proof. split; [intros n t' H|intros h tr H]; cbn in H; by rewrite ?lookup_empty in H. Qed.

Lemma registry_consistent_scheduleTask validate s w :
  enabled s = true ->
  registry_consistent validate w ->
  registry_consistent validate (scheduleTask validate s w).2.
Proof.
  intros Hen Hrc. destruct (acceptable validate (tasks w) s) eqn:Hacc.
  - destruct (scheduleTask_accepts validate s w Hacc) as (w' & -> & Ht & Htr & _).
    cbn [snd]. destruct Hrc as [Hreg Hrun].
    unfold acceptable in Hacc. apply andb_prop in Hacc as [Hfresh Hvalid].
    assert (tasks w !! name s = None) as Hnone
      by (apply has_false; by destruct (has (tasks w) (name s))).
    split.
    + intros n t. rewrite Ht. intros [[<- <-]|[Hne Hn]]%lookup_insert_Some.
      * cbn [schedule task]. split_and!; try done.
        exists (trigger_of w s). rewrite Htr.
        by rewrite lookup_app_r, Nat.sub_diag by lia.
      * destruct (Hreg _ _ Hn) as (? & ? & ? & tr & Hl & ?).
        split_and!; try done. exists tr. rewrite Htr.
        split; [|done]. by apply lookup_app_l_Some.
    + intros h tr. rewrite Htr, Ht.
      intros [Hl|[Hge Hl]]%lookup_app_Some Hr.
      * pose proof (Hrun _ _ Hl Hr) as Hold.
        rewrite lookup_insert_ne; [done|]. intros Heq. by rewrite <- Heq, Hnone in Hold.
      * destruct (h - length (triggers w)) as [|k] eqn:Hk; [|done].
        injection Hl as <-. cbn [trigger_of tr_schedule].
        rewrite lookup_insert_eq. do 2 f_equal. lia.
  - destruct (scheduleTask_rejects validate s w Hacc) as (e & -> & _). done.
Qed.

Lemma registry_consistent_start_loop validate l : forall w,
  registry_consistent validate w ->
  registry_consistent validate (start_loop validate l w).2.
Proof.
  induction l as [|s l IH]; intros w Hrc; cbn [start_loop]; [done|].
  destruct (enabled s) eqn:Hen.
  - pose proof (registry_consistent_scheduleTask validate s w Hen Hrc) as H1.
    destruct (scheduleTask validate s w) as [[[]|e] w1]; [by apply IH|done].
  - apply IH. by apply (registry_consistent_ext validate w).
Qed.

Lemma registry_consistent_start validate l w :
  registry_consistent validate w ->
  registry_consistent validate (start validate l w).2.
Proof.
  intros Hrc. unfold start.
  pose proof (registry_consistent_start_loop validate l
                (logger Info "Starting scheduler"
                   [("schedulesCount", LNum (Z.of_nat (length l)))] w)) as H.
  destruct (start_loop validate l _) as [[[]|e] w1]; cbn [snd] in *.
  - apply (registry_consistent_ext validate w1); [done|done|].
    apply H. by apply (registry_consistent_ext validate w).
  - apply H. by apply (registry_consistent_ext validate w).
Qed.

Lemma stop_one_found n t w :
  tasks w !! n = Some t ->
  tasks (stop (Some n) w) = delete n (tasks w)
  /\ triggers (stop (Some n) w) = triggers (trigger_stop (task t) w).
Proof.
  intros H. unfold stop. rewrite H. world_simpl. by rewrite trigger_stop_tasks.
Qed.

Lemma stop_one_missing n w :
  tasks w !! n = None ->
  tasks (stop (Some n) w) = tasks w /\ triggers (stop (Some n) w) = triggers w.
Proof. intros H. unfold stop. by rewrite H. Qed.

Lemma stop_all_found w :
  tasks (stop None w) = ∅
  /\ forall h,
       triggers (stop None w) !! h
       = if bool_decide (h ∈ map (fun e : string * ScheduledTask => task e.2)
                               (map_to_list (tasks w)))
         then stopped <$> triggers w !! h
         else triggers w !! h.
Proof.
  unfold stop. world_simpl. split; [done|]. intros h. apply stop_all_loop_lookup.
Qed.

Lemma registry_consistent_stop validate n w :
  registry_consistent validate w -> registry_consistent validate (stop n w).
Proof.
  intros Hrc. pose proof Hrc as [Hreg Hrun]. destruct n as [n|].
  - destruct (tasks w !! n) as [t|] eqn:Hn.
    + destruct (stop_one_found n t w Hn) as [Ht Htr]. split.
      * intros n' t'. rewrite Ht, Htr. intros [Hne Hn']%lookup_delete_Some.
        destruct (Hreg _ _ Hn') as (? & ? & ? & tr & Hl & ?).
        split_and!; try done. exists tr. split; [|done].
        rewrite trigger_stop_other; [done|]. intros Heq.
        by apply Hne, (registry_consistent_handles validate w n n' t t').
      * intros h tr. rewrite Ht, Htr. intros Hl Hr.
        destruct (decide (h = task t)) as [->|Hne].
        -- rewrite trigger_stop_same in Hl.
           destruct (triggers w !! task t); [|done]. injection Hl as <-. done.
        -- rewrite trigger_stop_other in Hl by done.
           pose proof (Hrun _ _ Hl Hr) as Hold.
           rewrite lookup_delete_ne; [done|]. intros Heq.
           rewrite <- Heq, Hn in Hold. by injection Hold as ->.
    + destruct (stop_one_missing n w Hn) as [Ht Htr].
      by apply (registry_consistent_ext validate w).
  - destruct (stop_all_found w) as [Ht Htr]. split.
    + intros n t. by rewrite Ht, lookup_empty.
    + intros h tr. rewrite Htr. case_bool_decide as Hin.
      * destruct (triggers w !! h); [|done]. intros [= <-]. done.
      * intros Hl Hr. destruct Hin.
        apply list_elem_of_fmap. eexists (_, _). split; [|apply elem_of_map_to_list, (Hrun _ _ Hl Hr)].
        done.
Qed.

Lemma trigger_continues_refl t : trigger_continues t t.
Proof. by repeat split. Qed.

Lemma trigger_continues_stopped t : trigger_continues t (stopped t).
Proof. by repeat split. Qed.

Lemma trigger_continues_trans t1 t2 t3 :
  trigger_continues t1 t2 -> trigger_continues t2 t3 -> trigger_continues t1 t3.
Proof.
  intros (H1 & H2 & H3 & H4) (H1' & H2' & H3' & H4').
  repeat split; try congruence. auto.
Qed.

Lemma stop_triggers n w h t :
  triggers w !! h = Some t ->
  exists t', triggers (stop n w) !! h = Some t' /\ trigger_continues t t'.
Proof.
  intros Hl. destruct n as [n|].
  - destruct (tasks w !! n) as [t0|] eqn:Hn.
    + destruct (stop_one_found n t0 w Hn) as [_ ->].
      destruct (decide (h = task t0)) as [->|Hne].
      * rewrite trigger_stop_same, Hl. eexists. split; [done|].
        apply trigger_continues_stopped.
      * rewrite trigger_stop_other, Hl by done. eexists. split; [done|].
        apply trigger_continues_refl.
    + destruct (stop_one_missing n w Hn) as [_ ->]. exists t.
      split; [done|apply trigger_continues_refl].
  - destruct (stop_all_found w) as [_ ->]. rewrite Hl. case_bool_decide.
    + eexists. split; [done|]. apply trigger_continues_stopped.
    + eexists. split; [done|]. apply trigger_continues_refl.
Qed.

Section LoopInvariants.

Variable validate : string -> bool.
Variable path_resolve : string -> string.
Variable path_dirname : string -> string.

Lemma registry_consistent_step m ev :
  inflight_ok m -> registry_consistent validate (world m) ->
  registry_consistent validate (world (step validate path_resolve path_dirname m ev)).
Proof.
  intros Hin Hrc.
  destruct (step_keeps validate path_resolve path_dirname m ev Hin) as (_ & _ & Hk).
  destruct ev as [h|i o|l|n|d|p message|p data].
  - destruct Hk as [Ht Htr]. by apply (registry_consistent_ext validate (world m)).
  - destruct Hk as [Ht Htr]. by apply (registry_consistent_ext validate (world m)).
  - by apply registry_consistent_start.
  - by apply registry_consistent_stop.
  - by apply (registry_consistent_ext validate (world m)).
  - destruct Hk as [Ht Htr]. by apply (registry_consistent_ext validate (world m)).
  - destruct Hk as [Ht Htr]. by apply (registry_consistent_ext validate (world m)).
Qed.

Lemma registry_consistent_steps evs : forall m,
  inflight_ok m -> registry_consistent validate (world m) ->
  registry_consistent validate (world (steps validate path_resolve path_dirname m evs)).
Proof.
  induction evs as [|ev evs IH]; intros m Hin Hrc; [done|].
  apply IH.
  - by apply step_keeps.
  - by apply registry_consistent_step.
Qed.

Lemma triggers_step m ev h t :
  inflight_ok m ->
  triggers (world m) !! h = Some t ->
  exists t', triggers (world (step validate path_resolve path_dirname m ev)) !! h = Some t'
    /\ trigger_continues t t'.
Proof.
  intros Hin Hl.
  destruct (step_keeps validate path_resolve path_dirname m ev Hin) as (_ & _ & Hk).
  destruct ev as [h'|i o|l|n|d|p message|p data].
  - destruct Hk as [_ ->]. exists t. split; [done|apply trigger_continues_refl].
  - destruct Hk as [_ ->]. exists t. split; [done|apply trigger_continues_refl].
  - cbn [step world].
    destruct (start_outcome validate l (world m)) as (pre & rest & _ & _ & ->).
    exists t. split; [by apply lookup_app_l_Some|apply trigger_continues_refl].
  - cbn [step world]. by apply stop_triggers.
  - exists t. split; [done|apply trigger_continues_refl].
  - destruct Hk as [_ ->]. exists t. split; [done|apply trigger_continues_refl].
  - destruct Hk as [_ ->]. exists t. split; [done|apply trigger_continues_refl].
Qed.

Lemma triggers_steps evs : forall m h t,
  inflight_ok m ->
  triggers (world m) !! h = Some t ->
  exists t', triggers (world (steps validate path_resolve path_dirname m evs)) !! h = Some t'
    /\ trigger_continues t t'.
Proof.
  induction evs as [|ev evs IH]; intros m h t Hin Hl.
  - exists t. split; [done|apply trigger_continues_refl].
  - destruct (triggers_step m ev h t Hin Hl) as (t1 & Hl1 & Hc1).
    destruct (IH (step validate path_resolve path_dirname m ev) h t1) as (t2 & Hl2 & Hc2);
      [by apply step_keeps|done|].
    exists t2. split; [done|]. by apply (trigger_continues_trans t t1 t2).
Qed.

Lemma inflight_ok_machine0 w : inflight_ok (machine0 w).
Proof. intros i f H. done. Qed.

(** X5.  Along any sequence of events from a fresh scheduler, the
    registry and the triggers of node-cron agree: a task is registered
    under the name of its schedule, which is enabled and has a valid
    cron expression, and it holds a running trigger made for that
    schedule; conversely a trigger that is running is the one held by
    the task registered under the name of its schedule.  So a name is
    active exactly when a running trigger carries a schedule of that
    name, and no two running triggers carry the same name. *)
Theorem registry_matches_running_triggers cfg t0 tz evs :
  let w := world (steps validate path_resolve path_dirname
                    (machine0 (world0 cfg t0 tz)) evs) in
  registry_consistent validate w
  /\ (forall n, isTaskActive n w = true
        <-> exists h tr, triggers w !! h = Some tr /\ tr_running tr = true
              /\ name (tr_schedule tr) = n)
  /\ (forall h1 h2 tr1 tr2,
        triggers w !! h1 = Some tr1 -> tr_running tr1 = true ->
        triggers w !! h2 = Some tr2 -> tr_running tr2 = true ->
        name (tr_schedule tr1) = name (tr_schedule tr2) -> h1 = h2).
Proof.
  cbv zeta.
  pose proof (registry_consistent_steps evs (machine0 (world0 cfg t0 tz))
                (inflight_ok_machine0 _) (registry_consistent_world0 validate cfg t0 tz))
    as Hrc.
  set (w := world _) in *. clearbody w. split; [done|].
  destruct Hrc as [Hreg Hrun]. split_and!.
  - intros n. unfold isTaskActive. rewrite has_true. split.
    + intros [t Ht]. destruct (Hreg _ _ Ht) as (Hn & _ & _ & tr & Hl & Hs & _ & Hr).
      exists (task t), tr. by rewrite Hs.
    + intros (h & tr & Hl & Hr & <-). rewrite (Hrun _ _ Hl Hr). done.
  - intros h1 h2 tr1 tr2 Hl1 Hr1 Hl2 Hr2 Hname.
    pose proof (Hrun _ _ Hl1 Hr1) as H1. pose proof (Hrun _ _ Hl2 Hr2) as H2.
    rewrite Hname, H2 in H1. by injection H1.
Qed.

Lemma getActiveTasks_names w :
  registry_consistent validate w ->
  map info_name (getActiveTasks w) = (map_to_list (tasks w)).*1.
Proof.
  intros [Hreg _]. unfold getActiveTasks. rewrite <- list_fmap_compose.
  apply list_fmap_ext. intros k [n t] Hin%list_elem_of_lookup_2%elem_of_map_to_list.
  cbn. by destruct (Hreg n t Hin) as (-> & _).
Qed.

(** X21.  [getActiveTasks] and [isTaskActive] agree along any sequence
    of events from a fresh scheduler: a name is active exactly when
    [getActiveTasks] has an entry of that name, it has one entry per
    active name, every entry carries a cron expression node-cron
    accepts, and [nextRun] is [null] in every entry. *)
Theorem active_tasks_are_listed cfg t0 tz evs :
  let w := world (steps validate path_resolve path_dirname
                    (machine0 (world0 cfg t0 tz)) evs) in
  (forall n, isTaskActive n w = true
     <-> exists i, i ∈ getActiveTasks w /\ info_name i = n)
  /\ NoDup (map info_name (getActiveTasks w))
  /\ (forall i, i ∈ getActiveTasks w ->
        validate (info_cron i) = true /\ info_nextRun i = None).
Proof.
  cbv zeta.
  pose proof (registry_consistent_steps evs (machine0 (world0 cfg t0 tz))
                (inflight_ok_machine0 _) (registry_consistent_world0 validate cfg t0 tz))
    as Hrc.
  set (w := world _) in *. clearbody w. pose proof Hrc as [Hreg _]. split_and!.
  - intros n. unfold isTaskActive. rewrite has_true. split.
    + intros [t Ht]. exists (MkInfo (name (schedule t)) (cron (schedule t)) None).
      split; [|by destruct (Hreg n t Ht) as (-> & _)].
      unfold getActiveTasks. apply list_elem_of_fmap. exists (n, t).
      split; [done|]. by apply elem_of_map_to_list.
    + intros (i & Hi & <-). unfold getActiveTasks in Hi.
      apply list_elem_of_fmap in Hi as ([n t] & -> & Hin%elem_of_map_to_list).
      cbn. destruct (Hreg n t Hin) as (-> & _). by eexists.
  - rewrite getActiveTasks_names by done. apply NoDup_fst_map_to_list.
  - intros i Hi. unfold getActiveTasks in Hi.
    apply list_elem_of_fmap in Hi as ([n t] & -> & Hin%elem_of_map_to_list).
    cbn. by destruct (Hreg n t Hin) as (_ & _ & -> & _).
Qed.

(** X6.  Whatever happens later, a trigger of node-cron keeps its
    place, its schedule, its cron expression and its timezone, and once
    stopped it is never running again: no code path restarts a trigger
    (starting a job again creates a new one). *)
Theorem stopped_triggers_stay_stopped w evs1 evs2 h t :
  let m1 := steps validate path_resolve path_dirname (machine0 w) evs1 in
  let m2 := steps validate path_resolve path_dirname m1 evs2 in
  triggers (world m1) !! h = Some t ->
  exists t',
    triggers (world m2) !! h = Some t'
    /\ tr_schedule t' = tr_schedule t /\ tr_expression t' = tr_expression t
    /\ tr_timezone t' = tr_timezone t
    /\ (tr_running t = false -> tr_running t' = false).
Proof.
  cbv zeta. intros Hl.
  destruct (triggers_steps evs2 _ h t
              (proj1 (steps_keep validate path_resolve path_dirname evs1 (machine0 w)
                        (inflight_ok_machine0 w))) Hl)
    as (t' & Hl' & H1 & H2 & H3 & H4).
  exists t'. split_and!; try done.
  intros Hoff. destruct (tr_running t') eqn:Hr; [|done].
  by rewrite (H4 eq_refl) in Hoff.
Qed.

Lemma tasks_None_step m ev n :
  inflight_ok m -> is_start ev = false ->
  tasks (world m) !! n = None ->
  tasks (world (step validate path_resolve path_dirname m ev)) !! n = None.
Proof.
  intros Hin Hev Hn.
  destruct (step_keeps validate path_resolve path_dirname m ev Hin) as (_ & _ & Hk).
  destruct ev as [h'|i o|l|[n'|]|d|p message|p data].
  - destruct Hk as [-> _]. done.
  - destruct Hk as [-> _]. done.
  - done.
  - cbn [step world]. destruct (tasks (world m) !! n') as [t|] eqn:Hn'.
    + destruct (stop_one_found n' t (world m) Hn') as [-> _].
      by apply lookup_delete_None; right.
    + by destruct (stop_one_missing n' (world m) Hn') as [-> _].
  - cbn [step world]. by destruct (stop_all_found (world m)) as [-> _].
  - done.
  - destruct Hk as [-> _]. done.
  - destruct Hk as [-> _]. done.
Qed.

Lemma tasks_None_steps evs : forall m n,
  inflight_ok m -> Forall (fun ev => is_start ev = false) evs ->
  tasks (world m) !! n = None ->
  tasks (world (steps validate path_resolve path_dirname m evs)) !! n = None.
Proof.
  induction evs as [|ev evs IH]; intros m n Hin Hevs Hn; [done|].
  apply Forall_cons in Hevs as [Hev Hevs].
  apply IH; [by apply step_keeps|done|by apply tasks_None_step].
Qed.

Lemma tick_of_stopped m h :
  (forall tr, triggers (world m) !! h = Some tr -> tr_running tr = false) ->
  step validate path_resolve path_dirname m (EvTick h) = m.
Proof.
  intros H. cbn [step]. destruct (triggers (world m) !! h) as [tr|]; [|done].
  by rewrite (H tr eq_refl).
Qed.

(** X7.  A job that was stopped does not fire again until [start] is
    called again.  After [stop(name)], as long as the host does not
    call [start], the name is not active, every trigger that carries a
    schedule of that name is not running, and a tick of such a trigger
    starts nothing; after [stop()], as long as the host does not call
    [start], no task is active and no tick of any trigger starts
    anything. *)
Theorem stopped_job_never_fires cfg t0 tz evs0 scheduleName evs :
  Forall (fun ev => is_start ev = false) evs ->
  let m := steps validate path_resolve path_dirname (machine0 (world0 cfg t0 tz)) evs0 in
  let m' := steps validate path_resolve path_dirname
              (step validate path_resolve path_dirname m (EvStop scheduleName)) evs in
  match scheduleName with
  | Some n =>
      isTaskActive n (world m') = false
      /\ forall h tr, triggers (world m') !! h = Some tr -> name (tr_schedule tr) = n ->
           tr_running tr = false
           /\ step validate path_resolve path_dirname m' (EvTick h) = m'
  | None =>
      getActiveTasks (world m') = []
      /\ forall h,
           (forall tr, triggers (world m') !! h = Some tr -> tr_running tr = false)
           /\ step validate path_resolve path_dirname m' (EvTick h) = m'
  end.
Proof.
  intros Hevs. cbv zeta.
  set (m := steps _ _ _ (machine0 _) evs0).
  assert (inflight_ok m) as Hin
    by (apply steps_keep, inflight_ok_machine0).
  assert (registry_consistent validate (world m)) as Hrc
    by (apply registry_consistent_steps;
        [apply inflight_ok_machine0|apply registry_consistent_world0]).
  set (m1 := step _ _ _ m (EvStop scheduleName)).
  assert (inflight_ok m1) as Hin1 by (by apply step_keeps).
  assert (registry_consistent validate (world m1)) as Hrc1
    by (by apply registry_consistent_step).
  pose proof (registry_consistent_steps evs m1 Hin1 Hrc1) as [_ Hrun].
  destruct scheduleName as [n|].
  - assert (tasks (world m1) !! n = None) as Hn1.
    { subst m1. cbn [step world]. destruct (tasks (world m) !! n) as [t|] eqn:Hn.
      - destruct (stop_one_found n t (world m) Hn) as [-> _]. by apply lookup_delete_None; left.
      - by destruct (stop_one_missing n (world m) Hn) as [-> _]. }
    pose proof (tasks_None_steps evs m1 n Hin1 Hevs Hn1) as Hn'.
    split; [unfold isTaskActive; by apply has_false|].
    intros h tr Hl Hname.
    assert (tr_running tr = false) as Hoff.
    { destruct (tr_running tr) eqn:Hr; [|done].
      pose proof (Hrun _ _ Hl Hr) as Hreg. by rewrite Hname, Hn' in Hreg. }
    split; [done|]. apply tick_of_stopped. intros tr' Hl'.
    rewrite Hl in Hl'. by injection Hl' as <-.
  - assert (forall n, tasks (world m1) !! n = None) as Hn1.
    { intros n. subst m1. cbn [step world].
      by destruct (stop_all_found (world m)) as [-> _]. }
    assert (forall n, tasks (world (steps validate path_resolve path_dirname m1 evs)) !! n
                      = None) as Hn'
      by (intros n; by apply tasks_None_steps).
    split.
    + unfold getActiveTasks.
      apply map_empty in Hn'. by rewrite Hn', map_to_list_empty.
    + intros h.
      assert (forall tr,
                triggers (world (steps validate path_resolve path_dirname m1 evs)) !! h
                = Some tr -> tr_running tr = false) as Hoff.
      { intros tr Hl. destruct (tr_running tr) eqn:Hr; [|done].
        pose proof (Hrun _ _ Hl Hr) as Hreg. by rewrite Hn' in Hreg. }
      split; [done|]. by apply tick_of_stopped.
Qed.

Lemma stop_env_TZ n t w :
  tasks w !! n = Some t -> env_TZ (stop (Some n) w) = env_TZ w.
Proof.
  intros H. unfold stop, trigger_stop. rewrite H.
  by destruct (triggers w !! task t).
Qed.

(** X8.  A job that is active can be stopped and started again: after
    [stop(name)], [start] with a definition of that name (enabled, with
    a valid cron expression) returns normally and registers the
    definition with a new trigger, created at the end of node-cron's
    triggers; the trigger the job held before is another one, and it
    stays stopped. *)
Theorem stopped_job_can_be_started_again cfg t0 tz evs s t :
  let w := world (steps validate path_resolve path_dirname
                    (machine0 (world0 cfg t0 tz)) evs) in
  tasks w !! name s = Some t ->
  enabled s = true -> validate (cron s) = true ->
  exists w',
    start validate [s] (stop (Some (name s)) w) = (Ok tt, w')
    /\ tasks w' !! name s = Some (MkTask s (length (triggers w)))
    /\ triggers w' !! length (triggers w) = Some (trigger_of w s)
    /\ task t < length (triggers w)
    /\ tr_running <$> triggers w' !! task t = Some false.
Proof.
  cbv zeta. intros Ht Hen Hvalid.
  pose proof (registry_consistent_steps evs (machine0 (world0 cfg t0 tz))
                (inflight_ok_machine0 _) (registry_consistent_world0 validate cfg t0 tz))
    as [Hreg _].
  set (w := world _) in *. clearbody w.
  destruct (Hreg _ _ Ht) as (_ & _ & _ & tr & Hl & _).
  destruct (stop_one_found (name s) t w Ht) as [Htasks Htrig].
  pose proof (stop_env_TZ (name s) t w Ht) as Htz.
  unfold start.
  set (w0 := logger Info "Starting scheduler" [("schedulesCount", LNum (Z.of_nat (length [s])))]
               (stop (Some (name s)) w)).
  assert (tasks w0 = delete (name s) (tasks w)) as Htasks0 by done.
  assert (triggers w0 = triggers (trigger_stop (task t) w)) as Htrig0 by done.
  assert (env_TZ w0 = env_TZ w) as Htz0 by done.
  destruct (start_loop_accepts validate [s] w0) as (w1 & -> & Ht1 & Htr1 & _).
  { cbn [all_accepted]. rewrite Hen, andb_true_r. unfold acceptable.
    rewrite Hvalid, andb_true_r, Htasks0.
    by rewrite (proj2 (has_false _ (name s)) (lookup_delete_eq _ _)). }
  cbn [registry_after] in Ht1. rewrite Hen in Ht1. cbn [registry_after] in Ht1.
  rewrite filter_cons_True in Htr1 by done. cbn [filter map] in Htr1.
  rewrite Htrig0, trigger_stop_length in Ht1.
  assert (trigger_of w0 s = trigger_of w s) as Htrof
    by (unfold trigger_of; by rewrite Htz0).
  rewrite Htrig0, Htrof in Htr1.
  eexists. split; [reflexivity|]. world_simpl. rewrite Ht1, Htr1.
  apply lookup_lt_Some in Hl as Hlt.
  split_and!.
  - by rewrite lookup_insert_eq.
  - by rewrite lookup_app_r, trigger_stop_length, Nat.sub_diag
      by (rewrite trigger_stop_length; lia).
  - done.
  - rewrite lookup_app_l by (by rewrite trigger_stop_length).
    by rewrite trigger_stop_same, Hl.
Qed.

End LoopInvariants.

(** ** What a firing writes and what it leaves alone *)

Lemma clock_moves_frame w :
  mcp (clock_moves w) = mcp w /\ processes (clock_moves w) = processes w
  /\ transports (clock_moves w) = transports w /\ clients (clock_moves w) = clients w
  /\ files (clock_moves w) = files w /\ dirs (clock_moves w) = dirs w
  /\ calls (clock_moves w) = calls w /\ log (clock_moves w) = log w.
Proof. unfold clock_moves. by destruct (drift w). Qed.

Ltac clock_frame :=
  repeat match goal with
  | |- context [mcp (clock_moves ?w)] =>
      rewrite (proj1 (clock_moves_frame w))
  | |- context [processes (clock_moves ?w)] =>
      rewrite (proj1 (proj2 (clock_moves_frame w)))
  | |- context [transports (clock_moves ?w)] =>
      rewrite (proj1 (proj2 (proj2 (clock_moves_frame w))))
  | |- context [clients (clock_moves ?w)] =>
      rewrite (proj1 (proj2 (proj2 (proj2 (clock_moves_frame w)))))
  | |- context [files (clock_moves ?w)] =>
      rewrite (proj1 (proj2 (proj2 (proj2 (proj2 (clock_moves_frame w))))))
  | |- context [dirs (clock_moves ?w)] =>
      rewrite (proj1 (proj2 (proj2 (proj2 (proj2 (proj2 (clock_moves_frame w)))))))
  | |- context [calls (clock_moves ?w)] =>
      rewrite (proj1 (proj2 (proj2 (proj2 (proj2 (proj2 (proj2 (clock_moves_frame w))))))))
  | |- context [log (clock_moves ?w)] =>
      rewrite (proj2 (proj2 (proj2 (proj2 (proj2 (proj2 (proj2 (clock_moves_frame w))))))))
  | _ => progress world_simpl
  end.

Lemma clock_moves_issue op w :
  clock (clock_moves (issue op w)) = clock (clock_moves w).
Proof. unfold clock_moves. cbn [issue set_calls drift]. by destruct (drift w). Qed.

Section FiringOutcomes.

Variable path_resolve : string -> string.
Variable path_dirname : string -> string.

Lemma after_readiness_ready env s w :
  isReady w = true ->
  after_readiness env s w
  = (Ok tt, logger Info "Executing scheduled task" [("name", LStr (name s))]
              (clock_moves w)).
Proof.
  intros Hr. unfold after_readiness. cbn [read_clock snd].
  assert (isReady (logger Info "Executing scheduled task" [("name", LStr (name s))]
                     (clock_moves w)) = true) as ->; [|done].
  unfold isReady in *. by clock_frame.
Qed.

Lemma after_readiness_frame env s w :
  let w1 := (after_readiness env s w).2 in
  files w1 = files w /\ dirs w1 = dirs w
  /\ exists made, calls w1 = calls w ++ made /\ Forall connection_call made.
Proof.
  cbv zeta. unfold after_readiness. cbn [read_clock snd].
  destruct (isReady _).
  - cbn [snd]. clock_frame. split_and!; try done. exists []. by rewrite app_nil_r.
  - match goal with |- context [run env connect ?wc] =>
      destruct (connect_frame env wc) as (_ & _ & -> & ->);
      destruct (run_connect env wc) as (r & w1 & made & -> & Hcalls & Hmade & _) end.
    cbn [snd]. rewrite Hcalls. clock_frame. split_and!; try done.
    exists (CallConnect :: made). split; [done|]. by constructor.
Qed.

Lemma connection_call_not_file c : connection_call c -> ~ file_call c.
Proof. destruct c as [|[]]; cbn; tauto. Qed.

(** X9.  A firing touches the file system only when it has a result to
    save and somewhere to save it: when the job defines no output path,
    when the prompt executor fails, or when the client could not be
    made ready, the firing makes no [mkdir] and no [writeFile] call,
    and no file and no directory is recorded. *)
Theorem nothing_saved_without_result_and_path (env : Env) s w :
  let w' := (run env (executeSchedule path_resolve path_dirname s) w).2 in
  outputPath s = None
  \/ (exists e, env (ExecutePrompt (prompt s)) = Throw e)
  \/ (exists e w1, after_readiness env s w = (Throw e, w1)) ->
  files w' = files w /\ dirs w' = dirs w
  /\ Forall (fun c => ~ file_call c) (drop (length (calls w)) (calls w')).
Proof.
  cbv zeta. intros Hcase.
  destruct (after_readiness_frame env s w) as (Hf & Hd & made & Hcalls & Hmade).
  assert (Forall (fun c => ~ file_call c) made) as Hmade'
    by (eapply Forall_impl; [exact Hmade|apply connection_call_not_file]).
  rewrite run_executeSchedule. cbv zeta.
  destruct (after_readiness env s w) as [[[]|e] w1]; cbn [snd] in Hf, Hd, Hcalls.
  - assert (outputPath s = None \/ exists e, env (ExecutePrompt (prompt s)) = Throw e)
      as [Hnone|[e He]].
    { destruct Hcase as [?|[?|(e & w2 & [=])]]; auto. }
    + rewrite Hnone. destruct (env (ExecutePrompt (prompt s))) as [result|e];
        cbn [snd]; clock_frame; rewrite Hf, Hd, Hcalls, <- app_assoc, drop_app_length;
        split_and!; try done; apply Forall_app; split; try done;
        apply Forall_singleton; cbn; tauto.
    + rewrite He. cbn [snd]. clock_frame.
      rewrite Hf, Hd, Hcalls, <- app_assoc, drop_app_length.
      split_and!; try done. apply Forall_app. split; [done|].
      apply Forall_singleton; cbn; tauto.
  - cbn [snd]. clock_frame. rewrite Hf, Hd, Hcalls, drop_app_length. done.
Qed.

Lemma run_saveOutput_ok (env : Env) n p (c : string) w :
  (forall d, env (Mkdir d) = Ok tt) ->
  (forall f x, env (WriteFile f x) = Ok tt) ->
  let fullPath := path_resolve (filename p n (clock w) (clock (clock_moves w))) in
  exists w',
    run env (saveOutput path_resolve path_dirname n p c) w = (Ok tt, w')
    /\ files w' = files w ++ [(fullPath, c)]
    /\ dirs w' = dirs w ++ [path_dirname fullPath]
    /\ calls w'
       = calls w ++ [CallExt (Mkdir (path_dirname fullPath));
                     CallExt (WriteFile fullPath c)]
    /\ exists fields, log w' = log w ++ [MkLog Debug "Output saved" fields].
Proof.
  intros Hmk Hwr. cbv zeta. rewrite run_saveOutput. cbv zeta. rewrite Hmk, Hwr.
  set (w2 := clock_moves (clock_moves w)).
  assert (files w2 = files w /\ dirs w2 = dirs w /\ calls w2 = calls w /\ log w2 = log w)
    as (Hf & Hd & Hc & Hl).
  { subst w2.
    destruct (clock_moves_frame (clock_moves w)) as (_ & _ & _ & _ & -> & -> & -> & ->).
    destruct (clock_moves_frame w) as (_ & _ & _ & _ & -> & -> & -> & ->). done. }
  clearbody w2. eexists. split; [reflexivity|]. world_simpl.
  rewrite Hf, Hd, Hc, Hl, <- app_assoc. split_and!; try done. by eexists.
Qed.

(** X10.  When the client is ready (or was reconnected), the prompt
    executor answers, the job defines an output path and [mkdir] and
    [writeFile] succeed, the firing makes exactly three calls after the
    readiness check: the prompt executor, [mkdir] of the directory of
    the resolved file name, and [writeFile] of that file.  The one file
    recorded is the resolved file name with exactly the text the
    executor returned; the file name is built from the two readings of
    the clock [saveOutput] makes; and the firing logs "Output saved"
    and then "Scheduled task completed". *)
Theorem result_is_saved_as_returned (env : Env) s p (result : string) w w1 :
  outputPath s = Some p ->
  after_readiness env s w = (Ok tt, w1) ->
  env (ExecutePrompt (prompt s)) = Ok result ->
  (forall d, env (Mkdir d) = Ok tt) ->
  (forall f c, env (WriteFile f c) = Ok tt) ->
  let fullPath :=
    path_resolve (filename p (name s) (clock w1) (clock (clock_moves w1))) in
  exists w' d,
    run env (executeSchedule path_resolve path_dirname s) w = (Ok tt, w')
    /\ files w' = files w1 ++ [(fullPath, result)]
    /\ dirs w' = dirs w1 ++ [path_dirname fullPath]
    /\ drop (length (calls w1)) (calls w')
       = [CallExt (ExecutePrompt (prompt s)); CallExt (Mkdir (path_dirname fullPath));
          CallExt (WriteFile fullPath result)]
    /\ map log_message (drop (length (log w1)) (log w'))
       = ["Output saved"; "Scheduled task completed"]
    /\ last (log w') = Some (log_completed s d).
Proof.
  intros Hp Hready Hexec Hmk Hwr. cbv zeta.
  rewrite run_executeSchedule. cbv zeta. rewrite Hready, Hexec, Hp.
  destruct (run_saveOutput_ok env (name s) p result
              (issue (ExecutePrompt (prompt s)) w1) Hmk Hwr)
    as (w3 & -> & Hf & Hd & Hc & fields & Hl).
  rewrite clock_moves_issue in Hf, Hd, Hc.
  revert Hf Hd Hc Hl. world_simpl. intros Hf Hd Hc Hl.
  eexists _, _. split; [reflexivity|]. world_simpl.
  destruct (clock_moves_frame w3) as (_ & _ & _ & _ & -> & -> & -> & _).
  rewrite Hf, Hd, Hc, Hl, <- !app_assoc, !drop_app_length, last_app.
  split_and!; done.
Qed.

(** X11.  A firing that finds the client ready leaves the connection as
    it is, whatever the prompt executor and the file system answer: the
    fields of the client (the tools among them) are unchanged, the
    client is still ready, and no process, transport or client is
    created, closed or killed. *)
Theorem ready_firing_keeps_connection (env : Env) s w :
  isReady w = true ->
  let w' := (run env (executeSchedule path_resolve path_dirname s) w).2 in
  mcp w' = mcp w /\ isReady w' = true
  /\ processes w' = processes w /\ transports w' = transports w
  /\ clients w' = clients w.
Proof.
  intros Hr. cbv zeta. rewrite run_executeSchedule. cbv zeta.
  rewrite (after_readiness_ready env s w Hr).
  assert (forall x, mcp (clock_moves x) = mcp x) as Hmcp
    by (intros x; apply clock_moves_frame).
  assert (forall x, processes (clock_moves x) = processes x) as Hproc
    by (intros x; apply clock_moves_frame).
  assert (forall x, transports (clock_moves x) = transports x) as Htrans
    by (intros x; apply clock_moves_frame).
  assert (forall x, clients (clock_moves x) = clients x) as Hcl
    by (intros x; apply clock_moves_frame).
  set (w1 := logger Info "Executing scheduled task" [("name", LStr (name s))]
               (clock_moves w)).
  assert (mcp w1 = mcp w /\ processes w1 = processes w
          /\ transports w1 = transports w /\ clients w1 = clients w)
    as (Hm1 & Hp1 & Ht1 & Hc1)
    by (subst w1; world_simpl; by rewrite Hmcp, Hproc, Htrans, Hcl).
  clearbody w1.
  assert (forall x, mcp x = mcp w -> isReady x = true) as Hready
    by (intros x Hx; unfold isReady in *; by rewrite Hx).
  set (w2 := issue (ExecutePrompt (prompt s)) w1).
  assert (mcp w2 = mcp w /\ processes w2 = processes w
          /\ transports w2 = transports w /\ clients w2 = clients w)
    as (Hm2 & Hp2 & Ht2 & Hc2) by done.
  clearbody w2.
  assert (forall w3 : World,
            mcp w3 = mcp w /\ processes w3 = processes w
            /\ transports w3 = transports w /\ clients w3 = clients w ->
            forall entry,
            let w' := set_log (log w3 ++ [entry]) (clock_moves w3) in
            mcp w' = mcp w /\ isReady w' = true
            /\ processes w' = processes w /\ transports w' = transports w
            /\ clients w' = clients w) as Hend.
  { intros w3 (Hm3 & Hp3 & Ht3 & Hc3) entry. cbv zeta.
    split; [|split; [apply Hready|]]; world_simpl;
      by rewrite ?Hmcp, ?Hproc, ?Htrans, ?Hcl. }
  destruct (env (ExecutePrompt (prompt s))) as [result|e]; [|by apply Hend].
  destruct (outputPath s) as [p|]; [|by apply Hend].
  rewrite run_saveOutput. cbv zeta.
  set (w4 := clock_moves (clock_moves w2)).
  assert (mcp w4 = mcp w /\ processes w4 = processes w
          /\ transports w4 = transports w /\ clients w4 = clients w)
    as (Hm4 & Hp4 & Ht4 & Hc4)
    by (subst w4; by rewrite !Hmcp, !Hproc, !Htrans, !Hcl).
  clearbody w4.
  destruct (env (Mkdir _)) as [[]|e]; [destruct (env (WriteFile _ _)) as [[]|e]|];
    apply Hend; world_simpl; done.
Qed.

End FiringOutcomes.

(** ** The validation of the schedules, and [start] after it *)

Section ConfigFacts.

Variable trim : string -> string.
Variable path_normalize : string -> string.
Variable path_isAbsolute : string -> bool.

Lemma validateSchedule_Passes names s i names' :
  validateSchedule trim path_normalize path_isAbsolute names s i = (Passes, names') <->
  well_formed trim path_normalize path_isAbsolute s /\ (name s ∉ names)
  /\ names' = names ∪ {[name s]}.
Proof.
  unfold validateSchedule, well_formed.
  destruct (blank trim (name s)); [split; [done|by intros (([=] & _) & _)]|].
  case_bool_decide as Hin; [split; [done|by intros (_ & ? & _)]|].
  destruct (blank trim (cron s)); [split; [done|by intros ((_ & [=] & _) & _)]|].
  destruct (blank trim (prompt s)); [split; [done|by intros ((_ & _ & [=] & _) & _)]|].
  destruct (outputPath s) as [p|].
  - destruct (isValidPath path_normalize path_isAbsolute p) eqn:Hp; cbn [negb].
    + split.
      * intros [= <-]. split_and!; try done. by intros ? [= <-].
      * by intros (_ & _ & ->).
    + split; [done|]. intros ((_ & _ & _ & H) & _). specialize (H p eq_refl). congruence.
  - split.
    + intros [= <-]. split_and!; done.
    + by intros (_ & _ & ->).
Qed.

Lemma validateSchedules_from_Passes l : forall names i,
  validateSchedules_from trim path_normalize path_isAbsolute names i l = Passes <->
  NoDup (map name l)
  /\ (forall s, s ∈ l ->
        (name s ∉ names) /\ well_formed trim path_normalize path_isAbsolute s).
Proof.
  induction l as [|s l IH]; intros names i; cbn [validateSchedules_from map].
  - split; [|done]. intros _. split; [constructor|]. by intros s ?%elem_of_nil.
  - destruct (validateSchedule trim path_normalize path_isAbsolute names s i)
      as [[|msg] names'] eqn:Hs.
    + apply validateSchedule_Passes in Hs as (Hwf & Hnot & ->).
      rewrite IH, NoDup_cons. split.
      * intros (Hnd & Hall). split_and!; try done.
        -- intros (s' & Heq & Hs')%list_elem_of_fmap.
           destruct (Hall s' Hs') as [Hn _]. apply Hn. rewrite <- Heq.
           apply elem_of_union. right. by apply elem_of_singleton.
        -- intros s' [->|Hs']%elem_of_cons; [done|].
           destruct (Hall s' Hs') as [Hn ?]. split; [|done].
           intros Hx. apply Hn, elem_of_union. by left.
      * intros ((Hfresh & Hnd) & Hall). split; [done|].
        intros s' Hs'. destruct (Hall s' ltac:(by right)) as [Hn ?]. split; [|done].
        intros [?|Heq%elem_of_singleton]%elem_of_union; [done|].
        apply Hfresh. rewrite <- Heq. apply list_elem_of_fmap. by exists s'.
    + split; [done|]. intros (Hnd & Hall).
      destruct (Hall s ltac:(by left)) as [Hn Hwf].
      assert (validateSchedule trim path_normalize path_isAbsolute names s i
              = (Passes, names ∪ {[name s]})) as Hp
        by (by apply validateSchedule_Passes).
      congruence.
Qed.

(** X12.  [validateSchedules] returns normally exactly when the names
    of the definitions are pairwise distinct (disabled definitions
    included) and every definition has a name, a cron expression and a
    prompt that are not blank and, when it defines an output path, a
    path that [isValidPath] accepts; otherwise it throws a
    [ValidationError]. *)
Theorem validateSchedules_passes_iff schedules :
  validateSchedules trim path_normalize path_isAbsolute schedules = Passes <->
  NoDup (map name schedules)
  /\ forall s, s ∈ schedules ->
       blank trim (name s) = false /\ blank trim (cron s) = false
       /\ blank trim (prompt s) = false
       /\ forall p, outputPath s = Some p ->
            isValidPath path_normalize path_isAbsolute p = true.
Proof.
  unfold validateSchedules. rewrite validateSchedules_from_Passes.
  split; intros [Hnd Hall]; (split; [done|]); intros s Hs.
  - by destruct (Hall s Hs).
  - split; [apply not_elem_of_empty|]. by apply Hall.
Qed.

Variable validate : string -> bool.

Lemma start_loop_app pre rest : forall w,
  start_loop validate (pre ++ rest) w
  = match start_loop validate pre w with
    | (Ok _, w1) => start_loop validate rest w1
    | (Throw e, w1) => (Throw e, w1)
    end.
Proof.
  induction pre as [|s pre IH]; intros w; cbn [start_loop app]; [done|].
  destruct (enabled s); [|apply IH].
  destruct (scheduleTask validate s w) as [[[]|e] w1]; [apply IH|done].
Qed.

(** X13.  [start] on a fresh scheduler with the schedules
    [validateSchedules] has accepted, as [main] calls it (no task is
    registered yet): the names are
    distinct, so the check "already scheduled" never fires.  When every
    enabled definition has a cron expression node-cron accepts, [start]
    returns normally and a definition is active exactly when it is
    enabled.  And when [start] throws, the error is "Invalid cron
    expression" for an enabled definition whose expression node-cron
    rejects: [validateSchedules] checks that an expression is present,
    not that it is valid. *)
Theorem start_after_validation w schedules :
  validateSchedules trim path_normalize path_isAbsolute schedules = Passes ->
  tasks w = ∅ ->
  ((forall s, s ∈ schedules -> enabled s = true -> validate (cron s) = true) ->
   exists w',
     start validate schedules w = (Ok tt, w')
     /\ forall s, s ∈ schedules -> isTaskActive (name s) w' = enabled s)
  /\ (forall e w',
        start validate schedules w = (Throw e, w') ->
        exists s, s ∈ schedules /\ enabled s = true /\ validate (cron s) = false
          /\ e = SchedulerError ("Invalid cron expression for schedule '" +:+ name s
                                 +:+ "': " +:+ cron s)).
Proof.
  unfold validateSchedules. intros [Hnd _]%validateSchedules_from_Passes Hempty.
  set (w0 := logger Info "Starting scheduler"
               [("schedulesCount", LNum (Z.of_nat (length schedules)))] w).
  assert (forall n, tasks w0 !! n = None) as Hnone
    by (intros n; change (tasks w0) with (tasks w); by rewrite Hempty).
  assert (forall i j s s', schedules !! i = Some s -> schedules !! j = Some s' ->
            name s = name s' -> i = j) as Hinj.
  { intros i j s s' Hi Hj Hname.
    apply (NoDup_lookup _ i j (name s) Hnd); rewrite list_lookup_fmap.
    - by rewrite Hi.
    - by rewrite Hj, Hname. }
  split.
  - intros Hvalid.
    assert (all_accepted validate (tasks w0) (length (triggers w0)) schedules = true) as Hall.
    { apply all_accepted_intro. intros i d Hi Hd. split_and!.
      - apply Hvalid; [by eapply list_elem_of_lookup_2|done].
      - apply Hnone.
      - intros j e Hne Hj _ Hname. apply Hne. by apply (Hinj j i e d). }
    unfold start. fold w0.
    destruct (start_loop_accepts validate schedules w0 Hall) as (w1 & -> & Ht & _).
    eexists. split; [reflexivity|]. intros s Hs. unfold isTaskActive. world_simpl.
    rewrite Ht. destruct (enabled s) eqn:Hen.
    + destruct (registry_after_registered validate schedules _ _ Hall s Hs Hen)
        as (k & _ & Hreg).
      apply has_true. by rewrite Hreg.
    + apply has_false. rewrite registry_after_other; [apply Hnone|].
      intros s' Hs' Hen' Hname.
      apply list_elem_of_lookup in Hs as [i Hi]. apply list_elem_of_lookup in Hs' as [j Hj].
      pose proof (Hinj j i s' s Hj Hi Hname) as ->.
      rewrite Hi in Hj. injection Hj as ->. congruence.
  - intros e w'. unfold start. fold w0.
    destruct (start_loop_spec validate schedules w0)
      as (pre & rest & r & w1 & Hrun & Hsplit & Hall & Ht & _ & _ & Hr).
    rewrite Hrun. destruct r as [[]|e']; [done|]. intros [= -> ->].
    destruct Hr as (_ & off & post & -> & Hen & Hacc).
    rewrite Hsplit, start_loop_app in Hrun.
    destruct (start_loop_accepts validate pre w0 Hall) as (w2 & Hpre & Ht2 & _).
    rewrite Hpre in Hrun. cbn [start_loop] in Hrun. rewrite Hen in Hrun.
    assert (has (tasks w2) (name off) = false) as Hfresh.
    { apply has_false. rewrite Ht2, registry_after_other; [apply Hnone|].
      intros s' Hs' _ Hname. apply list_elem_of_lookup in Hs' as [j Hj].
      assert (j = length pre) as ->.
      { apply (Hinj j (length pre) s' off); [|by rewrite Hsplit, list_lookup_middle|done].
        rewrite Hsplit. by apply lookup_app_l_Some. }
      apply lookup_lt_Some in Hj. lia. }
    assert (validate (cron off) = false) as Hinvalid.
    { unfold acceptable in Hacc. rewrite Ht, <- Ht2, Hfresh in Hacc.
      by destruct (validate (cron off)). }
    unfold scheduleTask in Hrun. rewrite Hfresh, Hinvalid in Hrun. cbn [negb] in Hrun.
    injection Hrun as <- _.
    exists off. split_and!; try done. rewrite Hsplit.
    apply elem_of_app. right. left.
Qed.

End ConfigFacts.

(** ** Calling a tool *)

Lemma discovered_is_Some listed m n :
  n ∈ map lt_name listed -> is_Some (discovered listed m !! n).
Proof.
  induction listed as [|t listed IH] using rev_ind; [by intros ?%elem_of_nil|].
  rewrite map_app, discovered_snoc. intros [Hin|Hin]%elem_of_app.
  - destruct (decide (lt_name t = n)) as [<-|Hne].
    + rewrite lookup_insert_eq. by eexists.
    + rewrite lookup_insert_ne by done. by apply IH.
  - apply list_elem_of_singleton in Hin as ->. rewrite lookup_insert_eq. by eexists.
Qed.

Lemma discovered_None listed n :
  n ∉ map lt_name listed -> discovered listed (∅ : gmap string MCPTool) !! n = None.
Proof.
  intros Hn. rewrite discovered_other; [done|].
  intros t Ht Heq. apply Hn. rewrite <- Heq. apply list_elem_of_fmap. by exists t.
Qed.

(** X14.  After a [connect] that succeeded on a client without tools,
    [callTool] reaches the server only for a tool the server listed: for
    a name that was not listed it throws "Tool not found" whatever the
    server would answer, and nothing changes.  For a listed tool, an
    answer of the server is returned with its items converted one by
    one and its error flag as it is, and a rejection is thrown again as
    the [MCPError] "Tool call failed"; either way the client stays as
    it is (a failing tool call does not disconnect).  And once
    [disconnect] has run, every [callTool] throws "Client not
    connected". *)
Theorem callTool_reaches_listed_tools_only (env : Env) w listed toolCall settled :
  let c := length (clients w) in
  let t := length (transports w) in
  isConnected (mcp w) = false -> tools (mcp w) = ∅ ->
  env (ClientConnect c t) = Ok tt ->
  env (ClientListTools c) = Ok listed ->
  let w1 := (run env connect w).2 in
  (toolName toolCall ∈ map lt_name (default [] listed) ->
     exists w2,
       mcp w2 = mcp w1
       /\ match settled with
          | Ok response =>
              exists id,
                callTool toolCall settled w1
                = (Ok (MkToolResult id (map result_item (response_content response))
                         (response_isError response)), w2)
          | Throw _ =>
              callTool toolCall settled w1
              = (Throw (MCPError ("Tool call failed: " +:+ toolName toolCall)), w2)
          end)
  /\ (toolName toolCall ∉ map lt_name (default [] listed) ->
        callTool toolCall settled w1
        = (Throw (MCPError ("Tool not found: " +:+ toolName toolCall)), w1))
  /\ (forall env' : Env,
        callTool toolCall settled (run env' disconnect w1).2
        = (Throw (MCPError "Client not connected"), (run env' disconnect w1).2)).
Proof.
  cbv zeta. intros Hc Hempty Hok Hlist.
  destruct (run_connect_full env w Hc) as (r & w1 & Hrun & _ & _ & _ & _ & H).
  cbv zeta in H. rewrite Hok, Hlist in H. destruct H as (-> & Hm & _).
  rewrite Hrun. cbn [snd]. rewrite Hempty in Hm. split_and!.
  - intros Hin. unfold callTool. rewrite Hm. cbn [client tools].
    destruct (discovered_is_Some _ ∅ _ Hin) as [tool ->].
    destruct settled as [response|e].
    + cbn [read_clock]. eexists. split; [|eexists; reflexivity].
      world_simpl. by rewrite (proj1 (clock_moves_frame _)).
    + eexists. split; [|reflexivity]. done.
  - intros Hnot. unfold callTool. rewrite Hm. cbn [client tools].
    by rewrite (discovered_None _ _ Hnot).
  - intros env'.
    destruct (run_disconnect_full env' w1) as (w2 & -> & Hm2 & _).
    cbn [snd]. unfold callTool. by rewrite Hm2.
Qed.

(** ** Shutting down *)

Lemma trigger_stop_frame h w :
  mcp (trigger_stop h w) = mcp w /\ processes (trigger_stop h w) = processes w.
Proof. unfold trigger_stop. by destruct (triggers w !! h). Qed.

Lemma stop_all_loop_frame entries : forall w,
  mcp (stop_all_loop entries w) = mcp w
  /\ processes (stop_all_loop entries w) = processes w.
Proof.
  induction entries as [|e entries IH]; intros w; [done|].
  rewrite stop_all_loop_cons.
  destruct (IH (logger Debug "Stopping task" [("name", LStr e.1)]
                  (trigger_stop (task e.2) w))) as [-> ->].
  world_simpl. apply trigger_stop_frame.
Qed.

Lemma stop_all_length w : length (triggers (stop None w)) = length (triggers w).
Proof.
  apply Nat.le_antisymm.
  - destruct (Nat.le_gt_cases (length (triggers (stop None w))) (length (triggers w)))
      as [|Hlt]; [done|].
    destruct (lookup_lt_is_Some_2 _ _ Hlt) as [tr Htr].
    rewrite (proj2 (stop_all_found w)) in Htr.
    rewrite (lookup_ge_None_2 (triggers w)) in Htr by lia. by case_bool_decide.
  - destruct (Nat.le_gt_cases (length (triggers w)) (length (triggers (stop None w))))
      as [|Hlt]; [done|].
    destruct (lookup_lt_is_Some_2 _ _ Hlt) as [tr Htr].
    pose proof (proj2 (stop_all_found w) (length (triggers (stop None w)))) as H.
    rewrite (lookup_ge_None_2 (triggers (stop None w))), Htr in H by lia.
    by case_bool_decide.
Qed.

Section Shutdown.

Variable validate : string -> bool.
Variable path_resolve : string -> string.
Variable path_dirname : string -> string.

(** X15.  The shutdown [main] registers for SIGINT and SIGTERM always
    runs to [process.exit(0)], whatever the close calls of the client
    and the transport answer.  When it gets there no task is active, no
    trigger of node-cron is running, the client is disconnected and as
    fresh, and the server process it held has been killed. *)
Theorem shutdown_stops_everything (env : Env) cfg t0 tz evs signal :
  let w := world (steps validate path_resolve path_dirname
                    (machine0 (world0 cfg t0 tz)) evs) in
  exists w',
    run env (shutdown signal) w = (Ok 0%Z, w')
    /\ getActiveTasks w' = []
    /\ (forall h tr, triggers w' !! h = Some tr -> tr_running tr = false)
    /\ length (triggers w') = length (triggers w)
    /\ mcp w' = mcp0 (config (mcp w))
    /\ isReady w' = false
    /\ processes w'
       = match serverProcess (mcp w) with
         | Some p => <[p := false]> (processes w)
         | None => processes w
         end
    /\ last (log w') = Some (MkLog Info "Shutdown complete" []).
Proof.
  cbv zeta.
  pose proof (registry_consistent_steps validate path_resolve path_dirname evs
                (machine0 (world0 cfg t0 tz))
                (inflight_ok_machine0 _) (registry_consistent_world0 validate cfg t0 tz))
    as [_ Hrun].
  set (w := world _) in *. clearbody w.
  set (w0 := logger Info ("Received " +:+ signal +:+ ", shutting down gracefully...") [] w).
  assert (run env (shutdown signal) w
          = match run env disconnect (stop None w0) with
            | (Ok _, w2) => (Ok 0%Z, logger Info "Shutdown complete" [] w2)
            | (Throw e, w2) => (Throw e, w2)
            end) as ->.
  { unfold shutdown. run_steps. fold w0.
    destruct (run env disconnect (stop None w0)) as [[[]|e] w2]; run_steps; done. }
  destruct (stop_all_found w0) as [Ht1 Htr1].
  pose proof (stop_all_length w0) as Hlen.
  assert (mcp (stop None w0) = mcp w /\ processes (stop None w0) = processes w)
    as [Hm1 Hp1].
  { unfold stop. world_simpl. apply (stop_all_loop_frame _ w0). }
  set (w1 := stop None w0) in *. clearbody w1.
  destruct (run_disconnect_full env w1)
    as (w2 & -> & Hm2 & Hp2 & _ & Ht2 & Htr2 & _).
  eexists. split; [reflexivity|].
  unfold getActiveTasks, isReady. world_simpl.
  rewrite Ht2, Ht1, Htr2, Hm2, Hp2, Hm1, Hp1, map_to_list_empty, last_snoc, Hlen.
  split_and!; try done.
  intros h tr. rewrite Htr1. change (tasks w0) with (tasks w).
  change (triggers w0) with (triggers w).
  case_bool_decide as Hin.
  - destruct (triggers w !! h); [|done]. intros [= <-]. done.
  - intros Hl. destruct (tr_running tr) eqn:Hr; [|done]. destruct Hin.
    apply list_elem_of_fmap. eexists (_, _).
    split; [|apply elem_of_map_to_list, (Hrun _ _ Hl Hr)]. done.
Qed.

End Shutdown.

(** ** The prompt executor *)

Lemma same_but_log_and_clock_refl w : same_but_log_and_clock w w.
Proof. by repeat split. Qed.

Lemma same_but_log_and_clock_trans w1 w2 w3 :
  same_but_log_and_clock w1 w2 -> same_but_log_and_clock w2 w3 ->
  same_but_log_and_clock w1 w3.
Proof.
  unfold same_but_log_and_clock.
  intros (-> & -> & -> & -> & -> & -> & -> & ->) (-> & -> & -> & -> & -> & -> & -> & ->).
  done.
Qed.

Lemma same_but_log_and_clock_logger lv msg fields w :
  same_but_log_and_clock w (logger lv msg fields w).
Proof. by repeat split. Qed.

Lemma same_but_log_and_clock_moves w : same_but_log_and_clock w (clock_moves w).
Proof. unfold clock_moves. destruct (drift w); by repeat split. Qed.

Lemma Array_join_cons_empty s l : Array_join "" (s :: l) = s +:+ Array_join "" l.
Proof. destruct l; cbn [Array_join]; by rewrite ?app_empty_r, ?app_empty_l. Qed.

Lemma extract_spec blocks : forall textContent toolUses,
  extract blocks textContent toolUses
  = (textContent +:+ Array_join "" (block_texts blocks),
     toolUses ++ block_tool_uses blocks).
Proof.
  induction blocks as [|b blocks IH]; intros textContent toolUses.
  - cbn. by rewrite app_empty_r, app_nil_r.
  - cbn [extract]. unfold block_texts, block_tool_uses, block_tool_use in *.
    cbn [omap list_omap].
    case_bool_decide as Htext.
    + assert (bool_decide (block_type b = "tool_use") = false) as ->
        by (apply bool_decide_eq_false_2; by rewrite Htext).
      destruct (block_text b) as [text|]; cbn [mbind option_bind].
      * fold (block_texts blocks). rewrite IH, Array_join_cons_empty, app_assoc_s. done.
      * rewrite IH. done.
    + cbn [mbind option_bind].
      case_bool_decide as Huse.
      * destruct (block_text b), (block_id b), (block_name b), (block_input b);
          rewrite IH; cbn; by rewrite <- ?app_assoc.
      * destruct (block_text b); rewrite IH; done.
Qed.

Lemma final_text_spec blocks : forall finalText,
  final_text blocks finalText
  = finalText
    +:+ Array_join ""
          (map (fun b => default "undefined" (block_text b))
               (filter (fun b => block_type b = "text") blocks)).
Proof.
  induction blocks as [|b blocks IH]; intros finalText; cbn [final_text].
  - by rewrite app_empty_r.
  - case_bool_decide as Htext.
    + rewrite filter_cons_True by done. cbn [map].
      by rewrite IH, Array_join_cons_empty, app_assoc_s.
    + rewrite filter_cons_False by done. apply IH.
Qed.

Lemma omap_result_text response :
  omap result_text (map result_item (response_content response))
  = response_texts response.
Proof.
  unfold response_texts. induction (response_content response) as [|item items IH]; [done|].
  cbn [map omap list_omap]. rewrite IH. unfold result_item at 1. cbn [result_text].
  done.
Qed.

Lemma callTool_frame toolCall settled w :
  same_but_log_and_clock w (callTool toolCall settled w).2.
Proof.
  unfold callTool. destruct (client (mcp w)); [|apply same_but_log_and_clock_refl].
  destruct (tools (mcp w) !! toolName toolCall); [|apply same_but_log_and_clock_refl].
  destruct settled as [response|e]; cbn [read_clock snd].
  - eapply same_but_log_and_clock_trans; [apply same_but_log_and_clock_logger|].
    eapply same_but_log_and_clock_trans; [apply same_but_log_and_clock_moves|].
    apply same_but_log_and_clock_logger.
  - eapply same_but_log_and_clock_trans; apply same_but_log_and_clock_logger.
Qed.

Lemma callTool_tool_result u settled w w' :
  mcp w' = mcp w ->
  match callTool (tool_call u) settled w' with
  | (Ok result, _) =>
      MkClaudeToolResult (use_id u) (resultText result) (isError result)
  | (Throw error, _) =>
      MkClaudeToolResult (use_id u) ("Error executing tool: " +:+ err_message error)
                         (Some true)
  end
  = tool_result_of (mcp w) settled u.
Proof.
  intros Hm. unfold callTool, tool_result_of. rewrite Hm. cbn [tool_call toolName].
  destruct (client (mcp w)); [|done].
  destruct (tools (mcp w) !! use_name u); [|done].
  destruct settled as [response|e]; [|done].
  cbn [read_clock]. unfold resultText. cbn [content isError].
  by rewrite omap_result_text.
Qed.

Section HandlerFacts.

Variable create : ApiRequest -> ApiSettlement ClaudeResponse.
Variable sdk_callTool : nat -> MCPToolCall -> Result ToolResponse.
Variable this : ClaudeHandler.

Lemma execute_tools_spec toolUses : forall index toolResults w0 w,
  same_but_log_and_clock w0 w ->
  (execute_tools sdk_callTool index toolUses toolResults w).1
  = toolResults
    ++ imap (fun k u => tool_result_of (mcp w0) (sdk_callTool (index + k) (tool_call u)) u)
            toolUses
  /\ same_but_log_and_clock w0 (execute_tools sdk_callTool index toolUses toolResults w).2.
Proof.
  induction toolUses as [|u toolUses IH]; intros index toolResults w0 w Hw.
  - cbn. by rewrite app_nil_r.
  - cbn [execute_tools]. rewrite imap_cons, Nat.add_0_r.
    set (w1 := logger Debug "Executing tool"
                 [("toolName", LStr (use_name u)); ("toolId", LStr (use_id u))] w).
    assert (same_but_log_and_clock w0 w1) as Hw1
      by (eapply same_but_log_and_clock_trans;
          [exact Hw|apply same_but_log_and_clock_logger]).
    pose proof (callTool_frame (tool_call u) (sdk_callTool index (tool_call u)) w1) as Hf.
    pose proof (callTool_tool_result u (sdk_callTool index (tool_call u)) w0 w1
                  (proj1 (proj2 (proj2 Hw1)))) as Hr.
    fold (tool_call u).
    assert (imap ((fun k u0 =>
                     tool_result_of (mcp w0) (sdk_callTool (index + k) (tool_call u0)) u0)
                  ∘ S) toolUses
            = imap (fun k u0 =>
                      tool_result_of (mcp w0) (sdk_callTool (S index + k) (tool_call u0)) u0)
                   toolUses) as ->.
    { apply imap_ext. intros k u0 _. cbn. by rewrite Nat.add_succ_r. }
    destruct (callTool (tool_call u) (sdk_callTool index (tool_call u)) w1)
      as [[result|error] w2]; cbn [snd] in Hf.
    + destruct (IH (S index)
                  (toolResults
                   ++ [MkClaudeToolResult (use_id u) (resultText result) (isError result)])
                  w0 w2) as [-> Hw'].
      { by eapply same_but_log_and_clock_trans. }
      split; [|done]. by rewrite <- app_assoc, Hr.
    + destruct (IH (S index)
                  (toolResults
                   ++ [MkClaudeToolResult (use_id u)
                         ("Error executing tool: " +:+ err_message error) (Some true)])
                  w0 (logger Error "Tool execution failed"
                        [("toolName", LStr (use_name u));
                         ("error", LStr (err_message error))] w2)) as [-> Hw'].
      { eapply same_but_log_and_clock_trans; [|apply same_but_log_and_clock_logger].
        by eapply same_but_log_and_clock_trans. }
      split; [|done]. by rewrite <- app_assoc, Hr.
Qed.

End HandlerFacts.

Lemma tool_use_id_tool_result_of m settled u :
  tool_use_id (tool_result_of m settled u) = use_id u.
Proof.
  unfold tool_result_of.
  destruct (client m); [|done]. destruct (tools m !! use_name u); [|done].
  by destruct settled.
Qed.

Section PromptFacts.

Variable create : ApiRequest -> ApiSettlement ClaudeResponse.
Variable sdk_callTool : nat -> MCPToolCall -> Result ToolResponse.
Variable this : ClaudeHandler.

Lemma processResponse_spec response messages w :
  let textContent := Array_join "" (block_texts (claude_content response)) in
  let toolUses := block_tool_uses (claude_content response) in
  let toolResults :=
    imap (fun k u => tool_result_of (mcp w) (sdk_callTool k (tool_call u)) u) toolUses in
  let request :=
    follow_up_request this (messages ++ [MkMessage Assistant textContent]) toolResults in
  exists w',
    same_but_log_and_clock w w'
    /\ processResponse create sdk_callTool this response messages w
       = match toolUses with
         | [] => (ApiFulfilled textContent, w, [])
         | _ :: _ =>
             match create request with
             | ApiFulfilled followUpResponse =>
                 (ApiFulfilled (follow_up_text followUpResponse), w', [request])
             | ApiRejected e => (ApiRejected e, w', [request])
             end
         end.
Proof.
  cbv zeta. unfold processResponse. rewrite extract_spec, app_empty_l, app_nil_l.
  destruct (block_tool_uses (claude_content response)) as [|u us] eqn:Huses.
  - exists w. split; [apply same_but_log_and_clock_refl|done].
  - rewrite bool_decide_eq_false_2 by done.
    destruct (execute_tools_spec sdk_callTool (u :: us) 0 [] w w
                (same_but_log_and_clock_refl w)) as [Hres Hw1].
    destruct (execute_tools sdk_callTool 0 (u :: us) [] w) as [toolResults w1].
    cbn [fst snd] in Hres, Hw1. rewrite app_nil_l in Hres. subst toolResults.
    destruct (create _) as [followUp|e].
    + eexists. split; [|unfold follow_up_text; by rewrite final_text_spec, app_empty_l].
      eapply same_but_log_and_clock_trans; [exact Hw1|apply same_but_log_and_clock_logger].
    + exists w1. done.
Qed.

Lemma executePrompt_ready prompt w :
  isReady w = true ->
  let messages := [MkMessage User prompt] in
  let request := first_request this messages (getAvailableTools w) in
  match create request with
  | ApiRejected failure =>
      exists w1,
        same_but_log_and_clock w w1
        /\ executePrompt create sdk_callTool this prompt w
           = (match failure with
              | AnthropicAPIError message _ =>
                  Throw (APIError ("Anthropic API error: " +:+ message))
              | OtherFailure e => Throw e
              end, w1, [request])
  | ApiFulfilled response =>
      exists w2,
        same_but_log_and_clock w w2
        /\ executePrompt create sdk_callTool this prompt w
           = match processResponse create sdk_callTool this response messages w2 with
             | (settled, w3, asked) =>
                 (match settled with
                  | ApiFulfilled text => Ok text
                  | ApiRejected (AnthropicAPIError message _) =>
                      Throw (APIError ("Anthropic API error: " +:+ message))
                  | ApiRejected (OtherFailure e) => Throw e
                  end, w3, request :: asked)
             end
  end.
Proof.
  intros Hready. cbv zeta. unfold executePrompt, sendRequest. rewrite Hready. cbn [negb].
  destruct (create _) as [response|[message status|e]].
  - match goal with |- context [processResponse _ _ _ _ _ ?W] => exists W end.
    split; [eapply same_but_log_and_clock_trans; apply same_but_log_and_clock_logger|].
    destruct (processResponse _ _ _ _ _ _) as [[[text|[message status|e]] w3] asked];
      reflexivity.
  - eexists. split; [apply same_but_log_and_clock_logger|done].
  - eexists. split; [apply same_but_log_and_clock_logger|done].
Qed.

(** X16.  [executePrompt] on a ready client asks the API once, with the
    prompt as the one user message and the tools of the client (no
    [tools] property when it has none).  When the response has no item
    of type ['tool_use'] with an id, a name and an input, the result is
    the texts of its items of type ['text'], one after the other, and
    no second request is made, no tool is called.  When the request is
    rejected with an [Anthropic.APIError], [executePrompt] throws the
    [APIError] "Anthropic API error: " followed by its message; any
    other rejection is thrown as it is.  The scheduler, the connection
    and the file system are left as they are. *)
Theorem prompt_without_tool_use prompt w :
  isReady w = true ->
  let request := first_request this [MkMessage User prompt] (getAvailableTools w) in
  request_messages request = [TextMessage (MkMessage User prompt)]
  /\ (request_tools request = None <-> getAvailableTools w = [])
  /\ exists w',
       same_but_log_and_clock w w'
       /\ match create request with
          | ApiFulfilled response =>
              block_tool_uses (claude_content response) = [] ->
              executePrompt create sdk_callTool this prompt w
              = (Ok (Array_join "" (block_texts (claude_content response))), w', [request])
          | ApiRejected (AnthropicAPIError message _) =>
              executePrompt create sdk_callTool this prompt w
              = (Throw (APIError ("Anthropic API error: " +:+ message)), w', [request])
          | ApiRejected (OtherFailure e) =>
              executePrompt create sdk_callTool this prompt w = (Throw e, w', [request])
          end.
Proof.
  intros Hready. cbv zeta. split; [done|]. split.
  { unfold first_request. cbn [request_tools]. rewrite length_map.
    destruct (getAvailableTools w); cbn [length].
    - by rewrite bool_decide_eq_false_2 by lia.
    - rewrite bool_decide_eq_true_2 by lia. by split. }
  pose proof (executePrompt_ready prompt w Hready) as H. cbv zeta in H.
  destruct (create _) as [response|[message status|e]].
  - destruct H as (w2 & Hw2 & ->). exists w2. split; [done|]. intros Hnone.
    destruct (processResponse_spec response [MkMessage User prompt] w2)
      as (w3 & _ & ->). cbv zeta. by rewrite Hnone.
  - destruct H as (w1 & Hw1 & ->). by exists w1.
  - destruct H as (w1 & Hw1 & ->). by exists w1.
Qed.

(** X17.  When the response to the first request has tool uses,
    [executePrompt] runs each of them through [callTool], in order, and
    makes exactly one more request, whatever the tools answer: a tool
    that is unknown, a client without connection and a rejected tool
    call each become a [tool_result] with [is_error] set and the text
    "Error executing tool: ...", never an exception.  The second
    request has three messages: the prompt, an assistant message with
    the text of the first response, and a user message with one
    [tool_result] per tool use, in the same order and under the same
    id; for a tool call that succeeded the result carries the texts of
    the text items of the answer, joined by newlines, and the error
    flag of the answer.  The request has no [tools] property.  The
    value returned is the text of the second response alone (an item of
    type ['text'] without text reads "undefined"), and tool uses in it
    are ignored; a rejection of the second request is thrown as for the
    first one. *)
Theorem every_tool_use_is_answered prompt w response :
  isReady w = true ->
  create (first_request this [MkMessage User prompt] (getAvailableTools w))
  = ApiFulfilled response ->
  block_tool_uses (claude_content response) <> [] ->
  let toolUses := block_tool_uses (claude_content response) in
  let toolResults :=
    imap (fun k u => tool_result_of (mcp w) (sdk_callTool k (tool_call u)) u) toolUses in
  let follow_up :=
    MkRequest (model this) (maxTokens this) (temperature this)
      [TextMessage (MkMessage User prompt);
       TextMessage (MkMessage Assistant
                      (Array_join "" (block_texts (claude_content response))));
       ToolResults toolResults]
      None in
  map tool_use_id toolResults = map use_id toolUses
  /\ exists w',
       same_but_log_and_clock w w'
       /\ executePrompt create sdk_callTool this prompt w
          = (match create follow_up with
             | ApiFulfilled followUpResponse => Ok (follow_up_text followUpResponse)
             | ApiRejected (AnthropicAPIError message _) =>
                 Throw (APIError ("Anthropic API error: " +:+ message))
             | ApiRejected (OtherFailure e) => Throw e
             end,
             w',
             [first_request this [MkMessage User prompt] (getAvailableTools w); follow_up]).
Proof.
  intros Hready Hfirst Huses. cbv zeta. split.
  { apply list_eq. intros k. rewrite !list_lookup_fmap, list_lookup_imap.
    destruct (block_tool_uses (claude_content response) !! k) as [u|]; [|done].
    cbn. f_equal. apply tool_use_id_tool_result_of. }
  pose proof (executePrompt_ready prompt w Hready) as H. cbv zeta in H.
  rewrite Hfirst in H. destruct H as (w2 & Hw2 & ->).
  destruct (processResponse_spec response [MkMessage User prompt] w2)
    as (w3 & Hw3 & ->). cbv zeta.
  rewrite (proj1 (proj2 (proj2 Hw2))).
  destruct (block_tool_uses (claude_content response)) as [|u us]; [done|].
  unfold follow_up_request. cbn [map app].
  exists w3. split; [by eapply same_but_log_and_clock_trans|].
  clear Hfirst. destruct (create _) as [followUp|[message status|e]]; reflexivity.
Qed.

End PromptFacts.

(** ** The scheduler and the prompt executor *)

Section ExecutorFacts.

Variable path_resolve : string -> string.
Variable path_dirname : string -> string.

Lemma executeSchedule_mcp (env : Env) s w :
  mcp (run env (executeSchedule path_resolve path_dirname s) w).2
  = mcp (after_readiness env s w).2.
Proof.
  rewrite run_executeSchedule. cbv zeta.
  assert (forall x, mcp (clock_moves x) = mcp x) as Hmcp
    by (intros x; apply clock_moves_frame).
  assert (forall (w3 : World) entry,
            mcp (set_log (log w3 ++ [entry]) (clock_moves w3)) = mcp w3) as Hend
    by (intros w3 entry; world_simpl; apply Hmcp).
  destruct (after_readiness env s w) as [[[]|e] w1]; cbn [snd]; [|apply Hend].
  set (w2 := issue (ExecutePrompt (prompt s)) w1).
  assert (mcp w2 = mcp w1) as Hm2 by done. clearbody w2.
  destruct (env (ExecutePrompt (prompt s))) as [result|e];
    [|cbn [snd]; by rewrite Hend].
  destruct (outputPath s) as [p|]; [|cbn [snd]; by rewrite Hend].
  rewrite run_saveOutput. cbv zeta.
  set (w4 := clock_moves (clock_moves w2)).
  assert (mcp w4 = mcp w1) as Hm4 by (subst w4; by rewrite !Hmcp).
  clearbody w4.
  destruct (env (Mkdir _)) as [[]|e]; [destruct (env (WriteFile _ _)) as [[]|e]|];
    cbn [snd]; rewrite Hend; world_simpl; done.
Qed.

Lemma after_readiness_mcp (env : Env) s w :
  mcp_consistent w ->
  mcp_consistent (after_readiness env s w).2
  /\ ((after_readiness env s w).1 = Ok tt -> isReady (after_readiness env s w).2 = true).
Proof.
  intros Hok. unfold after_readiness. cbn [read_clock snd].
  set (w0 := logger Info "Executing scheduled task" [("name", LStr (name s))]
               (clock_moves w)).
  assert (mcp w0 = mcp w) as Hm0
    by (subst w0; world_simpl; apply clock_moves_frame).
  clearbody w0.
  destruct (isReady w0) eqn:Hready.
  - cbn [fst snd]. split; [|done]. unfold mcp_consistent. by rewrite Hm0.
  - set (wc := logger Warn "MCP client not ready, attempting to reconnect" [] w0).
    assert (mcp wc = mcp w) as Hmc by done.
    destruct (isConnected (mcp w)) eqn:Hc.
    + specialize (Hok Hc). unfold isReady in Hready. rewrite Hm0, Hc in Hready.
      cbn [andb] in Hready. apply bool_decide_eq_false in Hready. by destruct Hready.
    + assert (isConnected (mcp wc) = false) as Hc' by (by rewrite Hmc).
      clearbody wc.
      destruct (run_connect_full env wc Hc') as (r & w1 & -> & _ & _ & _ & _ & H).
      cbv zeta in H. cbn [fst snd]. unfold mcp_consistent, isReady.
      destruct (env (ClientConnect _ _)) as [[]|e1].
      * destruct (env (ClientListTools _)) as [listed|e2].
        -- destruct H as (-> & -> & _). by cbn.
        -- destruct H as (-> & -> & _). by cbn.
      * destruct H as (-> & -> & _). by cbn.
Qed.

(** X18.  A firing that runs on its own, with no other firing in
    flight, calls the prompt executor with a ready client only.  Run
    one at a time, firings keep a connected client with its SDK client;
    so when the readiness check of such a firing passes (the client was
    ready, or [connect] returned), [isReady()] holds, the check of
    [executePrompt] passes and the API is asked.  Called on a client
    that is not ready, [executePrompt] throws the [APIError] "MCP
    client is not connected" without asking the API and without
    logging.  Firings that overlap can get there: when [nightly] and
    [hourly] fire together on a client that is not connected, the
    connection of [nightly] is established, that of [hourly] is
    rejected and its [disconnect] resets the shared client, then
    [nightly], whose [connect] returns normally, calls the executor
    while [isReady()] is false. *)
Theorem lone_firing_calls_executor_with_a_ready_client (env : Env) s w :
  mcp_consistent w ->
  mcp_consistent (run env (executeSchedule path_resolve path_dirname s) w).2
  /\ (forall w1, after_readiness env s w = (Ok tt, w1) ->
        isReady w1 = true
        /\ forall create sdk_callTool this,
             exists r w2 rest,
               executePrompt create sdk_callTool this (prompt s) w1
               = (r, w2,
                  first_request this [MkMessage User (prompt s)] (getAvailableTools w1)
                  :: rest))
  /\ (forall create sdk_callTool this w0,
        isReady w0 = false ->
        executePrompt create sdk_callTool this (prompt s) w0
        = (Throw (APIError "MCP client is not connected"), w0, []))
  /\ (let m := steps fields_validate path_resolve path_dirname
                 (machine0 scheduled_world)
                 [EvTick 0; EvTick 1;
                  EvSettle 0 (Fulfilled VUndefined);
                  EvSettle 1 (Rejected (MkError ForeignErrorC "Connection closed"));
                  EvSettle 1 (Fulfilled VUndefined);
                  EvSettle 1 (Fulfilled VUndefined);
                  EvSettle 0 (Fulfilled (VTools (Some [])))] in
      map firing_name (inflight m) = ["nightly"]
      /\ map firing_op (inflight m) = [ExecutePrompt (prompt nightly)]
      /\ isReady (world m) = false).
Proof.
  intros Hok. destruct (after_readiness_mcp env s w Hok) as [Hok1 Hready1].
  split_and!; [| | |by vm_compute].
  - unfold mcp_consistent. by rewrite executeSchedule_mcp.
  - intros w1 Hafter. rewrite Hafter in Hready1. specialize (Hready1 eq_refl).
    cbn [snd] in Hready1. split; [done|]. intros create sdk_callTool this.
    pose proof (executePrompt_ready create sdk_callTool this (prompt s) w1 Hready1) as H.
    cbv zeta in H. destruct (create _) as [response|failure].
    + destruct H as (w2 & _ & ->).
      destruct (processResponse _ _ _ _ _ _) as [[settled w3] asked]. by eexists _, _, _.
    + destruct H as (w2 & _ & ->). by eexists _, _, _.
  - intros create sdk_callTool this w0 Hnot. unfold executePrompt. by rewrite Hnot.
Qed.

End ExecutorFacts.

(** ** Server processes: held in isolation, orphaned by concurrent reconnects *)

Lemma processes_held_ext w w' :
  processes w' = processes w -> mcp w' = mcp w ->
  processes_held w -> processes_held w'.
Proof. unfold processes_held. by intros -> ->. Qed.

Lemma processes_held_disconnect (env : Env) w :
  processes_held w ->
  processes_held (run env disconnect w).2
  /\ forall p, processes (run env disconnect w).2 !! p <> Some true.
Proof.
  intros [Hheld Hnone].
  destruct (run_disconnect_full env w) as (w' & -> & Hm & Hp & _). cbn [snd].
  assert (forall p, processes w' !! p <> Some true) as Hdead.
  { intros p. rewrite Hp. destruct (serverProcess (mcp w)) as [p0|] eqn:Hs.
    - destruct (decide (p = p0)) as [->|Hne].
      + intros Halive. apply lookup_lt_Some in Halive as Hlt.
        rewrite length_insert in Hlt.
        by rewrite list_lookup_insert_eq in Halive by done.
      + rewrite list_lookup_insert_ne by done. intros Halive.
        specialize (Hheld _ Halive). congruence.
    - intros Halive. specialize (Hheld _ Halive). congruence. }
  split; [|done]. split.
  - intros p Halive. by destruct (Hdead p).
  - by rewrite Hm.
Qed.

Lemma processes_held_connect (env : Env) w :
  processes_held w -> processes_held (run env connect w).2.
Proof.
  intros Hheld. destruct (isConnected (mcp w)) eqn:Hc.
  - unfold connect. run_world. rewrite Hc. run_world. cbn [snd].
    revert Hheld. by apply processes_held_ext.
  - destruct Hheld as [Hheld Hnone]. specialize (Hnone Hc).
    assert (forall p, processes w !! p <> Some true) as Hdead
      by (intros p Halive; specialize (Hheld _ Halive); congruence).
    destruct (run_connect_full env w Hc) as (r & w' & -> & _ & _ & _ & _ & H).
    cbv zeta in H. cbn [snd].
    assert ((mcp w' = mcp0 (config (mcp w)) /\ processes w' = processes w ++ [false])
            \/ (exists tools,
                  mcp w' = MkMCP (config (mcp w)) (Some (length (clients w)))
                                 (Some (length (transports w)))
                                 (Some (length (processes w))) tools true
                  /\ processes w' = processes w ++ [true])) as [[Hm Hp]|(tools & Hm & Hp)].
    { destruct (env (ClientConnect _ _)) as [[]|e1].
      - destruct (env (ClientListTools _)) as [listed|e2].
        + right. destruct H as (_ & Hm & Hp & _). by eexists.
        + left. by destruct H as (_ & Hm & Hp & _).
      - left. by destruct H as (_ & Hm & Hp & _). }
    + split; [|by rewrite Hm]. intros p. rewrite Hp.
      intros [Halive|[_ Halive]]%lookup_app_Some; [by destruct (Hdead p)|].
      by destruct (p - length (processes w)) as [|[|n]].
    + split; [|by rewrite Hm]. intros p. rewrite Hp, Hm. cbn [serverProcess].
      intros [Halive|[Hge Halive]]%lookup_app_Some; [by destruct (Hdead p)|].
      destruct (p - length (processes w)) as [|n] eqn:Hd; [|by destruct n].
      f_equal. lia.
Qed.


Lemma guarded_mono {A} P (p : Prog A) (Q1 Q2 : Prop -> Result A -> World -> Prop) :
  (forall H r w, Q1 H r w -> Q2 H r w) ->
  forall H w, guarded P H p Q1 w -> guarded P H p Q2 w.
Proof.
  intros HQ. induction p as [a|e|X f k IH|op k IH]; intros H w; cbn [guarded].
  - apply HQ.
  - apply HQ.
  - apply IH.
  - intros [Hp Hk]. split; [done|]. intros r w'. apply IH, Hk.
Qed.

Lemma guarded_bind {A B} P (p : Prog A) (f : A -> Prog B) Q : forall H w,
  guarded P H p
    (fun H' r w' =>
       match r with
       | Ok a => guarded P H' (f a) Q w'
       | Throw e => Q H' (Throw e) w'
       end) w ->
  guarded P H (p ≫= f) Q w.
Proof.
  induction p as [a|e|X g k IH|op k IH]; intros H w; cbn [guarded];
    change (mbind f (Ret a)) with (f a) || idtac.
  - done.
  - done.
  - intros Hg. apply (IH (g w).1 H (g w).2 Hg).
  - intros [Hp Hk]. split; [done|]. intros r w'. apply (IH r), Hk.
Qed.

Lemma guarded_try_catch {A} P (p : Prog A) (h : JsError -> Prog A) Q : forall H w,
  guarded P H p
    (fun H' r w' =>
       match r with
       | Ok a => Q H' (Ok a) w'
       | Throw e => guarded P H' (h e) Q w'
       end) w ->
  guarded P H (try_catch p h) Q w.
Proof.
  induction p as [a|e|X g k IH|op k IH]; intros H w; cbn [guarded try_catch].
  - done.
  - done.
  - intros Hg. apply (IH (g w).1 H (g w).2 Hg).
  - intros [Hp Hk]. split; [done|]. intros r w'. apply (IH r), Hk.
Qed.

Lemma guarded_modify P H f (Q : Prop -> Result unit -> World -> Prop) w :
  Q H (Ok tt) (f w) -> guarded P H (modify f) Q w.
Proof. done. Qed.

Lemma guarded_get {X} P H (f : World -> X) (Q : Prop -> Result X -> World -> Prop) w :
  Q H (Ok (f w)) w -> guarded P H (get f) Q w.
Proof. done. Qed.

Lemma guarded_sync {X} P H (f : World -> X * World)
    (Q : Prop -> Result X -> World -> Prop) w :
  Q H (Ok (f w).1) (f w).2 -> guarded P H (Sync f Ret) Q w.
Proof. done. Qed.

Lemma guarded_await P H op (Q : Prop -> Result (Answer op) -> World -> Prop) w :
  (H -> P (issue op w)) ->
  (forall r w', Q (P w') r (effect op r w')) ->
  guarded P H (await op) Q w.
Proof.
  intros Hp Hk. split; [done|]. intros r w'. specialize (Hk r w'). by destruct r.
Qed.


Lemma orphan_ext p w w' :
  processes w' = processes w -> serverProcess (mcp w') = serverProcess (mcp w) ->
  orphan p w -> orphan p w'.
Proof. unfold orphan. by intros -> ->. Qed.

Lemma orphan_effect p op r w : orphan p w -> orphan p (effect op r w).
Proof. apply orphan_ext; by destruct r as [?|?], op. Qed.

Lemma orphan_issue p op w : orphan p w -> orphan p (issue op w).
Proof. by apply orphan_ext. Qed.

Lemma orphan_clock_moves p w : orphan p w -> orphan p (clock_moves w).
Proof. unfold clock_moves. destruct (drift w); by apply orphan_ext. Qed.

Section Guards.

Variable P : World -> Prop.
Hypothesis P_issue : forall op w, P w -> P (issue op w).
Hypothesis P_effect : forall op (r : Result (Answer op)) w, P w -> P (effect op r w).

Lemma guarded_seq {A B} (x : Prog A) (f : A -> Prog B) H w :
  guarded P H x (kept P) w -> (forall a, guards P (f a)) ->
  guarded P H (x ≫= f) (kept P) w.
Proof.
  intros Hx Hf. apply guarded_bind. revert Hx. apply guarded_mono.
  intros H' [a|e] w' Hk; [by apply Hf|done].
Qed.

Lemma guards_bind {A B} (x : Prog A) (f : A -> Prog B) :
  guards P x -> (forall a, guards P (f a)) -> guards P (x ≫= f).
Proof. intros Hx Hf H w HInv. apply guarded_seq; [by apply Hx|done]. Qed.

Lemma guards_try_catch {A} (x : Prog A) (h : JsError -> Prog A) :
  guards P x -> (forall e, guards P (h e)) -> guards P (try_catch x h).
Proof.
  intros Hx Hh H w HInv. apply guarded_try_catch.
  generalize (Hx H w HInv). apply guarded_mono.
  intros H' [a|e] w' Hk; [done|by apply Hh].
Qed.

Lemma guards_Ret {A} (a : A) : guards P (Ret a).
Proof. by intros H w HInv. Qed.

Lemma guards_Raise {A} e : guards P (@Raise A e).
Proof. by intros H w HInv. Qed.

Lemma guards_get {X} (f : World -> X) : guards P (get f).
Proof. by intros H w HInv. Qed.

Lemma guards_sync {X} (f : World -> X * World) :
  (forall w, P w -> P (f w).2) -> guards P (Sync f Ret).
Proof. intros Hf H w HInv Hh. apply Hf, HInv, Hh. Qed.

Lemma guards_modify f : (forall w, P w -> P (f w)) -> guards P (modify f).
Proof. intros Hf H w HInv Hh. apply Hf, HInv, Hh. Qed.

Lemma guards_await op : guards P (await op).
Proof.
  intros H w HInv. apply guarded_await.
  - intros Hh. apply P_issue, HInv, Hh.
  - intros r w' Hh. by apply P_effect.
Qed.

(** What the event loop makes of a guarded program. *)
Lemma advance_guarded (p : Prog unit) : forall H w,
  guarded P H p (kept P) w ->
  (H -> P (advance p w).2)
  /\ match (advance p w).1 with
     | Waiting op k =>
         forall r w', guarded P (P w') (k r) (kept P) (effect op r w')
     | _ => True
     end.
Proof.
  induction p as [a|e|X f k IH|op k IH]; intros H w; cbn [guarded advance].
  - done.
  - done.
  - intros Hg. destruct (f w) as [x w1] eqn:Hf. apply (IH x H w1 Hg).
  - intros [Hp Hk]. done.
Qed.

End Guards.

Lemma orphan_kill_block p {B} (rest : unit -> Prog B) :
  (forall u, guards (orphan p) (rest u)) ->
  guards (orphan p)
    (get (fun w => serverProcess (mcp w))
     ≫= fun p0 =>
          match p0 with
          | Some p1 => modify (kill p1) ≫= fun _ => modify (set_serverProcess None)
          | None => Ret tt
          end ≫= rest).
Proof.
  intros Hrest H w HInv. apply guarded_bind, guarded_get. cbv beta iota.
  apply guarded_seq; [|done].
  destruct (serverProcess (mcp w)) as [p1|] eqn:Hp.
  - apply guarded_bind, guarded_modify. cbv beta iota. apply guarded_modify.
    intros Hh. destruct (HInv Hh) as [Halive Hheld]. split.
    + cbn. rewrite list_lookup_insert_ne; [done|]. intros ->. by destruct Hheld.
    + cbn. done.
  - exact HInv.
Qed.

Lemma orphan_spawn_block p {B} (rest : unit -> Prog B) :
  (forall u, guards (orphan p) (rest u)) ->
  guards (orphan p)
    (Sync spawn Ret
     ≫= fun p' => modify (set_serverProcess (Some p')) ≫= rest).
Proof.
  intros Hrest H w HInv. apply guarded_bind, guarded_sync. cbv beta iota.
  apply guarded_seq; [|done].
  apply guarded_modify. intros Hh. destruct (HInv Hh) as [Halive Hheld]. split.
  - cbn. by apply lookup_app_l_Some.
  - cbn. intros [= <-]. apply lookup_lt_Some in Halive. lia.
Qed.

Create HintDb guards.

Ltac guards_step :=
  lazymatch goal with
  | |- guards _ (mbind _ (get (fun w => serverProcess (mcp w)))) =>
      apply orphan_kill_block
  | |- guards _ (mbind _ (Sync spawn Ret)) => apply orphan_spawn_block
  | |- guards _ (mbind _ _) => apply guards_bind
  | |- guards _ (try_catch _ _) => apply guards_try_catch
  | |- guards _ (get _) => apply guards_get
  | |- guards _ (modify _) =>
      apply guards_modify; intros ?; apply orphan_ext; reflexivity
  | |- guards _ (await ?op) => apply guards_await; [apply orphan_issue|apply orphan_effect]
  | |- guards _ Date_now => apply guards_sync; intros ?; apply orphan_clock_moves
  | |- guards _ (Sync _ Ret) =>
      apply guards_sync; intros ?; apply orphan_ext; reflexivity
  | |- guards _ (Ret _) => apply guards_Ret
  | |- guards _ (Raise _) => apply guards_Raise
  | |- guards _ (match ?x with _ => _ end) => destruct x
  | |- forall _, _ => intros ?
  | |- _ => solve [auto with guards nocore]
  end.

Ltac guards := repeat guards_step.

Lemma orphan_guards_disconnect p : guards (orphan p) disconnect.
Proof. unfold disconnect. guards. Qed.
#[local] Hint Resolve orphan_guards_disconnect : guards.

Lemma orphan_guards_discoverTools_loop p listed :
  guards (orphan p) (discoverTools_loop listed).
Proof. induction listed; cbn [discoverTools_loop]; guards. Qed.
#[local] Hint Resolve orphan_guards_discoverTools_loop : guards.

Lemma orphan_guards_discoverTools p : guards (orphan p) discoverTools.
Proof. unfold discoverTools. guards. Qed.
#[local] Hint Resolve orphan_guards_discoverTools : guards.

Lemma orphan_guards_connect p : guards (orphan p) connect.
Proof. unfold connect. guards. Qed.
#[local] Hint Resolve orphan_guards_connect : guards.

Lemma stretch_mono {A} (p : Prog A) (Q1 Q2 : Result A -> World -> Prop)
    (R1 R2 : ExtCall -> World -> Prop) :
  (forall r w, Q1 r w -> Q2 r w) -> (forall op w, R1 op w -> R2 op w) ->
  forall w, stretch p Q1 R1 w -> stretch p Q2 R2 w.
Proof.
  intros HQ HR. induction p as [a|e|X f k IH|op k IH]; intros w; cbn [stretch]; auto.
Qed.

Lemma stretch_bind {A B} (p : Prog A) (f : A -> Prog B) Q R : forall w,
  stretch p
    (fun r w' =>
       match r with
       | Ok a => stretch (f a) Q R w'
       | Throw e => Q (Throw e) w'
       end) R w ->
  stretch (p ≫= f) Q R w.
Proof.
  induction p as [a|e|X g k IH|op k IH]; intros w; cbn [stretch]; try done.
  intros Hg. apply (IH (g w).1 (g w).2 Hg).
Qed.

Lemma stretch_try_catch {A} (p : Prog A) (h : JsError -> Prog A) Q R : forall w,
  stretch p
    (fun r w' =>
       match r with
       | Ok a => Q (Ok a) w'
       | Throw e => stretch (h e) Q R w'
       end) R w ->
  stretch (try_catch p h) Q R w.
Proof.
  induction p as [a|e|X g k IH|op k IH]; intros w; cbn [stretch try_catch]; try done.
  intros Hg. apply (IH (g w).1 (g w).2 Hg).
Qed.

Lemma stretch_sync {X} (f : World -> X * World) (Q : Result X -> World -> Prop) R w :
  Q (Ok (f w).1) (f w).2 -> stretch (Sync f Ret) Q R w.
Proof. done. Qed.

Lemma advance_stretch (p : Prog unit) Q R : forall w,
  stretch p Q R w ->
  match (advance p w).1 with
  | Finished => Q (Ok tt) (advance p w).2
  | Failed e => Q (Throw e) (advance p w).2
  | Waiting op _ => R op (advance p w).2
  end.
Proof.
  induction p as [[]|e|X f k IH|op k IH]; intros w; cbn [stretch advance]; try done.
  intros Hg. destruct (f w) as [x w1] eqn:Hf. apply (IH x w1 Hg).
Qed.

Lemma stretch_connect w :
  isConnected (mcp w) = false ->
  stretch connect (fun _ _ => False) (connecting w) w.
Proof.
  intros Hc. unfold connect.
  apply stretch_bind, stretch_sync. cbv beta iota. cbn [fst snd].
  apply stretch_bind, stretch_sync. cbv beta iota. cbn [fst snd].
  world_simpl. rewrite Hc.
  apply stretch_try_catch.
  do 8 (apply stretch_bind, stretch_sync; cbv beta iota; cbn [fst snd spawn new_transport new_client]).
  apply stretch_bind. cbn [stretch await].
  unfold connecting. world_simpl. rewrite Hc. done.
Qed.

Section OrphanFacts.

Variable validate : string -> bool.
Variable path_resolve : string -> string.
Variable path_dirname : string -> string.

Lemma orphan_guards_saveOutput p n o c :
  guards (orphan p) (saveOutput path_resolve path_dirname n o c).
Proof. unfold saveOutput. guards. Qed.
#[local] Hint Resolve orphan_guards_saveOutput : guards.

Lemma orphan_guards_executeSchedule p s :
  guards (orphan p) (executeSchedule path_resolve path_dirname s).
Proof. unfold executeSchedule. guards. Qed.

Lemma stretch_executeSchedule s w :
  isConnected (mcp w) = false ->
  stretch (executeSchedule path_resolve path_dirname s) (fun _ _ => False)
          (connecting w) w.
Proof.
  intros Hc. unfold executeSchedule.
  apply stretch_bind, stretch_sync. cbv beta iota. cbn [read_clock fst snd].
  apply stretch_bind, stretch_sync. cbv beta iota. cbn [fst snd].
  set (w0 := logger Info "Executing scheduled task" [("name", LStr (name s))]
               (clock_moves w)).
  assert (processes w0 = processes w /\ mcp w0 = mcp w /\ transports w0 = transports w
          /\ clients w0 = clients w /\ tasks w0 = tasks w /\ triggers w0 = triggers w)
    as (Hp0 & Hm0 & Ht0 & Hc0 & Hta0 & Htr0).
  { subst w0. world_simpl. unfold clock_moves. by destruct (drift w). }
  clearbody w0.
  apply stretch_try_catch. apply stretch_bind, stretch_sync. cbv beta iota. cbn [fst snd].
  assert (isReady w0 = false) as -> by (unfold isReady; by rewrite Hm0, Hc).
  cbn [negb]. apply stretch_bind. apply stretch_bind, stretch_sync. cbv beta iota.
  cbn [fst snd].
  set (w1 := logger Warn "MCP client not ready, attempting to reconnect" [] w0).
  assert (isConnected (mcp w1) = false) as Hc1 by (subst w1; world_simpl; by rewrite Hm0).
  generalize (stretch_connect w1 Hc1). apply stretch_mono; [done|].
  intros op w' (-> & H1 & H2 & H3 & H4 & H5 & H6 & H7).
  revert H1 H4 H5 H6 H7. subst w1. world_simpl.
  rewrite Hp0, Ht0, Hc0, Hta0, Htr0. intros H1 H4 H5 H6 H7.
  split_and!; try done. by rewrite <- Hp0.
Qed.

Lemma executeSchedule_processes (env : Env) s w :
  processes (run env (executeSchedule path_resolve path_dirname s) w).2
  = processes (after_readiness env s w).2.
Proof.
  rewrite run_executeSchedule. cbv zeta.
  assert (forall x, processes (clock_moves x) = processes x) as Hproc
    by (intros x; apply clock_moves_frame).
  assert (forall (w3 : World) entry,
            processes (set_log (log w3 ++ [entry]) (clock_moves w3)) = processes w3) as Hend
    by (intros w3 entry; world_simpl; apply Hproc).
  destruct (after_readiness env s w) as [[[]|e] w1]; cbn [snd]; [|apply Hend].
  set (w2 := issue (ExecutePrompt (prompt s)) w1).
  assert (processes w2 = processes w1) as Hm2 by done. clearbody w2.
  destruct (env (ExecutePrompt (prompt s))) as [result|e];
    [|cbn [snd]; by rewrite Hend].
  destruct (outputPath s) as [p|]; [|cbn [snd]; by rewrite Hend].
  rewrite run_saveOutput. cbv zeta.
  set (w4 := clock_moves (clock_moves w2)).
  assert (processes w4 = processes w1) as Hm4 by (subst w4; by rewrite !Hproc).
  clearbody w4.
  destruct (env (Mkdir _)) as [[]|e]; [destruct (env (WriteFile _ _)) as [[]|e]|];
    cbn [snd]; rewrite Hend; world_simpl; done.
Qed.

Lemma after_readiness_held (env : Env) s w :
  processes_held w -> processes_held (after_readiness env s w).2.
Proof.
  intros Hheld. unfold after_readiness. cbn [read_clock snd].
  set (w0 := logger Info "Executing scheduled task" [("name", LStr (name s))]
               (clock_moves w)).
  assert (processes_held w0) as Hheld0.
  { revert Hheld. apply processes_held_ext; subst w0; world_simpl;
      apply clock_moves_frame. }
  clearbody w0. destruct (isReady w0); [done|].
  apply processes_held_connect. revert Hheld0. by apply processes_held_ext.
Qed.

(** X19.  Run one at a time, [connect], [disconnect] and a firing never
    leave a server process behind: if every server process that is
    alive is the one the client refers to (and a client that is not
    connected refers to none), the same holds after each of them, and
    after [disconnect] no server process is alive at all. *)
Theorem server_processes_are_held_in_isolation (env : Env) s w :
  processes_held w ->
  processes_held (run env connect w).2
  /\ processes_held (run env disconnect w).2
  /\ (forall p, processes (run env disconnect w).2 !! p <> Some true)
  /\ processes_held (run env (executeSchedule path_resolve path_dirname s) w).2.
Proof.
  intros Hheld. split; [by apply processes_held_connect|].
  destruct (processes_held_disconnect env w Hheld) as [Hd Hdead].
  split; [done|]. split; [done|].
  generalize (after_readiness_held env s w Hheld).
  apply processes_held_ext; [apply executeSchedule_processes|].
  apply executeSchedule_mcp.
Qed.

Lemma scheduleTask_frame s w :
  processes (scheduleTask validate s w).2 = processes w
  /\ mcp (scheduleTask validate s w).2 = mcp w.
Proof.
  unfold scheduleTask. destruct (has (tasks w) (name s)); [done|].
  by destruct (validate (cron s)).
Qed.

Lemma start_loop_frame l : forall w,
  processes (start_loop validate l w).2 = processes w
  /\ mcp (start_loop validate l w).2 = mcp w.
Proof.
  induction l as [|s l IH]; intros w; cbn [start_loop]; [done|].
  destruct (enabled s).
  - destruct (scheduleTask_frame s w) as [Hp Hm].
    destruct (scheduleTask validate s w) as [[[]|e] w1]; cbn [snd] in *; [|done].
    destruct (IH w1) as [-> ->]. done.
  - destruct (IH (logger Debug "Skipping disabled schedule" [("name", LStr (name s))] w))
      as [-> ->]. done.
Qed.

Lemma start_frame l w :
  processes (start validate l w).2 = processes w /\ mcp (start validate l w).2 = mcp w.
Proof.
  unfold start.
  destruct (start_loop_frame l (logger Info "Starting scheduler"
              [("schedulesCount", LNum (Z.of_nat (length l)))] w)) as [Hp Hm].
  destruct (start_loop validate l _) as [[[]|e] w1]; cbn [snd] in *; done.
Qed.

Lemma stop_frame n w :
  processes (stop n w) = processes w /\ mcp (stop n w) = mcp w.
Proof.
  destruct n as [n|]; unfold stop.
  - destruct (tasks w !! n) as [t|]; [|done]. world_simpl.
    destruct (trigger_stop_frame (task t) w) as [-> ->]. done.
  - world_simpl. destruct (stop_all_loop_frame (map_to_list (tasks w)) w) as [-> ->].
    done.
Qed.

Lemma step_orphan p m ev :
  guarded_inflight (orphan p) m ->
  guarded_inflight (orphan p) (step validate path_resolve path_dirname m ev)
  /\ (orphan p (world m) ->
      orphan p (world (step validate path_resolve path_dirname m ev))).
Proof.
  intros Hin. destruct ev as [h|i o|l|n|d|q message|q data]; cbn [step].
  - destruct (triggers (world m) !! h) as [t|]; [|done].
    destruct (tr_running t); [|done]. unfold fire.
    destruct (advance_guarded (orphan p)
                (executeSchedule path_resolve path_dirname (tr_schedule t))
                (orphan p (world m)) (world m)) as [Hw Hk].
    { apply orphan_guards_executeSchedule. done. }
    destruct (advance _ (world m)) as [[| e |op k] w']; cbn [fst snd world inflight] in *;
      try done.
    split; [|done]. intros i f [Hf|[_ Hf]]%lookup_app_Some; [by eapply Hin|].
    destruct (i - length (inflight m)) as [|j]; [|done].
    injection Hf as <-. exact Hk.
  - destruct (inflight m !! i) as [f|] eqn:Hf; [|done].
    destruct (receive (firing_op f) o) as [r|]; [|done]. unfold resume.
    destruct (advance_guarded (orphan p) (firing_k f r) (orphan p (world m))
                (effect (firing_op f) r (world m)) (Hin i f Hf r (world m))) as [Hw Hk].
    destruct (advance _ _) as [[| e |op k] w']; cbn [fst snd world inflight] in *.
    + split; [|done]. intros j g Hg. cbn [inflight] in Hg.
      destruct (decide (j < i)).
      * rewrite list_lookup_delete_lt in Hg by done. by eapply Hin.
      * rewrite list_lookup_delete_ge in Hg by lia. by eapply Hin.
    + split; [|done]. intros j g Hg. cbn [inflight] in Hg.
      destruct (decide (j < i)).
      * rewrite list_lookup_delete_lt in Hg by done. by eapply Hin.
      * rewrite list_lookup_delete_ge in Hg by lia. by eapply Hin.
    + split; [|done]. intros j g Hg. cbn [inflight] in Hg.
      apply list_lookup_insert_Some in Hg as [(-> & <- & _)|[_ Hg]]; [exact Hk|].
      by eapply Hin.
  - split; [done|]. cbn [world]. apply orphan_ext.
    + apply start_frame.
    + by rewrite (proj2 (start_frame l (world m))).
  - split; [done|]. cbn [world]. apply orphan_ext.
    + apply stop_frame.
    + by rewrite (proj2 (stop_frame n (world m))).
  - split; [done|]. cbn [world]. by apply orphan_ext.
  - destruct (processes (world m) !! q); [|done].
    split; [done|]. cbn [emit on_serverProcess_error world]. by apply orphan_ext.
  - destruct (processes (world m) !! q); [|done].
    split; [done|]. cbn [emit on_stderr_data world]. by apply orphan_ext.
Qed.

Lemma steps_orphan p evs : forall m,
  guarded_inflight (orphan p) m ->
  guarded_inflight (orphan p) (steps validate path_resolve path_dirname m evs)
  /\ (orphan p (world m) ->
      orphan p (world (steps validate path_resolve path_dirname m evs))).
Proof.
  induction evs as [|ev evs IH]; intros m Hin; [done|].
  destruct (step_orphan p m ev Hin) as [Hin1 Hw1].
  destruct (IH _ Hin1) as [Hin2 Hw2]. split; [done|]. intros Hw. apply Hw2, Hw1, Hw.
Qed.

Lemma tick_connecting m h t :
  triggers (world m) !! h = Some t -> tr_running t = true ->
  isConnected (mcp (world m)) = false ->
  exists op,
    connecting (world m) op
      (world (step validate path_resolve path_dirname m (EvTick h))).
Proof.
  intros Hl Hr Hc. cbn [step]. rewrite Hl, Hr. unfold fire.
  pose proof (advance_stretch _ _ _ _ (stretch_executeSchedule (tr_schedule t) (world m) Hc))
    as H.
  destruct (advance _ (world m)) as [[| e |op k] w']; cbn [fst snd world] in *; try done.
  by exists op.
Qed.

(** X20.  Two firings that find the client not connected each enter
    [connect], and each spawns a server process before the other's
    [client.connect] has settled; the client refers to the second one
    only.  The first one is then alive and out of reach for good:
    whatever happens later (ticks, settlements, [start], [stop]), it
    stays alive and the client never refers to it again, and a
    [disconnect] does not kill it. *)
Theorem concurrent_reconnects_orphan_a_server_process w evs0 h1 h2 t1 t2 :
  let m := steps validate path_resolve path_dirname (machine0 w) evs0 in
  let m1 := step validate path_resolve path_dirname m (EvTick h1) in
  let m2 := step validate path_resolve path_dirname m1 (EvTick h2) in
  let p1 := length (processes (world m)) in
  isConnected (mcp (world m)) = false ->
  triggers (world m) !! h1 = Some t1 -> tr_running t1 = true ->
  triggers (world m) !! h2 = Some t2 -> tr_running t2 = true ->
  processes (world m2) = processes (world m) ++ [true; true]
  /\ serverProcess (mcp (world m2)) = Some (S p1)
  /\ forall evs,
       let m3 := steps validate path_resolve path_dirname m2 evs in
       processes (world m3) !! p1 = Some true
       /\ serverProcess (mcp (world m3)) <> Some p1
       /\ forall env : Env, processes (run env disconnect (world m3)).2 !! p1 = Some true.
Proof.
  cbv zeta. intros Hc Hl1 Hr1 Hl2 Hr2.
  set (m := steps validate path_resolve path_dirname (machine0 w) evs0) in *.
  set (m1 := step validate path_resolve path_dirname m (EvTick h1)).
  set (m2 := step validate path_resolve path_dirname m1 (EvTick h2)).
  destruct (tick_connecting m h1 t1 Hl1 Hr1 Hc)
    as (op1 & _ & Hp1 & Hs1 & Hc1 & _ & _ & _ & Htr1).
  fold m1 in Hp1, Hs1, Hc1, Htr1.
  destruct (tick_connecting m1 h2 t2) as (op2 & _ & Hp2 & Hs2 & _);
    [by rewrite Htr1|done|done|].
  fold m2 in Hp2, Hs2. rewrite Hp1 in Hp2. rewrite Hp1, length_app in Hs2.
  cbn [length] in Hs2. rewrite Nat.add_1_r in Hs2. rewrite <- app_assoc in Hp2.
  split; [done|]. split; [done|]. intros evs.
  assert (forall p, guarded_inflight (orphan p) m2) as Hin.
  { intros p. subst m2 m1 m. apply step_orphan, step_orphan, steps_orphan.
    intros i f Hf. done. }
  assert (orphan (length (processes (world m))) (world m2)) as Horphan.
  { split.
    - rewrite Hp2. by rewrite lookup_app_r, Nat.sub_diag by lia.
    - rewrite Hs2. intros [= Heq]. lia. }
  destruct (steps_orphan (length (processes (world m))) evs m2 (Hin _)) as [_ Hkeep].
  destruct (Hkeep Horphan) as [Halive Hheld]. split; [done|]. split; [done|].
  intros env.
  destruct (run_disconnect_full env
              (world (steps validate path_resolve path_dirname m2 evs)))
    as (w' & Hrun & _ & Hp & _). rewrite Hrun. cbn [snd]. rewrite Hp.
  destruct (serverProcess (mcp (world (steps validate path_resolve path_dirname m2 evs))))
    as [p|]; [|done].
  rewrite list_lookup_insert_ne; [done|]. intros ->. by destruct Hheld.
Qed.

End OrphanFacts.

(** ** What a firing logs *)

Lemma appends_keep {X} M (f : World -> X * World) :
  (forall w, log (f w).2 = log w) -> appends M f.
Proof. intros Hf w. exists []. by rewrite app_nil_r. Qed.

Lemma appends_logger M lv msg fields :
  M (MkLog lv msg fields) -> appends M (fun w => (tt, logger lv msg fields w)).
Proof. intros HM w. exists [MkLog lv msg fields]. split; [done|]. by constructor. Qed.

Lemma Logs_bind {A B} M (p : Prog A) (f : A -> Prog B) :
  Logs M p -> (forall a, Logs M (f a)) -> Logs M (p ≫= f).
Proof.
  intros Hp Hf. induction p as [a|e|X g k IH|op k IH]; cbn in *; try done.
  - destruct Hp as [Hg Hk]. split; [done|]. intros x. by apply IH.
  - intros r. by apply IH.
Qed.

Lemma Logs_try_catch {A} M (p : Prog A) h :
  Logs M p -> (forall e, Logs M (h e)) -> Logs M (try_catch p h).
Proof.
  intros Hp Hh. induction p as [a|e|X g k IH|op k IH]; cbn in *; try done.
  - destruct Hp as [Hg Hk]. split; [done|]. intros x. by apply IH.
  - intros r. by apply IH.
Qed.

Lemma Logs_sync {X} M (f : World -> X * World) : appends M f -> Logs M (Sync f Ret).
Proof. by split. Qed.

Lemma Logs_await M op : Logs M (await op).
Proof. by intros [v|e]. Qed.

Lemma Logs_Date_now M : Logs M Date_now.
Proof.
  apply Logs_sync, appends_keep. intros w. apply clock_moves_frame.
Qed.

Lemma run_logs {A} M (env : Env) (p : Prog A) :
  Logs M p -> forall w,
  exists added, log (run env p w).2 = log w ++ added /\ Forall M added.
Proof.
  induction p as [a|e|X f k IH|op k IH]; intros Hp w; cbn [run].
  - exists []. by rewrite app_nil_r.
  - exists []. by rewrite app_nil_r.
  - destruct Hp as [Hf Hk]. destruct (Hf w) as (added1 & Hl1 & HM1).
    destruct (f w) as [x w1]. cbn [snd] in Hl1.
    destruct (IH x (Hk x) w1) as (added2 & -> & HM2).
    exists (added1 ++ added2). rewrite Hl1, <- app_assoc. split; [done|].
    by apply Forall_app.
  - destruct (IH (env op) (Hp (env op)) (effect op (env op) (issue op w)))
      as (added & -> & HM).
    exists added. split; [|done]. f_equal. by destruct (env op) as [?|?], op.
Qed.

Ltac logs_step :=
  lazymatch goal with
  | |- Logs _ (mbind _ _) => apply Logs_bind
  | |- Logs _ (try_catch _ _) => apply Logs_try_catch
  | |- Logs _ (modify (logger _ _ _)) =>
      apply Logs_sync, appends_logger; repeat split; discriminate
  | |- Logs _ (modify _) => apply Logs_sync, appends_keep; reflexivity
  | |- Logs _ (get _) => apply Logs_sync, appends_keep; reflexivity
  | |- Logs _ (await ?op) => apply Logs_await
  | |- Logs _ Date_now => apply Logs_Date_now
  | |- Logs _ (Sync _ Ret) => apply Logs_sync, appends_keep; reflexivity
  | |- Logs _ (Ret _) => exact I
  | |- Logs _ (Raise _) => exact I
  | |- Logs _ (match ?x with _ => _ end) => destruct x
  | |- forall _, _ => intros ?
  | |- _ => solve [auto with logs nocore]
  end.

Ltac logs := repeat logs_step.

Create HintDb logs.

Lemma Logs_disconnect : Logs in_between disconnect.
Proof. unfold disconnect. logs. Qed.
#[local] Hint Resolve Logs_disconnect : logs.

Lemma Logs_discoverTools_loop listed : Logs in_between (discoverTools_loop listed).
Proof. induction listed; cbn [discoverTools_loop]; logs. Qed.
#[local] Hint Resolve Logs_discoverTools_loop : logs.

Lemma Logs_discoverTools : Logs in_between discoverTools.
Proof. unfold discoverTools. logs. Qed.
#[local] Hint Resolve Logs_discoverTools : logs.

Lemma Logs_connect : Logs in_between connect.
Proof. unfold connect. logs. Qed.

Section LogFacts.

Variable path_resolve : string -> string.
Variable path_dirname : string -> string.

Lemma Logs_saveOutput n p c :
  Logs in_between (saveOutput path_resolve path_dirname n p c).
Proof. unfold saveOutput. logs. Qed.

(** X22.  Every firing is bracketed in the log: it first logs
    "Executing scheduled task" with the name of the job, and the last
    entry it logs is its one outcome, either "Scheduled task completed"
    or "Failed to execute scheduled task", with the name of the job and
    the duration.  None of the entries in between (those of the
    reconnection and of saving the output) is one of these three. *)
Theorem every_firing_logs_one_outcome (env : Env) s w :
  exists middle outcome,
    log (run env (executeSchedule path_resolve path_dirname s) w).2
    = log w
      ++ MkLog Info "Executing scheduled task" [("name", LStr (name s))]
         :: middle ++ [outcome]
    /\ Forall in_between middle
    /\ exists d, outcome = log_completed s d \/ exists e, outcome = log_failed s e d.
Proof.
  rewrite run_executeSchedule. cbv zeta.
  assert (forall x, log (clock_moves x) = log x) as Hlog
    by (intros x; apply clock_moves_frame).
  assert (exists added,
            log (after_readiness env s w).2
            = log w ++ MkLog Info "Executing scheduled task" [("name", LStr (name s))]
                       :: added
            /\ Forall in_between added) as (added & Hafter & Hadded).
  { unfold after_readiness. cbn [read_clock snd].
    set (w0 := logger Info "Executing scheduled task" [("name", LStr (name s))]
                 (clock_moves w)).
    assert (log w0 = log w ++ [MkLog Info "Executing scheduled task"
                                 [("name", LStr (name s))]]) as Hl0
      by (subst w0; world_simpl; by rewrite Hlog).
    clearbody w0. destruct (isReady w0).
    - exists []. cbn [snd]. by rewrite Hl0.
    - destruct (run_logs in_between env connect Logs_connect
                  (logger Warn "MCP client not ready, attempting to reconnect" [] w0))
        as (added & -> & Hadded).
      exists (MkLog Warn "MCP client not ready, attempting to reconnect" [] :: added).
      world_simpl. rewrite Hl0, <- !app_assoc. split; [done|].
      constructor; [repeat split; discriminate|done]. }
  assert (forall (w3 : World) entry,
            log (set_log (log w3 ++ [entry]) (clock_moves w3)) = log w3 ++ [entry]) as Hend
    by done.
  destruct (after_readiness env s w) as [[[]|e] w1]; cbn [snd] in Hafter.
  - set (w2 := issue (ExecutePrompt (prompt s)) w1).
    assert (log w2 = log w1) as Hl2 by done. clearbody w2.
    destruct (env (ExecutePrompt (prompt s))) as [result|e].
    + destruct (outputPath s) as [p|] eqn:Hp.
      * destruct (run_logs in_between env _ (Logs_saveOutput (name s) p result) w2)
          as (added' & Hsave & Hadded').
        destruct (run env (saveOutput _ _ _ _ _) w2) as [[[]|e] w3];
          cbn [snd] in Hsave |- *; rewrite Hend, Hsave, Hl2, Hafter, <- !app_assoc;
          cbn [app]; rewrite app_assoc;
          eexists _, _; (split; [reflexivity|]); (split; [by apply Forall_app|]);
          eexists; [left|right; eexists]; reflexivity.
      * cbn [snd]. rewrite Hend, Hl2, Hafter, <- !app_assoc. cbn [app].
        eexists _, _. split; [reflexivity|]. split; [done|].
        eexists. left. reflexivity.
    + cbn [snd]. rewrite Hend, Hl2, Hafter, <- !app_assoc. cbn [app].
      eexists _, _. split; [reflexivity|]. split; [done|].
      eexists. right. eexists. reflexivity.
  - cbn [snd]. rewrite Hend, Hafter, <- !app_assoc. cbn [app].
    eexists _, _. split; [reflexivity|]. split; [done|].
    eexists. right. eexists. reflexivity.
Qed.

End LogFacts.

(** ** Concrete runs of the further properties *)

Lemma failed_connect_cleans_up_witness :
  isConnected (mcp sample_world) = false
  /\ exists w',
       run env_connect_fails connect sample_world
       = (Throw (MCPError "Failed to connect to MCP server"), w')
       /\ isReady w' = false
       /\ processes w' = [false]
       /\ drop (length (calls sample_world)) (calls w')
          = [CallConnect; CallExt (ClientConnect 0 0); CallExt (ClientClose 0);
             CallExt (TransportClose 0)].
Proof.
  split; [reflexivity|].
  destruct (failed_connect_cleans_up env_connect_fails sample_world
              (MkError ForeignErrorC "spawn npx ENOENT") eq_refl (or_introl eq_refl))
    as (w' & Hrun & _ & Hready & Hproc & Hcalls & _).
  exists w'. split; [exact Hrun|]. split; [exact Hready|]. split; [exact Hproc|].
  exact Hcalls.
Defined.

Lemma connect_discovers_tools_witness :
  isConnected (mcp sample_world) = false
  /\ exists w',
       run env_lists connect sample_world = (Ok tt, w')
       /\ isReady w' = true
       /\ tools (mcp w') !! "list_directory"
          = Some (MkTool "list_directory" "" "{ path: string }")
       /\ tools (mcp w') !! "write_file" = None.
Proof.
  split; [reflexivity|].
  destruct (connect_discovers_tools env_lists sample_world (Some sample_listing)
              eq_refl eq_refl eq_refl)
    as (w' & Hrun & Hready & _ & _ & _ & _ & Hlisted & Hother & _).
  exists w'. split; [exact Hrun|]. split; [exact Hready|]. split.
  - apply (Hlisted 1 (MkListed "list_directory" None "{ path: string }") eq_refl).
    intros [|[|j]] later Hj Hl; [lia|lia|discriminate].
  - rewrite (Hother "write_file"); [reflexivity|].
    intros tool Ht Hn.
    apply elem_of_cons in Ht as [->|Ht]; [discriminate|].
    apply elem_of_cons in Ht as [->|Ht]; [discriminate|].
    by apply elem_of_nil in Ht.
Defined.

Lemma start_registers_every_enabled_definition_witness :
  (forall i d, ~ offender fields_validate sample_world [nightly; paused; hourly] i d)
  /\ exists w',
       start fields_validate [nightly; paused; hourly] sample_world = (Ok tt, w')
       /\ isTaskActive "nightly" w' = true
       /\ isTaskActive "hourly" w' = true
       /\ length (getActiveTasks w') = 2.
Proof.
  assert (forall i d, ~ offender fields_validate sample_world [nightly; paused; hourly] i d)
    as Hno.
  { intros i d (Hi & Hen & Hbad).
    destruct i as [|[|[|i]]]; cbn in Hi; try discriminate; injection Hi as <-;
      try discriminate;
      (destruct Hbad as [Hv|[Ha|(j & e & Hne & Hj & He & Hname)]];
       [vm_compute in Hv; discriminate|vm_compute in Ha; discriminate|]);
      (destruct j as [|[|[|j]]]; cbn in Hj; try discriminate; injection Hj as <-;
       try (by apply Hne); vm_compute in Hname; try discriminate;
       vm_compute in He; discriminate). }
  split; [exact Hno|].
  destruct (start_registers_every_enabled_definition fields_validate sample_world
              [nightly; paused; hourly] Hno)
    as (w' & Hrun & Hactive & _ & Hlen & _).
  exists w'. split; [exact Hrun|].
  split; [exact (proj1 (Hactive nightly ltac:(left) eq_refl))|].
  split; [exact (proj1 (Hactive hourly ltac:(right; right; left) eq_refl))|].
  rewrite Hlen. vm_compute. reflexivity.
Defined.

Lemma registry_matches_running_triggers_witness :
  isTaskActive "hourly"
    (world (steps fields_validate (posix_resolve "/app") posix_dirname
              (machine0 (world0 sample_config sample_time None))
              [EvStart [nightly; hourly]; EvStop (Some "nightly")])) = true
  /\ exists h tr,
       triggers (world (steps fields_validate (posix_resolve "/app") posix_dirname
                          (machine0 (world0 sample_config sample_time None))
                          [EvStart [nightly; hourly]; EvStop (Some "nightly")])) !! h
       = Some tr
       /\ tr_running tr = true /\ name (tr_schedule tr) = "hourly".
Proof.
  assert (isTaskActive "hourly"
            (world (steps fields_validate (posix_resolve "/app") posix_dirname
                      (machine0 (world0 sample_config sample_time None))
                      [EvStart [nightly; hourly]; EvStop (Some "nightly")])) = true) as H
    by (vm_compute; reflexivity).
  split; [exact H|].
  destruct (registry_matches_running_triggers fields_validate (posix_resolve "/app")
              posix_dirname sample_config sample_time None
              [EvStart [nightly; hourly]; EvStop (Some "nightly")]) as (_ & Hiff & _).
  exact (proj1 (Hiff "hourly") H).
Defined.

Lemma stopped_triggers_stay_stopped_witness :
  triggers (world (steps fields_validate (posix_resolve "/app") posix_dirname
                     (machine0 sample_world)
                     [EvStart [nightly]; EvStop (Some "nightly")])) !! 0
  = Some (MkTrigger nightly "0 3 * * *" "UTC" false)
  /\ exists t',
       triggers (world (steps fields_validate (posix_resolve "/app") posix_dirname
                          (steps fields_validate (posix_resolve "/app") posix_dirname
                             (machine0 sample_world)
                             [EvStart [nightly]; EvStop (Some "nightly")])
                          [EvStart [nightly]; EvTick 0])) !! 0 = Some t'
       /\ tr_schedule t' = nightly /\ tr_running t' = false.
Proof.
  assert (triggers (world (steps fields_validate (posix_resolve "/app") posix_dirname
                             (machine0 sample_world)
                             [EvStart [nightly]; EvStop (Some "nightly")])) !! 0
          = Some (MkTrigger nightly "0 3 * * *" "UTC" false)) as H
    by (vm_compute; reflexivity).
  split; [exact H|].
  destruct (stopped_triggers_stay_stopped fields_validate (posix_resolve "/app")
              posix_dirname sample_world [EvStart [nightly]; EvStop (Some "nightly")]
              [EvStart [nightly]; EvTick 0] 0 _ H)
    as (t' & Hl & Hs & _ & _ & Hoff).
  exists t'. split; [exact Hl|]. split; [exact Hs|]. exact (Hoff eq_refl).
Defined.

Lemma stopped_job_never_fires_witness :
  Forall (fun ev => is_start ev = false) [EvTick 0; EvClock 60000; EvTick 0]
  /\ isTaskActive "nightly"
       (world (steps fields_validate (posix_resolve "/app") posix_dirname
                 (step fields_validate (posix_resolve "/app") posix_dirname
                    (steps fields_validate (posix_resolve "/app") posix_dirname
                       (machine0 (world0 sample_config sample_time None))
                       [EvStart [nightly; hourly]])
                    (EvStop (Some "nightly")))
                 [EvTick 0; EvClock 60000; EvTick 0])) = false.
Proof.
  assert (Forall (fun ev => is_start ev = false) [EvTick 0; EvClock 60000; EvTick 0]) as H
    by (repeat constructor).
  split; [exact H|].
  exact (proj1 (stopped_job_never_fires fields_validate (posix_resolve "/app")
                  posix_dirname sample_config sample_time None
                  [EvStart [nightly; hourly]] (Some "nightly")
                  [EvTick 0; EvClock 60000; EvTick 0] H)).
Defined.

Lemma stopped_job_can_be_started_again_witness :
  tasks (world (steps fields_validate (posix_resolve "/app") posix_dirname
                  (machine0 (world0 sample_config sample_time None))
                  [EvStart [nightly; hourly]])) !! name nightly
  = Some (MkTask nightly 0)
  /\ exists w',
       start fields_validate [nightly]
         (stop (Some (name nightly))
            (world (steps fields_validate (posix_resolve "/app") posix_dirname
                      (machine0 (world0 sample_config sample_time None))
                      [EvStart [nightly; hourly]])))
       = (Ok tt, w')
       /\ tasks w' !! name nightly = Some (MkTask nightly 2)
       /\ tr_running <$> triggers w' !! 0 = Some false.
Proof.
  assert (tasks (world (steps fields_validate (posix_resolve "/app") posix_dirname
                          (machine0 (world0 sample_config sample_time None))
                          [EvStart [nightly; hourly]])) !! name nightly
          = Some (MkTask nightly 0)) as H by (vm_compute; reflexivity).
  split; [exact H|].
  destruct (stopped_job_can_be_started_again fields_validate (posix_resolve "/app")
              posix_dirname sample_config sample_time None
              [EvStart [nightly; hourly]] nightly (MkTask nightly 0) H eq_refl
              ltac:(vm_compute; reflexivity))
    as (w' & Hrun & Hreg & _ & _ & Hold).
  exists w'. split; [exact Hrun|]. split; [exact Hreg|]. exact Hold.
Defined.

Lemma nothing_saved_without_result_and_path_witness :
  outputPath hourly = None
  /\ files (run env_ok (executeSchedule (posix_resolve "/app") posix_dirname hourly)
              connected_world).2 = files connected_world
  /\ dirs (run env_ok (executeSchedule (posix_resolve "/app") posix_dirname hourly)
             connected_world).2 = dirs connected_world.
Proof.
  split; [reflexivity|].
  destruct (nothing_saved_without_result_and_path (posix_resolve "/app") posix_dirname
              env_ok hourly connected_world (or_introl eq_refl)) as (Hf & Hd & _).
  split; [exact Hf|exact Hd].
Defined.

Lemma result_is_saved_as_returned_witness :
  outputPath nightly = Some "outputs/{name}-{timestamp}.txt"
  /\ after_readiness env_ok nightly connected_world
     = (Ok tt, (after_readiness env_ok nightly connected_world).2)
  /\ exists w' d,
       run env_ok (executeSchedule (posix_resolve "/app") posix_dirname nightly)
         connected_world = (Ok tt, w')
       /\ files w'
          = [("/app/outputs/nightly-2024-01-15T03-00-00-000Z.txt", "done")]
       /\ last (log w') = Some (log_completed nightly d).
Proof.
  assert (after_readiness env_ok nightly connected_world
          = (Ok tt, (after_readiness env_ok nightly connected_world).2)) as H
    by (vm_compute; reflexivity).
  split; [reflexivity|]. split; [exact H|].
  destruct (result_is_saved_as_returned (posix_resolve "/app") posix_dirname
              env_ok nightly "outputs/{name}-{timestamp}.txt" "done"
              connected_world _ eq_refl H eq_refl
              (fun _ => eq_refl) (fun _ _ => eq_refl))
    as (w' & d & Hrun & Hfiles & _ & _ & _ & Hlast).
  exists w', d. split; [exact Hrun|]. split; [|exact Hlast].
  rewrite Hfiles. vm_compute. reflexivity.
Defined.

Lemma ready_firing_keeps_connection_witness :
  isReady connected_world = true
  /\ mcp (run env_write_fails
            (executeSchedule (posix_resolve "/app") posix_dirname nightly)
            connected_world).2 = mcp connected_world
  /\ processes (run env_write_fails
                  (executeSchedule (posix_resolve "/app") posix_dirname nightly)
                  connected_world).2 = [true].
Proof.
  assert (isReady connected_world = true) as H by (vm_compute; reflexivity).
  split; [exact H|].
  destruct (ready_firing_keeps_connection (posix_resolve "/app") posix_dirname
              env_write_fails nightly connected_world H) as (Hm & _ & Hp & _).
  split; [exact Hm|]. rewrite Hp. vm_compute. reflexivity.
Defined.

Lemma validateSchedules_passes_iff_witness :
  validateSchedules trim_spaces normal_path posix_isAbsolute [nightly; paused; hourly]
  = Passes
  /\ NoDup (map name [nightly; paused; hourly])
  /\ isValidPath normal_path posix_isAbsolute "outputs/{name}-{timestamp}.txt" = true.
Proof.
  assert (validateSchedules trim_spaces normal_path posix_isAbsolute
            [nightly; paused; hourly] = Passes) as H by (vm_compute; reflexivity).
  split; [exact H|].
  destruct (proj1 (validateSchedules_passes_iff trim_spaces normal_path posix_isAbsolute
                     [nightly; paused; hourly]) H) as [Hnd Hall].
  split; [exact Hnd|].
  exact (proj2 (proj2 (proj2 (Hall nightly ltac:(left)))) _ eq_refl).
Defined.

Lemma start_after_validation_witness :
  validateSchedules trim_spaces normal_path posix_isAbsolute [nightly; paused; hourly]
  = Passes
  /\ tasks sample_world = ∅
  /\ exists w',
       start fields_validate [nightly; paused; hourly] sample_world = (Ok tt, w')
       /\ isTaskActive "nightly" w' = true
       /\ isTaskActive "paused" w' = false.
Proof.
  assert (validateSchedules trim_spaces normal_path posix_isAbsolute
            [nightly; paused; hourly] = Passes) as H by (vm_compute; reflexivity).
  split; [exact H|]. split; [reflexivity|].
  destruct (start_after_validation trim_spaces normal_path posix_isAbsolute
              fields_validate sample_world [nightly; paused; hourly] H eq_refl)
    as [Hok _].
  destruct Hok as (w' & Hrun & Hactive).
  { intros s Hs Hen.
    apply elem_of_cons in Hs as [->|Hs]; [vm_compute; reflexivity|].
    apply elem_of_cons in Hs as [->|Hs]; [vm_compute in Hen; discriminate|].
    apply elem_of_cons in Hs as [->|Hs]; [vm_compute; reflexivity|].
    by apply elem_of_nil in Hs. }
  exists w'. split; [exact Hrun|].
  split; [exact (Hactive nightly ltac:(left))|].
  exact (Hactive paused ltac:(right; left)).
Defined.

Lemma callTool_reaches_listed_tools_only_witness :
  isConnected (mcp sample_world) = false /\ tools (mcp sample_world) = ∅
  /\ (exists w2 id,
        callTool (MkToolCall "read_file" "{ path: 'a.txt' }") (Ok sample_response)
          (run env_lists connect sample_world).2
        = (Ok (MkToolResult id [MkResultItem "text" (Some "hello") None] None), w2))
  /\ callTool (MkToolCall "write_file" "{}") (Ok sample_response)
       (run env_lists connect sample_world).2
     = (Throw (MCPError "Tool not found: write_file"),
        (run env_lists connect sample_world).2).
Proof.
  split; [reflexivity|]. split; [reflexivity|]. split.
  - destruct (callTool_reaches_listed_tools_only env_lists sample_world
                (Some sample_listing) (MkToolCall "read_file" "{ path: 'a.txt' }")
                (Ok sample_response) eq_refl eq_refl eq_refl eq_refl) as (Hlisted & _).
    destruct (Hlisted ltac:(left)) as (w2 & _ & id & Hcall).
    exists w2, id. exact Hcall.
  - destruct (callTool_reaches_listed_tools_only env_lists sample_world
                (Some sample_listing) (MkToolCall "write_file" "{}")
                (Ok sample_response) eq_refl eq_refl eq_refl eq_refl) as (_ & Hnot & _).
    apply Hnot. intros Hin.
    apply elem_of_cons in Hin as [Heq|Hin]; [discriminate|].
    apply elem_of_cons in Hin as [Heq|Hin]; [discriminate|].
    by apply elem_of_nil in Hin.
Defined.

Lemma shutdown_stops_everything_witness :
  exists w',
    run env_ok (shutdown "SIGINT")
      (world (steps fields_validate (posix_resolve "/app") posix_dirname
                (machine0 (world0 sample_config sample_time None))
                [EvStart [nightly; hourly]])) = (Ok 0%Z, w')
    /\ getActiveTasks w' = []
    /\ isReady w' = false
    /\ forall tr, triggers w' !! 1 = Some tr -> tr_running tr = false.
Proof.
  destruct (shutdown_stops_everything fields_validate (posix_resolve "/app")
              posix_dirname env_ok sample_config sample_time None
              [EvStart [nightly; hourly]] "SIGINT")
    as (w' & Hrun & Hnone & Hoff & _ & _ & Hready & _).
  exists w'. split; [exact Hrun|]. split; [exact Hnone|]. split; [exact Hready|].
  exact (Hoff 1).
Defined.

Lemma prompt_without_tool_use_witness :
  isReady listing_world = true
  /\ exists w',
       executePrompt create_plain sdk_hello sample_handler "Summarise the reports"
         listing_world
       = (Ok "All reports are in.", w',
          [first_request sample_handler [MkMessage User "Summarise the reports"]
             (getAvailableTools listing_world)])
       /\ mcp w' = mcp listing_world.
Proof.
  assert (isReady listing_world = true) as H by (vm_compute; reflexivity).
  split; [exact H|].
  destruct (prompt_without_tool_use create_plain sdk_hello sample_handler
              "Summarise the reports" listing_world H)
    as (_ & _ & w' & Hsame & Hrun).
  exists w'. split; [exact (Hrun eq_refl)|]. exact (proj1 (proj2 (proj2 Hsame))).
Defined.

Lemma every_tool_use_is_answered_witness :
  isReady listing_world = true
  /\ create_tools (first_request sample_handler [MkMessage User "Summarise the reports"]
                     (getAvailableTools listing_world))
     = ApiFulfilled tool_response
  /\ block_tool_uses (claude_content tool_response) <> []
  /\ (executePrompt create_tools sdk_hello sample_handler "Summarise the reports"
        listing_world).1.1 = Ok "The file says hello."
  /\ (executePrompt create_tools sdk_hello sample_handler "Summarise the reports"
        listing_world).2 !! 1
     = Some (MkRequest "claude-3-5-sonnet-20241022" "4096" "0.7"
               [TextMessage (MkMessage User "Summarise the reports");
                TextMessage (MkMessage Assistant "Let me look.");
                ToolResults
                  [MkClaudeToolResult "toolu_1" "hello" None;
                   MkClaudeToolResult "toolu_2"
                     "Error executing tool: Tool not found: write_file" (Some true)]]
               None).
Proof.
  assert (isReady listing_world = true) as H by (vm_compute; reflexivity).
  assert (block_tool_uses (claude_content tool_response) <> []) as Huses
    by (vm_compute; discriminate).
  split; [exact H|]. split; [reflexivity|]. split; [exact Huses|].
  destruct (every_tool_use_is_answered create_tools sdk_hello sample_handler
              "Summarise the reports" listing_world tool_response H eq_refl Huses)
    as (_ & w' & _ & Hrun).
  rewrite Hrun. split; vm_compute; reflexivity.
Defined.

Lemma lone_firing_calls_executor_with_a_ready_client_witness :
  mcp_consistent sample_world
  /\ after_readiness env_lists nightly sample_world
     = (Ok tt, (after_readiness env_lists nightly sample_world).2)
  /\ isReady (after_readiness env_lists nightly sample_world).2 = true.
Proof.
  assert (mcp_consistent sample_world) as H by (intros Hc; discriminate Hc).
  assert (after_readiness env_lists nightly sample_world
          = (Ok tt, (after_readiness env_lists nightly sample_world).2)) as Hafter
    by (vm_compute; reflexivity).
  split; [exact H|]. split; [exact Hafter|].
  destruct (lone_firing_calls_executor_with_a_ready_client (posix_resolve "/app")
              posix_dirname env_lists nightly sample_world H) as (_ & Hready & _).
  exact (proj1 (Hready _ Hafter)).
Defined.

Lemma server_processes_are_held_in_isolation_witness :
  processes_held sample_world
  /\ processes_held (run env_ok connect sample_world).2
  /\ forall p, processes (run env_ok disconnect sample_world).2 !! p <> Some true.
Proof.
  assert (processes_held sample_world) as H.
  { split; [intros p Hp; discriminate Hp|intros _; reflexivity]. }
  split; [exact H|].
  destruct (server_processes_are_held_in_isolation (posix_resolve "/app") posix_dirname
              env_ok nightly sample_world H) as (Hc & _ & Hdead & _).
  split; [exact Hc|exact Hdead].
Defined.

Lemma concurrent_reconnects_orphan_a_server_process_witness :
  isConnected (mcp scheduled_world) = false
  /\ triggers scheduled_world !! 0 = Some (trigger_of sample_world nightly)
  /\ triggers scheduled_world !! 1 = Some (trigger_of sample_world hourly)
  /\ processes
       (world (step fields_validate (posix_resolve "/app") posix_dirname
                 (step fields_validate (posix_resolve "/app") posix_dirname
                    (machine0 scheduled_world) (EvTick 0)) (EvTick 1)))
     = [true; true]
  /\ processes
       (run env_ok disconnect
          (world (steps fields_validate (posix_resolve "/app") posix_dirname
                    (step fields_validate (posix_resolve "/app") posix_dirname
                       (step fields_validate (posix_resolve "/app") posix_dirname
                          (machine0 scheduled_world) (EvTick 0)) (EvTick 1))
                    [EvSettle 0 (Fulfilled VUndefined); EvStop None]))).2 !! 0
     = Some true.
Proof.
  assert (isConnected (mcp scheduled_world) = false) as Hc by (vm_compute; reflexivity).
  assert (triggers scheduled_world !! 0 = Some (trigger_of sample_world nightly)) as H0
    by (vm_compute; reflexivity).
  assert (triggers scheduled_world !! 1 = Some (trigger_of sample_world hourly)) as H1
    by (vm_compute; reflexivity).
  split; [exact Hc|]. split; [exact H0|]. split; [exact H1|].
  destruct (concurrent_reconnects_orphan_a_server_process fields_validate
              (posix_resolve "/app") posix_dirname scheduled_world [] 0 1 _ _
              Hc H0 eq_refl H1 eq_refl) as (Hp & _ & Hlater).
  split; [exact Hp|].
  exact (proj2 (proj2 (Hlater [EvSettle 0 (Fulfilled VUndefined); EvStop None])) env_ok).
Defined.
